(** * MediMind chat client: the streaming-response loop of [sendMessage]

    A shallow embedding of the four [sendMessage] variants of the
    repository (frontend chat components) and of the JavaScript built-ins
    they call, followed by the properties of the streaming loop.

    - [JS]: strings as lists of UTF-16 code units, the string methods the
      loop uses, the UTF-8 [TextDecoder], and [JSON.parse].
    - [Part002], [Part000], [Part001], [AppOriginal]: one module per source
      file, each with its own [sendMessage]. *)

From Stdlib.Strings Require Import String Ascii Byte.
From Stdlib Require Import ZArith List Bool Lia.
Import ListNotations.
Local Open Scope Z_scope.
#[local] Set Warnings "-register-all".

(* ===================================================================== *)
(** ** JavaScript built-ins *)
(* ===================================================================== *)

Module JS.

(** A JavaScript string is a sequence of UTF-16 code units. *)
Definition jsstring := list Z.

Fixpoint str_eqb (a b : jsstring) : bool :=
  match a, b with
  | [], [] => true
  | c :: a', d :: b' => (c =? d) && str_eqb a' b'
  | _, _ => false
  end.

(** [s.startsWith(p)] *)
Fixpoint startsWith (s p : jsstring) : bool :=
  match p, s with
  | [], _ => true
  | c :: p', d :: s' => (d =? c) && startsWith s' p'
  | _ :: _, [] => false
  end.

(** [s.includes(sub)] *)
Fixpoint includes (s sub : jsstring) : bool :=
  startsWith s sub ||
  match s with
  | [] => false
  | _ :: s' => includes s' sub
  end.

(** [s.replace(pat, rep)] with a string pattern: the first occurrence only.
    (The replacement strings used by the sources contain no [$].) *)
Fixpoint replace (s pat rep : jsstring) : jsstring :=
  if startsWith s pat then rep ++ skipn (length pat) s
  else match s with
       | [] => []
       | c :: s' => c :: replace s' pat rep
       end.

(** WhiteSpace and LineTerminator code units, as stripped by [trim]. *)
Definition isWhiteSpace (c : Z) : bool :=
  existsb (Z.eqb c)
    [9; 10; 11; 12; 13; 32; 160; 5760; 8232; 8233; 8239; 8287; 12288; 65279]
  || ((8192 <=? c) && (c <=? 8202)).

Fixpoint trimStart (s : jsstring) : jsstring :=
  match s with
  | [] => []
  | c :: r => if isWhiteSpace c then trimStart r else s
  end.

Definition trimEnd (s : jsstring) : jsstring := rev (trimStart (rev s)).

(** [s.trim()] *)
Definition trim (s : jsstring) : jsstring := trimEnd (trimStart s).

(** [s.split(sep)] for a one-code-unit separator: the empty string splits
    into one empty piece, and a trailing separator leaves a last empty
    piece. *)
Fixpoint split (s : jsstring) (sep : Z) : list jsstring :=
  match s with
  | [] => [[]]
  | c :: r =>
      if c =? sep then [] :: split r sep
      else match split r sep with
           | l :: ls => (c :: l) :: ls
           | [] => [[c]]
           end
  end.

(** [ls.join(sep)] *)
Fixpoint join (ls : list jsstring) (sep : jsstring) : jsstring :=
  match ls with
  | [] => []
  | [l] => l
  | l :: ls' => l ++ sep ++ join ls' sep
  end.

(** *** The UTF-8 decoder of the Encoding Standard *)

Record Utf8Decoder := mkUtf8 {
  code_point : Z;
  bytes_seen : Z;
  bytes_needed : Z;
  lower_boundary : Z;
  upper_boundary : Z
}.

Definition utf8_init : Utf8Decoder := mkUtf8 0 0 0 0x80 0xBF.

(** A byte read while no sequence is pending.  The result is the list of
    code points emitted and the next decoder state. *)
Definition utf8_lead (b : Z) : list Z * Utf8Decoder :=
  if b <=? 0x7F then ([b], utf8_init)
  else if (0xC2 <=? b) && (b <=? 0xDF) then
    ([], mkUtf8 (Z.land b 0x1F) 0 1 0x80 0xBF)
  else if (0xE0 <=? b) && (b <=? 0xEF) then
    ([], mkUtf8 (Z.land b 0xF) 0 2
           (if b =? 0xE0 then 0xA0 else 0x80)
           (if b =? 0xED then 0x9F else 0xBF))
  else if (0xF0 <=? b) && (b <=? 0xF4) then
    ([], mkUtf8 (Z.land b 0x7) 0 3
           (if b =? 0xF0 then 0x90 else 0x80)
           (if b =? 0xF4 then 0x8F else 0xBF))
  else ([0xFFFD], utf8_init).

(** One byte through the decoder.  A byte outside the expected range ends
    the pending sequence with U+FFFD and is then read again as a lead. *)
Definition utf8_handler (d : Utf8Decoder) (b : Z) : list Z * Utf8Decoder :=
  if bytes_needed d =? 0 then utf8_lead b
  else if (lower_boundary d <=? b) && (b <=? upper_boundary d) then
    let cp := Z.lor (Z.shiftl (code_point d) 6) (Z.land b 0x3F) in
    if bytes_seen d + 1 =? bytes_needed d then ([cp], utf8_init)
    else ([], mkUtf8 cp (bytes_seen d + 1) (bytes_needed d) 0x80 0xBF)
  else
    let '(out, d') := utf8_lead b in (0xFFFD :: out, d').

Definition byte_val (b : byte) : Z := Z.of_N (Byte.to_N b).

Fixpoint utf8_run (d : Utf8Decoder) (bs : list byte) : list Z * Utf8Decoder :=
  match bs with
  | [] => ([], d)
  | b :: r =>
      let '(o1, d1) := utf8_handler d (byte_val b) in
      let '(o2, d2) := utf8_run d1 r in
      (o1 ++ o2, d2)
  end.

(** End of queue with the flush requested: a pending sequence is an error. *)
Definition utf8_flush (d : Utf8Decoder) : list Z :=
  if bytes_needed d =? 0 then [] else [0xFFFD].

(** A code point as UTF-16 code units. *)
Definition utf16 (cp : Z) : jsstring :=
  if cp <=? 0xFFFF then [cp]
  else [0xD800 + Z.shiftr (cp - 0x10000) 10; 0xDC00 + Z.land (cp - 0x10000) 0x3FF].

(** Serialising the decoder's output: the first code point of the stream is
    dropped when it is the byte order mark (ignoreBOM is false). *)
Definition serialize (bom_seen : bool) (cps : list Z) : jsstring * bool :=
  if bom_seen then (flat_map utf16 cps, true)
  else match cps with
       | [] => ([], false)
       | cp :: r => ((if cp =? 0xFEFF then [] else utf16 cp) ++ flat_map utf16 r, true)
       end.

(** [new TextDecoder()] *)
Record TextDecoder := mkTextDecoder {
  utf8 : Utf8Decoder;
  BOM_seen : bool
}.

Definition new_TextDecoder : TextDecoder := mkTextDecoder utf8_init false.

(** [decoder.decode(value, { stream: true })]: pending bytes stay in the
    decoder for the next call. *)
Definition decode_stream (td : TextDecoder) (value : list byte) : jsstring * TextDecoder :=
  let '(cps, d) := utf8_run (utf8 td) value in
  let '(text, seen) := serialize (BOM_seen td) cps in
  (text, mkTextDecoder d seen).

(** [decoder.decode(value)]: without the stream option every call starts
    from a new decoder and flushes at the end of [value]. *)
Definition decode (value : list byte) : jsstring :=
  let '(cps, d) := utf8_run utf8_init value in
  fst (serialize false (cps ++ utf8_flush d)).

(** A string literal of the (UTF-8) source text as a JavaScript string. *)
Definition js (s : string) : jsstring :=
  flat_map utf16 (fst (utf8_run utf8_init (list_byte_of_string s))).

(** *** JSON values and [JSON.parse] *)

(** A parsed JSON value.  A number keeps the decimal it was written as:
    [JNum m e] stands for [m * 10^e]. *)
Inductive JSON :=
| JNull
| JBool (b : bool)
| JNum (m e : Z)
| JStr (s : jsstring)
| JArr (l : list JSON)
| JObj (l : list (jsstring * JSON)).

(** The double nearest to [m * 10^e] is zero exactly when the decimal is at
    most [2^-1075] in magnitude (round to nearest, ties to even). *)
Definition num_is_zero (m e : Z) : bool :=
  (m =? 0) || ((e <? 0) && (Z.abs m * 2 ^ 1075 <=? 10 ^ (- e))).

(** ToBoolean on a parsed value. *)
Definition truthy (v : JSON) : bool :=
  match v with
  | JNull => false
  | JBool b => b
  | JNum m e => negb (num_is_zero m e)
  | JStr s => match s with [] => false | _ => true end
  | JArr _ | JObj _ => true
  end.

(** ToBoolean on the result of a property read; [None] is [undefined]. *)
Definition truthy_opt (v : option JSON) : bool :=
  match v with
  | Some v => truthy v
  | None => false
  end.

(** [v.k] on a parsed value other than [null]: an own property of an
    object (the last one written wins when a key is repeated), [undefined]
    otherwise.  None of the names read by the sources is a property of a
    string, number, boolean or array. *)
Definition prop (v : JSON) (k : jsstring) : option JSON :=
  match v with
  | JObj fs =>
      fold_left (fun acc kv => if str_eqb (fst kv) k then Some (snd kv) else acc) fs None
  | _ => None
  end.

Inductive token :=
| TLBrace | TRBrace | TLBracket | TRBracket | TColon | TComma
| TString (s : jsstring)
| TWord (w : jsstring).

Inductive lexmode :=
| LDefault
| LWord (acc : jsstring)
| LString (acc : jsstring)
| LEscape (acc : jsstring)
| LUnicode (acc : jsstring) (hex : list Z).

Definition isJsonSpace (c : Z) : bool :=
  (c =? 32) || (c =? 9) || (c =? 10) || (c =? 13).

Definition isDigit (c : Z) : bool := (48 <=? c) && (c <=? 57).

(** Characters of numbers and of the literals [true], [false], [null]: a
    maximal run of them is one word, checked against the grammar when it
    ends. *)
Definition isWordChar (c : Z) : bool :=
  isDigit c || ((97 <=? c) && (c <=? 122)) || ((65 <=? c) && (c <=? 90))
  || (c =? 43) || (c =? 45) || (c =? 46).

Definition hexval (c : Z) : option Z :=
  if isDigit c then Some (c - 48)
  else if (97 <=? c) && (c <=? 102) then Some (c - 87)
  else if (65 <=? c) && (c <=? 70) then Some (c - 55)
  else None.

Definition lex_default (c : Z) : option (list token * lexmode) :=
  if isJsonSpace c then Some ([], LDefault)
  else if c =? 123 then Some ([TLBrace], LDefault)
  else if c =? 125 then Some ([TRBrace], LDefault)
  else if c =? 91 then Some ([TLBracket], LDefault)
  else if c =? 93 then Some ([TRBracket], LDefault)
  else if c =? 58 then Some ([TColon], LDefault)
  else if c =? 44 then Some ([TComma], LDefault)
  else if c =? 34 then Some ([], LString [])
  else if isWordChar c then Some ([], LWord [c])
  else None.

Definition lex_escape (acc : jsstring) (c : Z) : option (list token * lexmode) :=
  if (c =? 34) || (c =? 92) || (c =? 47) then Some ([], LString (acc ++ [c]))
  else if c =? 98 then Some ([], LString (acc ++ [8]))
  else if c =? 102 then Some ([], LString (acc ++ [12]))
  else if c =? 110 then Some ([], LString (acc ++ [10]))
  else if c =? 114 then Some ([], LString (acc ++ [13]))
  else if c =? 116 then Some ([], LString (acc ++ [9]))
  else if c =? 117 then Some ([], LUnicode acc [])
  else None.

Definition lex_step (m : lexmode) (c : Z) : option (list token * lexmode) :=
  match m with
  | LDefault => lex_default c
  | LWord acc =>
      if isWordChar c then Some ([], LWord (acc ++ [c]))
      else match lex_default c with
           | Some (ts, m') => Some (TWord acc :: ts, m')
           | None => None
           end
  | LString acc =>
      if c =? 34 then Some ([TString acc], LDefault)
      else if c =? 92 then Some ([], LEscape acc)
      else if c <? 32 then None
      else Some ([], LString (acc ++ [c]))
  | LEscape acc => lex_escape acc c
  | LUnicode acc hex =>
      match hexval c with
      | None => None
      | Some h =>
          match hex with
          | [h1; h2; h3] => Some ([], LString (acc ++ [((h1 * 16 + h2) * 16 + h3) * 16 + h]))
          | _ => Some ([], LUnicode acc (hex ++ [h]))
          end
      end
  end.

Fixpoint lex (m : lexmode) (s : jsstring) : option (list token) :=
  match s with
  | [] =>
      match m with
      | LDefault => Some []
      | LWord acc => Some [TWord acc]
      | _ => None
      end
  | c :: r =>
      match lex_step m c with
      | None => None
      | Some (ts, m') =>
          match lex m' r with
          | None => None
          | Some ts' => Some (ts ++ ts')
          end
      end
  end.

Fixpoint span_digits (s : jsstring) : jsstring * jsstring :=
  match s with
  | [] => ([], [])
  | c :: r =>
      if isDigit c then let '(ds, rest) := span_digits r in (c :: ds, rest)
      else ([], s)
  end.

Definition digits_val (ds : jsstring) : Z :=
  fold_left (fun acc d => acc * 10 + (d - 48)) ds 0.

(** The fraction of a number: [.] and at least one digit, or nothing. *)
Definition number_frac (s : jsstring) : option (jsstring * jsstring) :=
  match s with
  | c :: r =>
      if c =? 46 then
        match span_digits r with
        | ([], _) => None
        | (fp, rest) => Some (fp, rest)
        end
      else Some ([], s)
  | [] => Some ([], [])
  end.

(** The exponent of a number, which must end the word. *)
Definition number_exp (s : jsstring) : option Z :=
  match s with
  | [] => Some 0
  | c :: r =>
      if (c =? 101) || (c =? 69) then
        let '(sgn, r1) :=
          match r with
          | d :: r' => if d =? 43 then (1, r') else if d =? 45 then (-1, r') else (1, r)
          | [] => (1, r)
          end in
        match span_digits r1 with
        | (d :: ep, []) => Some (sgn * digits_val (d :: ep))
        | _ => None
        end
      else None
  end.

Definition parse_number (w : jsstring) : option JSON :=
  let '(neg, w1) :=
    match w with
    | c :: r => if c =? 45 then (true, r) else (false, w)
    | [] => (false, w)
    end in
  match span_digits w1 with
  | ([], _) => None
  | (d :: ip', w2) =>
      if (d =? 48) && (match ip' with [] => false | _ => true end) then None
      else
        match number_frac w2 with
        | None => None
        | Some (fp, w3) =>
            match number_exp w3 with
            | None => None
            | Some ex =>
                let m := digits_val ((d :: ip') ++ fp) in
                Some (JNum (if neg then - m else m) (ex - Z.of_nat (List.length fp)))
            end
        end
  end.

Definition word_value (w : jsstring) : option JSON :=
  if str_eqb w (js "true") then Some (JBool true)
  else if str_eqb w (js "false") then Some (JBool false)
  else if str_eqb w (js "null") then Some JNull
  else parse_number w.

(** The parser is a pushdown automaton over the tokens: the stack holds the
    arrays and objects that are still open. *)
Inductive frame :=
| FArr (elems : list JSON)
| FObj (fields : list (jsstring * JSON)) (key : option jsstring).

Inductive pmode :=
| PValue      (* a value is expected *)
| PArrFirst   (* after [ : a value or ] *)
| PObjFirst   (* after { : a key or } *)
| PObjKey     (* after , in an object: a key *)
| PColon      (* after a key *)
| PAfter.     (* after a value inside an array or object *)

Inductive pstate :=
| PRun (stack : list frame) (m : pmode)
| PDone (v : JSON).

Definition complete (v : JSON) (stack : list frame) : option pstate :=
  match stack with
  | [] => Some (PDone v)
  | FArr es :: st => Some (PRun (FArr (es ++ [v]) :: st) PAfter)
  | FObj fs (Some k) :: st => Some (PRun (FObj (fs ++ [(k, v)]) None :: st) PAfter)
  | FObj _ None :: _ => None
  end.

Definition parse_value (t : token) (stack : list frame) : option pstate :=
  match t with
  | TLBrace => Some (PRun (FObj [] None :: stack) PObjFirst)
  | TLBracket => Some (PRun (FArr [] :: stack) PArrFirst)
  | TString s => complete (JStr s) stack
  | TWord w =>
      match word_value w with
      | Some v => complete v stack
      | None => None
      end
  | _ => None
  end.

Definition parse_key (t : token) (stack : list frame) : option pstate :=
  match t, stack with
  | TString k, FObj fs None :: st => Some (PRun (FObj fs (Some k) :: st) PColon)
  | _, _ => None
  end.

Definition parse_step (ps : pstate) (t : token) : option pstate :=
  match ps with
  | PDone _ => None
  | PRun stack PValue => parse_value t stack
  | PRun stack PArrFirst =>
      match t, stack with
      | TRBracket, FArr [] :: st => complete (JArr []) st
      | _, _ => parse_value t stack
      end
  | PRun stack PObjFirst =>
      match t, stack with
      | TRBrace, FObj [] None :: st => complete (JObj []) st
      | _, _ => parse_key t stack
      end
  | PRun stack PObjKey => parse_key t stack
  | PRun stack PColon =>
      match t with
      | TColon => Some (PRun stack PValue)
      | _ => None
      end
  | PRun stack PAfter =>
      match t, stack with
      | TComma, FArr _ :: _ => Some (PRun stack PValue)
      | TComma, FObj _ None :: _ => Some (PRun stack PObjKey)
      | TRBracket, FArr es :: st => complete (JArr es) st
      | TRBrace, FObj fs None :: st => complete (JObj fs) st
      | _, _ => None
      end
  end.

Fixpoint parse_tokens (ps : pstate) (ts : list token) : option JSON :=
  match ts with
  | [] =>
      match ps with
      | PDone v => Some v
      | PRun _ _ => None
      end
  | t :: r =>
      match parse_step ps t with
      | None => None
      | Some ps' => parse_tokens ps' r
      end
  end.

(** [JSON.parse(text)]; [None] is the SyntaxError it throws. *)
Definition JSON_parse (text : jsstring) : option JSON :=
  match lex LDefault text with
  | None => None
  | Some ts => parse_tokens (PRun [] PValue) ts
  end.

End JS.

Import JS.

(* ===================================================================== *)
(** ** Data shared by the four components *)
(* ===================================================================== *)

Inductive Role := user | assistant.

(** A conversation entry.  The entries are JavaScript objects; a property
    an object does not have is [None]. *)
Record Message := mkMessage {
  role : Role;
  content : option jsstring;
  answer : option jsstring;
  plan : option JSON;
  context : option JSON;
  streaming : option bool;
  filesAnalyzed : option JSON;
  fileCount : option JSON
}.

(** The React state [sendMessage] reads and writes. *)
Record AppState := mkApp {
  messages : list Message;
  input : jsstring;
  loading : bool
}.

(** [setMessages(f)] with an updater function: the updaters run once each,
    in the order of the calls. *)
Definition setMessages (f : list Message -> list Message) (app : AppState) : AppState :=
  mkApp (f (messages app)) (input app) (loading app).

Definition setLoading (b : bool) (app : AppState) : AppState :=
  mkApp (messages app) (input app) b.

(** How the last [reader.read()] ends: [{ done: true }], or a rejection
    (the connection is lost mid-stream). *)
Inductive ReadEnd := Closed | Aborted.

(** What the network does with the request: [fetch] rejects (connection
    refused), or a response arrives whose body yields [chunks]. *)
Inductive Network :=
| FetchRejected
| Response (ok : bool) (chunks : list (list byte)) (last : ReadEnd).

(** How a piece of the loop body completes.  [OffContract] marks a payload
    whose fields do not have the types of the wire protocol (a [token],
    [error], [message] or [answer] that is not a string), where JavaScript
    would convert values implicitly; the embedding does not model those. *)
Inductive outcome (S : Type) :=
| Next (s : S)
| Break (s : S)
| Throw (s : S)
| OffContract.

Arguments Next {S} s.
Arguments Break {S} s.
Arguments Throw {S} s.
Arguments OffContract {S}.

Definition NL : jsstring := [10].

Definition is_empty (s : jsstring) : bool :=
  match s with [] => true | _ => false end.

(** [v || ''] for a string-valued property. *)
Definition or_empty (v : option jsstring) : jsstring :=
  match v with Some s => s | None => [] end.

(** [v || d] for a property of the parsed payload. *)
Definition or_default (v : option JSON) (d : JSON) : JSON :=
  match v with
  | Some x => if truthy x then x else d
  | None => d
  end.

(** [x += t] on a string-valued property: an absent property reads as
    [undefined]. *)
Definition plus_assign (x : option jsstring) (t : jsstring) : jsstring :=
  match x with
  | Some s => s ++ t
  | None => js "undefined" ++ t
  end.

(** [v === lit] for a string literal. *)
Definition is_string (v : option JSON) (lit : jsstring) : bool :=
  match v with
  | Some (JStr s) => str_eqb s lit
  | _ => false
  end.

(** [updated[updated.length - 1] = f(updated[updated.length - 1])] on a copy
    of the array.  On an empty array the assignment writes the property
    [-1], which is not an element: the list stays empty.  (Where a source
    reads a property of the last entry without testing the length, the
    array is not empty: [sendMessage] has appended the placeholder.) *)
Fixpoint update_last (f : Message -> Message) (ms : list Message) : list Message :=
  match ms with
  | [] => []
  | [m] => [f m]
  | m :: r => m :: update_last f r
  end.

Definition set_answer (a : jsstring) (m : Message) : Message :=
  mkMessage (role m) (content m) (Some a) (plan m) (context m)
            (streaming m) (filesAnalyzed m) (fileCount m).

Definition set_content (c : jsstring) (m : Message) : Message :=
  mkMessage (role m) (Some c) (answer m) (plan m) (context m)
            (streaming m) (filesAnalyzed m) (fileCount m).

Definition set_streaming (b : bool) (m : Message) : Message :=
  mkMessage (role m) (content m) (answer m) (plan m) (context m)
            (Some b) (filesAnalyzed m) (fileCount m).

(** [{ role: "user", content: question }] *)
Definition user_message (question : jsstring) : Message :=
  mkMessage user (Some question) None None None None None None.

(* ===================================================================== *)
(** ** src/unnamed/part_002 *)
(* ===================================================================== *)

Module Part002.

(** The variables of one [sendMessage] call: the React state and the local
    [hasError]. *)
Record Locals := mkLocals {
  state : AppState;
  hasError : bool
}.

Definition on_state (f : AppState -> AppState) (st : Locals) : Locals :=
  mkLocals (f (state st)) (hasError st).

(** [{ role: "assistant", answer: "", streaming: true }] *)
Definition placeholder : Message :=
  mkMessage assistant None (Some []) None None (Some true) None None.

(** [{ role: "assistant", answer: text, streaming: false }] *)
Definition error_message (text : jsstring) : Message :=
  mkMessage assistant None (Some text) None None (Some false) None None.

Definition RATE_LIMIT_TOKENS : jsstring :=
  js "⚠️ Rate limit reached. The API has exceeded its token limit. Please wait 30-60 seconds and try again.".

Definition RATE_LIMIT_WAIT : jsstring :=
  js "⚠️ Rate limit reached. Please wait 30-60 seconds and try again.".

Definition CONNECT_ERROR : jsstring :=
  js "Error connecting to backend. Make sure the server is running.".

(** Lines 101-110: the text shown for [parsed.error]. *)
Definition errorMessage (error : jsstring) : jsstring :=
  if includes error (js "429") || includes error (js "Rate limit")
     || includes error (js "rate limit")
  then RATE_LIMIT_TOKENS
  else if includes error (js "Error code: 429") then RATE_LIMIT_WAIT
  else error.

Definition PROGRESS_MARKER : jsstring := js "📝 Summarizing chunk".

(** Lines 131-159, the updater of the status branch on the last entry. *)
Definition on_status (parsed : JSON) (statusMsg : jsstring) (m : Message) : Message :=
  let currentAnswer := or_empty (answer m) in
  let status := prop parsed (js "status") in
  let m' :=
    if is_string status (js "chunking") then
      set_answer (js "📄 " ++ statusMsg ++ NL) m
    else if is_string status (js "processing") then
      set_answer (js "📄 Document is large. Processing in chunks..." ++ NL
                  ++ js "🔄 " ++ statusMsg ++ NL) m
    else if is_string status (js "chunk") then
      let progressMsg := js "📝 " ++ statusMsg in
      if negb (includes currentAnswer PROGRESS_MARKER) then
        set_answer (currentAnswer ++ progressMsg ++ NL) m
      else
        let lines := split currentAnswer 10 in
        let newLines := filter (fun l => negb (includes l PROGRESS_MARKER)) lines in
        set_answer (join (newLines ++ [progressMsg]) NL ++ NL) m
    else if is_string status (js "combining") then
      set_answer (currentAnswer ++ js "🔗 " ++ statusMsg ++ NL) m
    else if is_string status (js "finalizing") then
      set_answer (currentAnswer ++ js "✨ " ++ statusMsg ++ NL) m
    else if is_string status (js "error") then
      set_answer (currentAnswer ++ js "⚠️ " ++ statusMsg ++ NL) m
    else m in
  set_streaming true m'.

(** Lines 170-183, the updater of the token branch on the last entry. *)
Definition on_token (token : jsstring) (m : Message) : Message :=
  let currentAnswer := or_empty (answer m) in
  let m' :=
    if includes currentAnswer (js "📄") || includes currentAnswer (js "🔄")
       || includes currentAnswer (js "📝")
    then
      if negb (includes currentAnswer (trim token)) then set_answer token m
      else set_answer (plus_assign (answer m) token) m
    else set_answer (plus_assign (answer m) token) m in
  set_streaming true m'.

(** Lines 193-199, the object built by the final branch. *)
Definition on_final (final : JSON) (a : jsstring) (m : Message) : Message :=
  mkMessage (role m) (content m) (Some a) (plan m) (context m) (Some false)
            (Some (or_default (prop final (js "files_analyzed")) (JArr [])))
            (Some (or_default (prop final (js "file_count")) (JNum 0 0))).

(** [if (parsed.status) { ... }], lines 126-163. *)
Definition status_branch (parsed : JSON) (st : Locals) : outcome Locals :=
  if truthy_opt (prop parsed (js "status")) then
    match prop parsed (js "message") with
    | Some (JStr statusMsg) =>
        Next (on_state (setMessages (update_last (on_status parsed statusMsg))) st)
    | Some v =>
        if truthy v then OffContract
        else Next (on_state (setMessages (update_last (on_status parsed []))) st)
    | None => Next (on_state (setMessages (update_last (on_status parsed []))) st)
    end
  else Next st.

(** [if (parsed.token) { ... }], lines 166-187. *)
Definition token_branch (parsed : JSON) (st : Locals) : outcome Locals :=
  if truthy_opt (prop parsed (js "token")) then
    match prop parsed (js "token") with
    | Some (JStr token) => Next (on_state (setMessages (update_last (on_token token))) st)
    | _ => OffContract
    end
  else Next st.

(** [if (parsed.final) { ... }], lines 190-203. *)
Definition final_branch (parsed : JSON) (st : Locals) : outcome Locals :=
  if truthy_opt (prop parsed (js "final")) then
    match prop parsed (js "final") with
    | Some (JObj fs) =>
        match prop (JObj fs) (js "answer") with
        | Some (JStr a) =>
            Next (on_state (fun app =>
                    setLoading false (setMessages (update_last (on_final (JObj fs) a)) app)) st)
        | _ => OffContract
        end
    | _ => OffContract
    end
  else Next st.

Definition then_ (o : outcome Locals) (k : Locals -> outcome Locals) : outcome Locals :=
  match o with
  | Next st => k st
  | _ => o
  end.

(** Lines 96-203, the body of the inner [try] once [JSON.parse] has
    returned.  Reading [parsed.error] of [null] throws a TypeError, which
    the inner [catch] (lines 204-208) turns into [continue]. *)
Definition try_body (parsed : JSON) (st : Locals) : outcome Locals :=
  match parsed with
  | JNull => Next st
  | _ =>
      if truthy_opt (prop parsed (js "error")) then
        match prop parsed (js "error") with
        | Some (JStr error) =>
            Break (mkLocals
                     (setLoading false
                        (setMessages (update_last (fun _ => error_message (errorMessage error)))
                           (state st)))
                     true)
        | _ => OffContract
        end
      else
        then_ (status_branch parsed st) (fun st1 =>
        then_ (token_branch parsed st1) (fun st2 =>
        final_branch parsed st2))
  end.

(** [if (!hasError) setLoading(false)] *)
Definition done_loading (st : Locals) : Locals :=
  if hasError st then st else on_state (setLoading false) st.

(** Lines 85-208, one iteration of [for (const line of lines)]. *)
Definition process_line (line : jsstring) (st : Locals) : outcome Locals :=
  if negb (startsWith line (js "data:")) then Next st
  else
    let payload := trim (replace line (js "data:") []) in
    if is_empty payload || str_eqb payload (js "[DONE]") then Next (done_loading st)
    else
      match JSON_parse payload with
      | None => Next st
      | Some parsed => try_body parsed st
      end.

(** Lines 84-209, the [for] loop over the lines of one chunk. *)
Fixpoint for_lines (lines : list jsstring) (st : Locals) : outcome Locals :=
  match lines with
  | [] => Next st
  | line :: rest =>
      match process_line line st with
      | Next st' => for_lines rest st'
      | o => o
      end
  end.

(** Lines 72-210, the [while (true)] loop over the reads.  [break] in the
    [for] loop leaves that loop only: the next read follows. *)
Fixpoint read_loop (decoder : TextDecoder) (chunks : list (list byte)) (last : ReadEnd)
    (st : Locals) : outcome Locals :=
  match chunks with
  | [] =>
      match last with
      | Closed => Next (done_loading st)
      | Aborted => Throw st
      end
  | value :: rest =>
      let '(chunk, decoder') := decode_stream decoder value in
      match for_lines (split chunk 10) st with
      | Next st' | Break st' => read_loop decoder' rest last st'
      | o => o
      end
  end.

(** Lines 211-222, the outer [catch]. *)
Definition on_catch (app : AppState) : AppState :=
  setLoading false (setMessages (update_last (fun _ => error_message CONNECT_ERROR)) app).

(** Lines 43-54: the state once the question has been submitted. *)
Definition submitted (app : AppState) : AppState :=
  mkApp (messages app ++ [user_message (input app); placeholder]) [] true.

(** Lines 56-210, the [try] block. *)
Definition request (net : Network) (st : Locals) : outcome Locals :=
  match net with
  | FetchRejected => Throw st
  | Response ok chunks last =>
      if negb ok then Throw st
      else read_loop new_TextDecoder chunks last st
  end.

(** Lines 38-223.  [None]: a payload was off the wire contract. *)
Definition sendMessage (app : AppState) (net : Network) : option AppState :=
  if is_empty (trim (input app)) || loading app then Some app
  else
    match request net (mkLocals (submitted app) false) with
    | Next st | Break st => Some (state st)
    | Throw st => Some (on_catch (state st))
    | OffContract => None
    end.

End Part002.

(* ===================================================================== *)
(** ** src/unnamed/part_000 *)
(* ===================================================================== *)

Module Part000.

(** [{ role: "assistant", answer: "", streaming: true }] *)
Definition placeholder : Message :=
  mkMessage assistant None (Some []) None None (Some true) None None.

(** [{ role: "assistant", answer: text, streaming: false }] *)
Definition error_message (text : jsstring) : Message :=
  mkMessage assistant None (Some text) None None (Some false) None None.

Definition CONNECT_ERROR : jsstring :=
  js "Error connecting to backend. Make sure the server is running.".

(** Line 86: [updated[updated.length - 1].answer += parsed.token]. *)
Definition on_token (token : jsstring) (m : Message) : Message :=
  set_answer (plus_assign (answer m) token) m.

(** Lines 95-101, the object built by the final branch. *)
Definition on_final (final : JSON) (a : jsstring) (m : Message) : Message :=
  mkMessage (role m) (content m) (Some a) (plan m) (context m) (Some false)
            (Some (or_default (prop final (js "files_analyzed")) (JArr [])))
            (Some (or_default (prop final (js "file_count")) (JNum 0 0))).

(** [if (parsed.token) { ... }], lines 83-89. *)
Definition token_branch (parsed : JSON) (app : AppState) : outcome AppState :=
  if truthy_opt (prop parsed (js "token")) then
    match prop parsed (js "token") with
    | Some (JStr token) => Next (setMessages (update_last (on_token token)) app)
    | _ => OffContract
    end
  else Next app.

(** [if (parsed.final) { ... }], lines 92-104. *)
Definition final_branch (parsed : JSON) (app : AppState) : outcome AppState :=
  if truthy_opt (prop parsed (js "final")) then
    match prop parsed (js "final") with
    | Some (JObj fs) =>
        match prop (JObj fs) (js "answer") with
        | Some (JStr a) => Next (setMessages (update_last (on_final (JObj fs) a)) app)
        | _ => OffContract
        end
    | _ => OffContract
    end
  else Next app.

(** [if (parsed.error) { ... }], lines 107-118. *)
Definition error_branch (parsed : JSON) (app : AppState) : outcome AppState :=
  if truthy_opt (prop parsed (js "error")) then
    match prop parsed (js "error") with
    | Some (JStr error) =>
        Next (setLoading false
                (setMessages (update_last (fun _ => error_message (js "Error: " ++ error))) app))
    | _ => OffContract
    end
  else Next app.

Definition then_ (o : outcome AppState) (k : AppState -> outcome AppState) : outcome AppState :=
  match o with
  | Next app => k app
  | _ => o
  end.

(** Lines 80-118, the body of the inner [try] once [JSON.parse] has
    returned; a TypeError on [null] is caught by the inner [catch]. *)
Definition try_body (parsed : JSON) (app : AppState) : outcome AppState :=
  match parsed with
  | JNull => Next app
  | _ =>
      then_ (token_branch parsed app) (fun app1 =>
      then_ (final_branch parsed app1) (fun app2 =>
      error_branch parsed app2))
  end.

(** Lines 71-122, one iteration of [for (const line of lines)]. *)
Definition process_line (line : jsstring) (app : AppState) : outcome AppState :=
  if negb (startsWith line (js "data:")) then Next app
  else
    let payload := trim (replace line (js "data:") []) in
    if is_empty payload || str_eqb payload (js "[DONE]") then Next (setLoading false app)
    else
      match JSON_parse payload with
      | None => Next app
      | Some parsed => try_body parsed app
      end.

Fixpoint for_lines (lines : list jsstring) (app : AppState) : outcome AppState :=
  match lines with
  | [] => Next app
  | line :: rest =>
      match process_line line app with
      | Next app' => for_lines rest app'
      | o => o
      end
  end.

(** Lines 63-124, the [while (true)] loop; [decode] has no stream option. *)
Fixpoint read_loop (chunks : list (list byte)) (last : ReadEnd) (app : AppState)
    : outcome AppState :=
  match chunks with
  | [] =>
      match last with
      | Closed => Next app
      | Aborted => Throw app
      end
  | value :: rest =>
      match for_lines (split (decode value) 10) app with
      | Next app' | Break app' => read_loop rest last app'
      | o => o
      end
  end.

(** Lines 125-136, the outer [catch]. *)
Definition on_catch (app : AppState) : AppState :=
  setLoading false (setMessages (update_last (fun _ => error_message CONNECT_ERROR)) app).

Definition submitted (app : AppState) : AppState :=
  mkApp (messages app ++ [user_message (input app); placeholder]) [] true.

Definition request (net : Network) (app : AppState) : outcome AppState :=
  match net with
  | FetchRejected => Throw app
  | Response _ chunks last => read_loop chunks last app
  end.

(** Lines 35-137. *)
Definition sendMessage (app : AppState) (net : Network) : option AppState :=
  if is_empty (trim (input app)) || loading app then Some app
  else
    match request net (submitted app) with
    | Next app' | Break app' => Some app'
    | Throw app' => Some (on_catch app')
    | OffContract => None
    end.

End Part000.

(* ===================================================================== *)
(** ** src/unnamed/part_001 *)
(* ===================================================================== *)

Module Part001.

(** [{ role: "assistant", content: "", streaming: true }] *)
Definition placeholder : Message :=
  mkMessage assistant (Some []) None None None (Some true) None None.

(** [{ role: "assistant", content: text, streaming: false }] *)
Definition assistant_message (text : jsstring) : Message :=
  mkMessage assistant (Some text) None None None (Some false) None None.

Definition CONNECT_ERROR : jsstring := js "Error connecting to backend.".

(** Line 71: [updated[updated.length - 1].content += parsed.token]. *)
Definition on_token (token : jsstring) (m : Message) : Message :=
  set_content (plus_assign (content m) token) m.

(** [if (parsed.token) { ... }], lines 68-74. *)
Definition token_branch (parsed : JSON) (app : AppState) : outcome AppState :=
  if truthy_opt (prop parsed (js "token")) then
    match prop parsed (js "token") with
    | Some (JStr token) => Next (setMessages (update_last (on_token token)) app)
    | _ => OffContract
    end
  else Next app.

(** [if (parsed.final) { ... }], lines 76-86. *)
Definition final_branch (parsed : JSON) (app : AppState) : outcome AppState :=
  if truthy_opt (prop parsed (js "final")) then
    match prop parsed (js "final") with
    | Some (JObj fs) =>
        match prop (JObj fs) (js "answer") with
        | Some (JStr a) => Next (setMessages (update_last (fun _ => assistant_message a)) app)
        | _ => OffContract
        end
    | _ => OffContract
    end
  else Next app.

(** Lines 66-86: there is no inner [try]; an exception leaves the loops. *)
Definition parsed_body (parsed : JSON) (app : AppState) : outcome AppState :=
  match parsed with
  | JNull => Throw app
  | _ =>
      match token_branch parsed app with
      | Next app1 => final_branch parsed app1
      | o => o
      end
  end.

(** Lines 58-86, one iteration of [for (const line of lines)]. *)
Definition process_line (line : jsstring) (app : AppState) : outcome AppState :=
  if negb (startsWith line (js "data:")) then Next app
  else
    let payload := trim (replace line (js "data:") []) in
    if is_empty payload || str_eqb payload (js "[DONE]") then Next (setLoading false app)
    else
      match JSON_parse payload with
      | None => Throw app
      | Some parsed => parsed_body parsed app
      end.

Fixpoint for_lines (lines : list jsstring) (app : AppState) : outcome AppState :=
  match lines with
  | [] => Next app
  | line :: rest =>
      match process_line line app with
      | Next app' => for_lines rest app'
      | o => o
      end
  end.

(** Lines 50-88. *)
Fixpoint read_loop (chunks : list (list byte)) (last : ReadEnd) (app : AppState)
    : outcome AppState :=
  match chunks with
  | [] =>
      match last with
      | Closed => Next app
      | Aborted => Throw app
      end
  | value :: rest =>
      match for_lines (split (decode value) 10) app with
      | Next app' | Break app' => read_loop rest last app'
      | o => o
      end
  end.

(** Lines 89-99, the outer [catch]: the message is appended. *)
Definition on_catch (app : AppState) : AppState :=
  setLoading false
    (setMessages (fun prev => prev ++ [assistant_message CONNECT_ERROR]) app).

(** Lines 18-36. *)
Definition submitted (questionText : jsstring) (app : AppState) : AppState :=
  let asked :=
    if is_empty questionText then messages app
    else messages app ++ [user_message questionText] in
  mkApp (asked ++ [placeholder]) (input app) true.

Definition request (net : Network) (app : AppState) : outcome AppState :=
  match net with
  | FetchRejected => Throw app
  | Response _ chunks last => read_loop chunks last app
  end.

(** Lines 15-100, [sendMessage(questionText = "")]. *)
Definition sendMessage (questionText : jsstring) (app : AppState) (net : Network)
    : option AppState :=
  if loading app then Some app
  else
    match request net (submitted questionText app) with
    | Next app' | Break app' => Some app'
    | Throw app' => Some (on_catch app')
    | OffContract => None
    end.

End Part001.

(* ===================================================================== *)
(** ** src/medimind-main/frontend/src/App.original.jsx *)
(* ===================================================================== *)

Module AppOriginal.

(** [{ role: "assistant", answer: "", plan: "", context: "", streaming: true }] *)
Definition placeholder : Message :=
  mkMessage assistant None (Some []) (Some (JStr [])) (Some (JStr [])) (Some true) None None.

(** Lines 91-97, the object built by the outer [catch]. *)
Definition error_message (text : jsstring) : Message :=
  mkMessage assistant None (Some text) (Some (JStr [])) (Some (JStr [])) (Some false) None None.

Definition CONNECT_ERROR : jsstring := js "Error connecting to backend.".

(** Line 67: [updated[updated.length - 1].answer += parsed.token]. *)
Definition on_token (token : jsstring) (m : Message) : Message :=
  set_answer (plus_assign (answer m) token) m.

(** Lines 76-82, the object built by the final branch. *)
Definition on_final (final : JSON) (a : jsstring) (m : Message) : Message :=
  mkMessage (role m) (content m) (Some a)
            (Some (or_default (prop final (js "plan")) (JStr [])))
            (Some (or_default (prop final (js "context")) (JStr [])))
            (Some false) (filesAnalyzed m) (fileCount m).

(** [if (parsed.token) { ... }], lines 64-70. *)
Definition token_branch (parsed : JSON) (app : AppState) : outcome AppState :=
  if truthy_opt (prop parsed (js "token")) then
    match prop parsed (js "token") with
    | Some (JStr token) => Next (setMessages (update_last (on_token token)) app)
    | _ => OffContract
    end
  else Next app.

(** [if (parsed.final) { ... }], lines 73-85. *)
Definition final_branch (parsed : JSON) (app : AppState) : outcome AppState :=
  if truthy_opt (prop parsed (js "final")) then
    match prop parsed (js "final") with
    | Some (JObj fs) =>
        match prop (JObj fs) (js "answer") with
        | Some (JStr a) => Next (setMessages (update_last (on_final (JObj fs) a)) app)
        | _ => OffContract
        end
    | _ => OffContract
    end
  else Next app.

(** Lines 61-85: there is no inner [try]; an exception leaves the loops. *)
Definition parsed_body (parsed : JSON) (app : AppState) : outcome AppState :=
  match parsed with
  | JNull => Throw app
  | _ =>
      match token_branch parsed app with
      | Next app1 => final_branch parsed app1
      | o => o
      end
  end.

(** Lines 53-85, one iteration of [for (const line of lines)]. *)
Definition process_line (line : jsstring) (app : AppState) : outcome AppState :=
  if negb (startsWith line (js "data:")) then Next app
  else
    let payload := trim (replace line (js "data:") []) in
    if is_empty payload || str_eqb payload (js "[DONE]") then Next (setLoading false app)
    else
      match JSON_parse payload with
      | None => Throw app
      | Some parsed => parsed_body parsed app
      end.

Fixpoint for_lines (lines : list jsstring) (app : AppState) : outcome AppState :=
  match lines with
  | [] => Next app
  | line :: rest =>
      match process_line line app with
      | Next app' => for_lines rest app'
      | o => o
      end
  end.

(** Lines 45-87. *)
Fixpoint read_loop (chunks : list (list byte)) (last : ReadEnd) (app : AppState)
    : outcome AppState :=
  match chunks with
  | [] =>
      match last with
      | Closed => Next app
      | Aborted => Throw app
      end
  | value :: rest =>
      match for_lines (split (decode value) 10) app with
      | Next app' | Break app' => read_loop rest last app'
      | o => o
      end
  end.

(** Lines 88-101, the outer [catch]. *)
Definition on_catch (app : AppState) : AppState :=
  setLoading false (setMessages (update_last (fun _ => error_message CONNECT_ERROR)) app).

Definition submitted (app : AppState) : AppState :=
  mkApp (messages app ++ [user_message (input app); placeholder]) [] true.

Definition request (net : Network) (app : AppState) : outcome AppState :=
  match net with
  | FetchRejected => Throw app
  | Response _ chunks last => read_loop chunks last app
  end.

(** Lines 15-102. *)
Definition sendMessage (app : AppState) (net : Network) : option AppState :=
  if is_empty (trim (input app)) || loading app then Some app
  else
    match request net (submitted app) with
    | Next app' | Break app' => Some app'
    | Throw app' => Some (on_catch app')
    | OffContract => None
    end.

End AppOriginal.

(* ===================================================================== *)
(** ** Events: the lines of a read, classified *)
(* ===================================================================== *)

(** What the loops of all four components make of one line: nothing (the
    line does not start with the marker), the end sentinel, a payload
    [JSON.parse] rejects, or a parsed payload. *)
Inductive event :=
| EvDone
| EvMalformed
| EvPayload (parsed : JSON).

Definition line_event (line : jsstring) : option event :=
  if negb (startsWith line (js "data:")) then None
  else
    let payload := trim (replace line (js "data:") []) in
    if is_empty payload || str_eqb payload (js "[DONE]") then Some EvDone
    else
      match JSON_parse payload with
      | None => Some EvMalformed
      | Some parsed => Some (EvPayload parsed)
      end.

Definition lines_events (lines : list jsstring) : list event :=
  flat_map (fun line => match line_event line with Some e => [e] | None => [] end) lines.

(** The events of each read of a body decoded with [{ stream: true }]. *)
Fixpoint stream_events (decoder : TextDecoder) (chunks : list (list byte)) : list (list event) :=
  match chunks with
  | [] => []
  | value :: rest =>
      let '(chunk, decoder') := decode_stream decoder value in
      lines_events (split chunk 10) :: stream_events decoder' rest
  end.

(** The events of each read of a body decoded read by read. *)
Definition chunk_events (chunks : list (list byte)) : list (list event) :=
  map (fun value => lines_events (split (decode value) 10)) chunks.

(** The payloads the branches of the loops look for: a [token] string, a
    [status] string with its [message] beside it, a [final] object, an
    [error] string. *)
Definition Token (text : jsstring) : event :=
  EvPayload (JObj [(js "token", JStr text)]).

Definition Status (phase message : jsstring) : event :=
  EvPayload (JObj [(js "status", JStr phase); (js "message", JStr message)]).

Definition final_object (answer : jsstring) (files_analyzed : list jsstring) (file_count : Z)
    : JSON :=
  JObj [(js "answer", JStr answer);
        (js "files_analyzed", JArr (map JStr files_analyzed));
        (js "file_count", JNum file_count 0)].

Definition Final (answer : jsstring) (files_analyzed : list jsstring) (file_count : Z) : event :=
  EvPayload (JObj [(js "final", final_object answer files_analyzed file_count)]).

(** The entry [m] once a final payload with answer [X], files [F] and count
    [N] has been merged into it. *)
Definition final_message (m : Message) (X : jsstring) (F : list jsstring) (N : Z) : Message :=
  mkMessage (role m) (content m) (Some X) (plan m) (context m) (Some false)
            (Some (JArr (map JStr F))) (Some (JNum N 0)).

Definition Error (message : jsstring) : event :=
  EvPayload (JObj [(js "error", JStr message)]).

(** Bodies of examples are written with ['] for the double quote. *)
Definition wire (s : string) : list byte :=
  map (fun b => match b with x27 => x22 | _ => b end) (list_byte_of_string s).

(** One line of a body, ended by a line feed. *)
Definition line (s : string) : list byte := wire s ++ [x0a].

(** The state of the examples: an empty conversation, the question typed. *)
Definition app0 : AppState := mkApp [] (js "q") false.

(** The test of lines 172-174 of part_002: the accumulated text holds a
    banner marker and does not contain the trimmed token; the token then
    replaces the text. *)
Definition replaces_banner (currentAnswer token : jsstring) : bool :=
  (includes currentAnswer (js "📄") || includes currentAnswer (js "🔄")
   || includes currentAnswer (js "📝"))
  && negb (includes currentAnswer (trim token)).

(** No token of [ts], arriving in order on the accumulated text [acc],
    meets the replacement test. *)
Fixpoint no_replacement (acc : jsstring) (ts : list jsstring) : Prop :=
  match ts with
  | [] => True
  | t :: rest => replaces_banner acc t = false /\ no_replacement (acc ++ t) rest
  end.

(** The names the branches of the loop body test. *)
Definition recognised : list jsstring :=
  [js "error"; js "status"; js "token"; js "final"].

(** [k] is the only recognised property of [parsed], with value [v]. *)
Definition sole_field (parsed : JSON) (k : jsstring) (v : JSON) : Prop :=
  In k recognised /\ prop parsed k = Some v /\
  forall k', In k' recognised -> k' <> k -> prop parsed k' = None.

(** The entry [m] showing [text] while the stream goes on. *)
Definition banner (m : Message) (text : jsstring) : Message :=
  mkMessage (role m) (content m) (Some text) (plan m) (context m) (Some true)
            (filesAnalyzed m) (fileCount m).

(** The variables of part_002's loop when [m] is the last entry. *)
Definition tail_state (ms : list Message) (m : Message) (inp : jsstring) (ld he : bool)
    : Part002.Locals :=
  Part002.mkLocals (mkApp (ms ++ [m]) inp ld) he.

(** The loop variables [st] hold the conversation [ms] followed by one
    more entry, and the input [inp]. *)
Definition tail_of (ms : list Message) (inp : jsstring) (st : Part002.Locals) : Prop :=
  exists m ld he, st = tail_state ms m inp ld he.

Definition keeps_tail (ms : list Message) (inp : jsstring) (o : outcome Part002.Locals)
    : Prop :=
  match o with
  | Next st | Break st | Throw st => tail_of ms inp st
  | OffContract => True
  end.

(** The texts of the reads of a body decoded with [{ stream: true }], one
    after the other. *)
Fixpoint stream_text (decoder : TextDecoder) (chunks : list (list byte)) : jsstring :=
  match chunks with
  | [] => []
  | value :: rest =>
      let '(chunk, decoder') := decode_stream decoder value in
      chunk ++ stream_text decoder' rest
  end.

(** The chunk ends with a line feed byte. *)
Definition ends_with_LF (value : list byte) : bool :=
  match rev value with
  | x0a :: _ => true
  | _ => false
  end.

(** Every read but the last ends with a line feed: no line is split
    across two reads. *)
Fixpoint line_aligned (chunks : list (list byte)) : bool :=
  match chunks with
  | [] => true
  | [_] => true
  | value :: rest => ends_with_LF value && line_aligned rest
  end.

(** The texts the loop of part_002 splits into lines, one for each read. *)
Fixpoint read_texts (decoder : TextDecoder) (chunks : list (list byte)) : list jsstring :=
  match chunks with
  | [] => []
  | value :: rest =>
      let '(chunk, decoder') := decode_stream decoder value in
      chunk :: read_texts decoder' rest
  end.

(** The piece of [text] before its first line feed, and the piece after
    its last one. *)
Definition first_piece (text : jsstring) : jsstring := hd [] (split text 10).

Definition last_piece (text : jsstring) : jsstring := last (split text 10) [].

(** Every cut between two reads falls at a line terminator: the text read
    so far ends a line (it is empty or ends with a line feed), or only
    white space is left before the next line feed.  A cut after a line
    feed, before it, between a carriage return and its line feed, inside
    trailing blanks, and an empty read are of this kind; a cut with text of
    the line on both sides is not. *)
Fixpoint cuts_at_terminators (texts : list jsstring) : bool :=
  match texts with
  | [] => true
  | text :: rest =>
      (is_empty (last_piece text) || forallb isWhiteSpace (first_piece (concat rest)))
      && cuts_at_terminators rest
  end.

(** A body of the examples: lines ended by carriage return and line feed,
    cut before and inside the terminators, with an empty read. *)
Definition cr_lf_reads : list (list byte) :=
  [wire "data: {'token':'Result: '}"; [x0d]; [x0a]; [];
   wire "data: {'token':'normal.'}"; [x0a]; wire "data: [DONE]" ++ [x0d]; [x0a]].

(** The lines of [text] that are not empty. *)
Definition nonempty_lines (text : jsstring) : list jsstring :=
  filter (fun l => negb (is_empty l)) (split text 10).

Definition is_Done (e : event) : bool :=
  match e with EvDone => true | _ => false end.

(** A pending sequence never accepts a line feed as a continuation byte. *)
Definition pending_ok (d : Utf8Decoder) : Prop := 10 < lower_boundary d.

(** The outcome is not a [break]. *)
Definition no_break (o : outcome Part002.Locals) : Prop :=
  match o with
  | Break _ => False
  | _ => True
  end.

(** *** The loops of part_002 and part_000 as runs over events *)

Module Events002.
Import Part002.

(** What one iteration of the [for] loop does with a classified line. *)
Definition on_event (e : event) (st : Locals) : outcome Locals :=
  match e with
  | EvDone => Next (done_loading st)
  | EvMalformed => Next st
  | EvPayload parsed => try_body parsed st
  end.

(** The [for] loop of one read. *)
Fixpoint run_events (es : list event) (st : Locals) : outcome Locals :=
  match es with
  | [] => Next st
  | e :: rest =>
      match on_event e st with
      | Next st' => run_events rest st'
      | o => o
      end
  end.

(** The end of the [while] loop. *)
Definition at_end (last : ReadEnd) (st : Locals) : outcome Locals :=
  match last with
  | Closed => Next (done_loading st)
  | Aborted => Throw st
  end.

(** The [while] loop over the reads. *)
Fixpoint run_reads (reads : list (list event)) (last : ReadEnd) (st : Locals)
    : outcome Locals :=
  match reads with
  | [] => at_end last st
  | es :: rest =>
      match run_events es st with
      | Next st' | Break st' => run_reads rest last st'
      | o => o
      end
  end.

End Events002.

Module Events000.
Import Part000.

Definition on_event (e : event) (app : AppState) : outcome AppState :=
  match e with
  | EvDone => Next (setLoading false app)
  | EvMalformed => Next app
  | EvPayload parsed => try_body parsed app
  end.

Fixpoint run_events (es : list event) (app : AppState) : outcome AppState :=
  match es with
  | [] => Next app
  | e :: rest =>
      match on_event e app with
      | Next app' => run_events rest app'
      | o => o
      end
  end.

Definition at_end (last : ReadEnd) (app : AppState) : outcome AppState :=
  match last with
  | Closed => Next app
  | Aborted => Throw app
  end.

Fixpoint run_reads (reads : list (list event)) (last : ReadEnd) (app : AppState)
    : outcome AppState :=
  match reads with
  | [] => at_end last app
  | es :: rest =>
      match run_events es app with
      | Next app' | Break app' => run_reads rest last app'
      | o => o
      end
  end.

End Events000.

(** *** Invariants of the loops *)

(** An assistant entry that has an [answer] property. *)
Definition answering (m : Message) : Prop :=
  role m = assistant /\ exists text, answer m = Some text.

(** The loop variables of part_002 hold the conversation [ms] followed by
    one assistant entry with an answer, the input [inp], and a loading
    flag that is down once [hasError] is up. *)
Definition entry_ok (ms : list Message) (inp : jsstring) (st : Part002.Locals) : Prop :=
  exists m ld he,
    st = tail_state ms m inp ld he /\ answering m /\ (he = true -> ld = false).

Definition keeps_entry (ms : list Message) (inp : jsstring) (o : outcome Part002.Locals)
    : Prop :=
  match o with
  | Next st | Break st | Throw st => entry_ok ms inp st
  | OffContract => True
  end.

(** The state of part_001's loop holds the conversation [ms] followed by
    one assistant entry with a [content] text, and the input [inp]. *)
Definition p1_entry_ok (ms : list Message) (inp : jsstring) (app : AppState) : Prop :=
  exists m ld,
    app = mkApp (ms ++ [m]) inp ld /\ role m = assistant /\ exists text, content m = Some text.

Definition p1_keeps_entry (ms : list Message) (inp : jsstring) (o : outcome AppState) : Prop :=
  match o with
  | Next app | Break app | Throw app => p1_entry_ok ms inp app
  | OffContract => True
  end.

(** The text made of the lines [lines], each ended by a line feed. *)
Definition unlines (lines : list jsstring) : jsstring :=
  concat (map (fun l => l ++ NL) lines).

(** The state of the loops of part_000 and App.original.jsx holds the
    conversation [ms] followed by one assistant entry with an [answer]
    text, and the input [inp]. *)
Definition answer_entry_ok (ms : list Message) (inp : jsstring) (app : AppState) : Prop :=
  exists m ld, app = mkApp (ms ++ [m]) inp ld /\ answering m.

Definition keeps_answer_entry (ms : list Message) (inp : jsstring) (o : outcome AppState)
    : Prop :=
  match o with
  | Next app | Break app | Throw app => answer_entry_ok ms inp app
  | OffContract => True
  end.

(** The wire contract: a property the loops read as a string is a string
    when it is truthy, and a truthy [final] is an object whose [answer] is
    a string. *)
Definition string_or_falsy (v : option JSON) : bool :=
  match v with
  | Some (JStr _) => true
  | Some x => negb (truthy x)
  | None => true
  end.

Definition final_typed (v : option JSON) : bool :=
  match v with
  | Some (JObj fs) =>
      match prop (JObj fs) (js "answer") with
      | Some (JStr _) => true
      | _ => false
      end
  | Some x => negb (truthy x)
  | None => true
  end.

Definition wire_typed (parsed : JSON) : bool :=
  string_or_falsy (prop parsed (js "error"))
  && string_or_falsy (prop parsed (js "message"))
  && string_or_falsy (prop parsed (js "token"))
  && final_typed (prop parsed (js "final")).

Definition on_contract (e : event) : bool :=
  match e with
  | EvPayload parsed => wire_typed parsed
  | _ => true
  end.

(** Every payload of the body is on the wire contract: for part_002,
    which decodes with [{ stream: true }], and for the other components. *)
Definition streamed_on_contract (net : Network) : bool :=
  match net with
  | FetchRejected => true
  | Response _ chunks _ => forallb (forallb on_contract) (stream_events new_TextDecoder chunks)
  end.

Definition read_on_contract (net : Network) : bool :=
  match net with
  | FetchRejected => true
  | Response _ chunks _ => forallb (forallb on_contract) (chunk_events chunks)
  end.
(** An event that makes the loops of part_001 and App.original.jsx throw:
    a line [JSON.parse] rejects, or the payload [null]. *)
Definition fatal (e : event) : bool :=
  match e with
  | EvMalformed => true
  | EvPayload JNull => true
  | _ => false
  end.

(** The request of part_001 (and of App.original.jsx) throws. *)
Definition request_throws (net : Network) : bool :=
  match net with
  | FetchRejected => true
  | Response _ chunks last =>
      existsb (existsb fatal) (chunk_events chunks)
      || match last with Aborted => true | Closed => false end
  end.
(** An event of part_000's loop that leaves the loading flag alone: not the
    end sentinel, and no payload with a truthy [error]. *)
Definition quiet (e : event) : bool :=
  match e with
  | EvDone => false
  | EvMalformed => true
  | EvPayload parsed => negb (truthy_opt (prop parsed (js "error")))
  end.

(* ===================================================================== *)
(** ** The conversation as rendered (part_002 and part_000) *)
(* ===================================================================== *)

(** The [details] element under an answer: its summary shows [count], its
    body one line per element of [files]. *)
Inductive Trace :=
| NoTrace
| FilesAnalyzed (count : JSON) (files : list JSON).

(** What [messages.map] renders for one entry. *)
Inductive Bubble :=
| UserBubble (text : option jsstring)
| AssistantBubble (text : option jsstring) (trace : Trace).

(** [msg.filesAnalyzed && msg.filesAnalyzed.length > 0 && (...)] with
    [msg.fileCount || msg.filesAnalyzed.length] in the summary (part_002,
    lines 415-424; part_000, lines 281-290).  [None]: [filesAnalyzed] is
    neither absent nor an array, which the final branch stores only when
    the server sends such a [files_analyzed]. *)
Definition files_trace (msg : Message) : option Trace :=
  match filesAnalyzed msg with
  | None => Some NoTrace
  | Some (JArr []) => Some NoTrace
  | Some (JArr files) =>
      Some (FilesAnalyzed
              (or_default (fileCount msg) (JNum (Z.of_nat (List.length files)) 0)) files)
  | Some _ => None
  end.

(** The body of [messages.map((msg, i) => ...)]: an assistant entry shows
    [msg.answer] and the trace, any other entry [msg.content]. *)
Definition render_message (msg : Message) : option Bubble :=
  match role msg with
  | assistant =>
      match files_trace msg with
      | Some trace => Some (AssistantBubble (answer msg) trace)
      | None => None
      end
  | user => Some (UserBubble (content msg))
  end.

(* ===================================================================== *)
(** ** The file list (part_002 and part_000) *)
(* ===================================================================== *)

Module Files.

(** What [fetch] followed by [res.json()] gives: a rejection of either
    promise, or the parsed body. *)
Inductive Reply :=
| NoReply
| Json (data : JSON).

(** The calls of [alert], by the message they show; the data put in the
    message stands for its text. *)
Inductive Alert :=
| UploadSucceeded (count : option JSON) (files : list JSON)
| UploadFailed
| UploadError
| Deleted (filename : option JSON)
| DeleteError.

(** The React state of the sidebar, and the alerts raised so far.  An
    element of [uploadedFiles] is what [f.name] gave: [None] is
    [undefined]. *)
Record Sidebar := mkSidebar {
  uploadedFiles : list (option JSON);
  uploading : bool;
  alerts : list Alert
}.

Definition is_null (v : JSON) : bool :=
  match v with JNull => true | _ => false end.

(** [loadFiles] (part_002, lines 26-36; part_000, lines 23-33).  Reading
    [data.files] of [null], calling [map] on a value that is not an array
    and reading [f.name] of a [null] element throw a TypeError: the
    [catch] logs it, and [setUploadedFiles] has not been called. *)
Definition loadFiles (reply : Reply) (files : list (option JSON)) : list (option JSON) :=
  match reply with
  | NoReply => files
  | Json JNull => files
  | Json data =>
      match prop data (js "files") with
      | Some (JArr l) =>
          if existsb is_null l then files
          else map (fun f => prop f (js "name")) l
      | _ => files
      end
  end.

(** [v.length] for a truthy [v]. *)
Definition length_of (v : JSON) : option JSON :=
  match v with
  | JArr l => Some (JNum (Z.of_nat (List.length l)) 0)
  | JStr s => Some (JNum (Z.of_nat (List.length s)) 0)
  | JObj _ => prop v (js "length")
  | _ => None
  end.

(** [x > 0]; [None] where the comparison converts a string, an array or
    an object to a number, which is not modelled. *)
Definition greater_than_zero (x : option JSON) : option bool :=
  match x with
  | None => Some false
  | Some JNull => Some false
  | Some (JBool b) => Some b
  | Some (JNum m e) => Some ((0 <? m) && negb (num_is_zero m e))
  | Some _ => None
  end.

Definition alert (a : Alert) (s : Sidebar) : Sidebar :=
  mkSidebar (uploadedFiles s) (uploading s) (alerts s ++ [a]).

Definition setUploading (b : bool) (s : Sidebar) : Sidebar :=
  mkSidebar (uploadedFiles s) b (alerts s).

Definition setUploadedFiles (f : list (option JSON) -> list (option JSON)) (s : Sidebar)
    : Sidebar :=
  mkSidebar (f (uploadedFiles s)) (uploading s) (alerts s).

(** The [try] and [catch] blocks of [uploadFiles] (part_002, lines 237-254;
    part_000, lines 151-168).  [data.files.join] is called after
    [loadFiles] has run; on a value that is not an array it throws. *)
Definition upload_request (upload listing : Reply) (s : Sidebar) : option Sidebar :=
  match upload with
  | NoReply => Some (alert UploadError s)
  | Json JNull => Some (alert UploadError s)
  | Json data =>
      match prop data (js "files") with
      | Some v =>
          if truthy v then
            match greater_than_zero (length_of v) with
            | Some true =>
                let s1 := setUploadedFiles (loadFiles listing) s in
                match v with
                | JArr l => Some (alert (UploadSucceeded (prop data (js "count")) l) s1)
                | _ => Some (alert UploadError s1)
                end
            | Some false => Some (alert UploadFailed s)
            | None => None
            end
          else Some (alert UploadFailed s)
      | None => Some (alert UploadFailed s)
      end
  end.

(** [uploadFiles(files)] (part_002, lines 225-258; part_000, lines
    139-172); [files] is the selection of the file input.  [None]: the
    reply is off the wire contract (see [greater_than_zero]). *)
Definition uploadFiles (files : list jsstring) (upload listing : Reply) (s : Sidebar)
    : option Sidebar :=
  match files with
  | [] => Some s
  | _ =>
      match upload_request upload listing (setUploading true s) with
      | Some s' => Some (setUploading false s')
      | None => None
      end
  end.

(** [deleteFile(filename)] (part_002, lines 260-277; part_000, lines
    174-191); [confirmed] is the answer to [confirm]. *)
Definition deleteFile (filename : option JSON) (confirmed : bool) (deletion listing : Reply)
    (s : Sidebar) : Sidebar :=
  if negb confirmed then s
  else
    match deletion with
    | NoReply => alert DeleteError s
    | Json JNull => alert DeleteError s
    | Json data =>
        if is_string (prop data (js "status")) (js "deleted") then
          alert (Deleted filename) (setUploadedFiles (loadFiles listing) s)
        else s
    end.

End Files.

(* ===================================================================== *)
(** ** src/medimind-main/frontend/src/ClinicalVisualizations.jsx *)
(* ===================================================================== *)

Module ClinicalVisualizations.

(** *** [Object.entries] on a parsed value *)

(** The own properties [JSON.parse] creates for an object literal: a
    repeated key keeps the place of its first occurrence and the value of
    its last. *)
Fixpoint own_properties (fs : list (jsstring * JSON)) : list (jsstring * JSON) :=
  match fs with
  | [] => []
  | (k, v) :: rest =>
      (k, match prop (JObj rest) k with Some v' => v' | None => v end)
      :: filter (fun kv => negb (str_eqb (fst kv) k)) (own_properties rest)
  end.

(** An array index: the canonical decimal of an integer below [2^32 - 1]. *)
Definition array_index (k : jsstring) : option Z :=
  match k with
  | [] => None
  | [48] => Some 0
  | c :: r =>
      if (49 <=? c) && (c <=? 57) && forallb isDigit r
         && (digits_val k <=? 4294967294)
      then Some (digits_val k)
      else None
  end.

Fixpoint insert_index (n : Z) (kv : jsstring * JSON) (l : list (Z * (jsstring * JSON)))
    : list (Z * (jsstring * JSON)) :=
  match l with
  | [] => [(n, kv)]
  | (m, kv') :: r => if n <? m then (n, kv) :: l else (m, kv') :: insert_index n kv r
  end.

(** The properties in the order of [OrdinaryOwnPropertyKeys]: array
    indices in ascending order, then the other keys in creation order. *)
Definition ordered_properties (fs : list (jsstring * JSON)) : list (jsstring * JSON) :=
  let ps := own_properties fs in
  map snd
    (fold_right (fun kv acc =>
                   match array_index (fst kv) with
                   | Some n => insert_index n kv acc
                   | None => acc
                   end) [] ps)
  ++ filter (fun kv => match array_index (fst kv) with Some _ => false | None => true end) ps.

Fixpoint uint_units (d : Decimal.uint) : jsstring :=
  match d with
  | Decimal.Nil => []
  | Decimal.D0 r => 48 :: uint_units r
  | Decimal.D1 r => 49 :: uint_units r
  | Decimal.D2 r => 50 :: uint_units r
  | Decimal.D3 r => 51 :: uint_units r
  | Decimal.D4 r => 52 :: uint_units r
  | Decimal.D5 r => 53 :: uint_units r
  | Decimal.D6 r => 54 :: uint_units r
  | Decimal.D7 r => 55 :: uint_units r
  | Decimal.D8 r => 56 :: uint_units r
  | Decimal.D9 r => 57 :: uint_units r
  end.

(** [String(i)] for an index. *)
Definition index_key (i : nat) : jsstring := uint_units (Nat.to_uint i).

Fixpoint indexed {A : Type} (i : nat) (l : list A) : list (jsstring * A) :=
  match l with
  | [] => []
  | x :: r => (index_key i, x) :: indexed (S i) r
  end.

(** [Object.entries(v)]; [None]: the TypeError on [null]. *)
Definition entries (v : JSON) : option (list (jsstring * JSON)) :=
  match v with
  | JNull => None
  | JBool _ | JNum _ _ => Some []
  | JStr s => Some (indexed 0 (map (fun c => JStr [c]) s))
  | JArr l => Some (indexed 0 l)
  | JObj fs => Some (ordered_properties fs)
  end.

(** *** [SectionCompleteness] (lines 131-210) *)

Definition sectionLabels : list (jsstring * jsstring) :=
  [(js "demographics", js "Demographics");
   (js "chief_complaint", js "Chief Complaint");
   (js "history_of_present_illness", js "History of Present Illness");
   (js "past_medical_history", js "Past Medical History");
   (js "medications", js "Medications");
   (js "allergies", js "Allergies");
   (js "vital_signs", js "Vital Signs");
   (js "physical_examination", js "Physical Examination");
   (js "laboratory_results", js "Laboratory Results");
   (js "assessment", js "Assessment");
   (js "plan", js "Plan")].

Definition getStatusColor (status : JSON) : jsstring :=
  if is_string (Some status) (js "present") then js "#10b981"
  else if is_string (Some status) (js "partial") then js "#f59e0b"
  else if is_string (Some status) (js "not_mentioned") then js "#ef4444"
  else js "#6b7280".

Definition getStatusLabel (status : JSON) : jsstring :=
  if is_string (Some status) (js "present") then js "Present"
  else if is_string (Some status) (js "partial") then js "Partial"
  else if is_string (Some status) (js "not_mentioned") then js "Not Mentioned"
  else js "Unknown".

(** The property names every object inherits from [Object.prototype]:
    [allSections[name]] is a function (or the prototype itself) for
    these, truthy and different from every string. *)
Definition inherited_names : list jsstring :=
  [js "constructor"; js "__defineGetter__"; js "__defineSetter__"; js "hasOwnProperty";
   js "__lookupGetter__"; js "__lookupSetter__"; js "isPrototypeOf";
   js "propertyIsEnumerable"; js "toString"; js "valueOf"; js "__proto__";
   js "toLocaleString"].

Definition inherited (name : jsstring) : bool := existsb (str_eqb name) inherited_names.

(** The own properties of [allSections], the latest first. *)
Definition Sections := list (jsstring * JSON).

(** The own property [section] of [allSections]. *)
Fixpoint own (allSections : Sections) (section : jsstring) : option JSON :=
  match allSections with
  | [] => None
  | (k, v) :: rest => if str_eqb k section then Some v else own rest section
  end.

(** [allSections[section] = status].  Assigning a string to [__proto__]
    runs the setter of [Object.prototype], which ignores it. *)
Definition assign (allSections : Sections) (section : jsstring) (status : JSON) : Sections :=
  if str_eqb section (js "__proto__") then allSections
  else (section, status) :: allSections.

(** Lines 176-182, the callback of the inner [forEach].  On an inherited
    name the first test fails and the third compares a function with a
    string; the second assigns when [status] is the string [present]. *)
Definition merge_status (allSections : Sections) (section : jsstring) (status : JSON)
    : Sections :=
  match own allSections section with
  | Some current =>
      if negb (truthy current) then assign allSections section status
      else if is_string (Some status) (js "present")
              && negb (is_string (Some current) (js "present"))
      then assign allSections section status
      else if is_string (Some status) (js "partial")
              && is_string (Some current) (js "not_mentioned")
      then assign allSections section status
      else allSections
  | None =>
      if inherited section then
        if is_string (Some status) (js "present") then assign allSections section status
        else allSections
      else (section, status) :: allSections
  end.

(** The inner [forEach] over the sections of one file. *)
Definition merge_file (fileSections : list (jsstring * JSON)) (allSections : Sections)
    : Sections :=
  fold_left (fun acc kv => merge_status acc (fst kv) (snd kv)) fileSections allSections.

(** The outer [forEach] (lines 174-184); [None]: [Object.entries] of a
    file whose sections are [null] throws. *)
Fixpoint merge_files (files : list (jsstring * JSON)) (allSections : Sections)
    : option Sections :=
  match files with
  | [] => Some allSections
  | (_, fileSections) :: rest =>
      match entries fileSections with
      | Some es => merge_files rest (merge_file es allSections)
      | None => None
      end
  end.

(** Lines 171-185: [if (sections && typeof sections === 'object')]. *)
Definition combine (sections : option JSON) : option Sections :=
  match sections with
  | Some (JArr l) => merge_files (indexed 0 l) []
  | Some (JObj fs) => merge_files (ordered_properties fs) []
  | _ => Some []
  end.

(** One row of the grid: the label, the colour of the dot, the text. *)
Record SectionItem := mkSectionItem {
  section_label : jsstring;
  status_dot : jsstring;
  status_text : jsstring
}.

(** Lines 191-205: [allSections[key] || "not_mentioned"] for each label. *)
Definition section_item (allSections : Sections) (entry : jsstring * jsstring) : SectionItem :=
  let status := or_default (own allSections (fst entry)) (JStr (js "not_mentioned")) in
  mkSectionItem (snd entry) (getStatusColor status) (getStatusLabel status).

(** The component; [None]: rendering throws. *)
Definition SectionCompleteness (sections : option JSON) : option (list SectionItem) :=
  match combine sections with
  | Some allSections => Some (map (section_item allSections) sectionLabels)
  | None => None
  end.

(** *** [AbnormalLabsPanel] (lines 281-349) *)

(** A card: the three texts with a default. *)
Record LabCard := mkLabCard {
  lab_name : JSON;
  lab_value : JSON;
  lab_reference : JSON
}.

Definition lab_card (lab : JSON) : LabCard :=
  mkLabCard (or_default (prop lab (js "test_name")) (JStr (js "Unknown Test")))
            (or_default (prop lab (js "value")) (JStr (js "N/A")))
            (or_default (prop lab (js "reference_range")) (JStr (js "Not specified"))).

Inductive LabsPanel :=
| NoLabs
| LabResults (abnormalLabs normalLabs : list JSON).

(** [x === 0] *)
Definition strictly_zero (x : option JSON) : bool :=
  match x with
  | Some (JNum m e) => num_is_zero m e
  | _ => false
  end.

(** The component, by the labs of its two sections; a section is shown
    when its list is not empty.  [None]: rendering throws ([filter] on a
    value that is not an array, [is_abnormal] of a [null] element). *)
Definition AbnormalLabsPanel (labs : option JSON) : option LabsPanel :=
  match labs with
  | None => Some NoLabs
  | Some v =>
      if negb (truthy v) || strictly_zero (Files.length_of v) then Some NoLabs
      else
        match v with
        | JArr l =>
            if existsb Files.is_null l then None
            else Some (LabResults
                         (filter (fun lab => truthy_opt (prop lab (js "is_abnormal"))) l)
                         (filter (fun lab => negb (truthy_opt (prop lab (js "is_abnormal")))) l))
        | _ => None
        end
  end.

(** *** What the files report *)

(** The files of [sections], as the outer [forEach] meets them. *)
Definition files_of (sections : option JSON) : list (jsstring * JSON) :=
  match sections with
  | Some (JArr l) => indexed 0 l
  | Some (JObj fs) => ordered_properties fs
  | _ => []
  end.

(** Some file of [sections] reports [status] for [section]. *)
Definition reported (sections : option JSON) (section : jsstring) (status : JSON) : Prop :=
  exists filename fileSections es,
    In (filename, fileSections) (files_of sections) /\
    entries fileSections = Some es /\
    In (section, status) es.

(** One of the three statuses the component knows. *)
Definition known_status (status : JSON) : bool :=
  is_string (Some status) (js "present")
  || is_string (Some status) (js "partial")
  || is_string (Some status) (js "not_mentioned").

(** [present] over [partial] over [not_mentioned]. *)
Definition status_level (status : JSON) : nat :=
  if is_string (Some status) (js "present") then 3
  else if is_string (Some status) (js "partial") then 2
  else if is_string (Some status) (js "not_mentioned") then 1
  else 0.

(** [current] is the best of the statuses [P] holds of: nothing when
    there is none. *)
Definition best_status (P : JSON -> Prop) (current : option JSON) : Prop :=
  match current with
  | None => forall status, ~ P status
  | Some v =>
      P v /\ known_status v = true /\
      forall status, P status -> (status_level status <= status_level v)%nat
  end.

(** The sections of two files, for the examples. *)
Definition two_files : option JSON :=
  Some (JObj [(js "a.txt", JObj [(js "plan", JStr (js "partial"))]);
              (js "b.txt", JObj [(js "plan", JStr (js "present"));
                                 (js "allergies", JStr (js "not_mentioned"))])]).

End ClinicalVisualizations.

(* ===================================================================== *)
(** ** Properties *)
(* ===================================================================== *)

(** *** Lists and strings *)

Lemma update_last_snoc (f : Message -> Message) (ms : list Message) (m : Message) :
  update_last f (ms ++ [m]) = ms ++ [f m].
Proof.
  induction ms as [|a ms IH]; simpl; [reflexivity|].
  rewrite IH. destruct (ms ++ [m]) eqn:E; [destruct ms; discriminate|reflexivity].
Qed.

(** Steps of part_002's loop on a state whose last entry is known. *)
Ltac on_last_entry :=
  unfold tail_state, Part002.on_state, setLoading, setMessages;
  cbn [Part002.state Part002.hasError messages input loading];
  rewrite ?update_last_snoc.

Lemma str_eqb_eq (a b : jsstring) : str_eqb a b = true <-> a = b.
Proof.
  revert b. induction a as [|c a IH]; intros [|d b]; simpl; split; intro H;
    try reflexivity; try discriminate.
  - apply andb_true_iff in H. destruct H as [H1 H2].
    apply Z.eqb_eq in H1. apply IH in H2. congruence.
  - injection H as -> ->. rewrite Z.eqb_refl. simpl. apply IH. reflexivity.
Qed.

Lemma str_eqb_refl (a : jsstring) : str_eqb a a = true.
Proof. apply str_eqb_eq. reflexivity. Qed.

Lemma startsWith_nil (s : jsstring) : startsWith s [] = true.
Proof. destruct s; reflexivity. Qed.

Lemma startsWith_app (p s : jsstring) : startsWith (p ++ s) p = true.
Proof.
  induction p as [|c p IH]; simpl; [apply startsWith_nil|].
  now rewrite Z.eqb_refl.
Qed.

Lemma includes_nil (s : jsstring) : includes s [] = true.
Proof. destruct s; reflexivity. Qed.

Lemma trimStart_all (s : jsstring) : forallb isWhiteSpace s = true -> trimStart s = [].
Proof.
  induction s as [|c s IH]; [reflexivity|]. cbn [forallb trimStart].
  intro H. apply andb_true_iff in H. destruct H as [Hc Hs]. now rewrite Hc, IH.
Qed.

Lemma trimStart_nil (s : jsstring) : trimStart s = [] -> forallb isWhiteSpace s = true.
Proof.
  induction s as [|c s IH]; [reflexivity|]. cbn [forallb trimStart].
  destruct (isWhiteSpace c); [exact IH | discriminate].
Qed.

Lemma trimStart_keeps (s : jsstring) :
  forallb isWhiteSpace (trimStart s) = true -> forallb isWhiteSpace s = true.
Proof.
  induction s as [|c s IH]; [reflexivity|]. cbn [trimStart].
  destruct (isWhiteSpace c) eqn:E; [|exact (fun H => H)].
  intro H. cbn [forallb]. now rewrite E, IH.
Qed.

Lemma forallb_rev (f : Z -> bool) (s : jsstring) : forallb f (rev s) = forallb f s.
Proof.
  induction s as [|c s IH]; [reflexivity|]. cbn [rev forallb].
  rewrite forallb_app, IH. cbn [forallb]. rewrite andb_true_r. apply andb_comm.
Qed.

(** [trim] leaves nothing exactly when the string holds white space only. *)
Lemma trim_empty_iff (s : jsstring) :
  is_empty (trim s) = true <-> forallb isWhiteSpace s = true.
Proof.
  unfold trim, trimEnd. split.
  - intro H. destruct (rev (trimStart (rev (trimStart s)))) eqn:E; [|discriminate].
    apply (f_equal (@rev Z)) in E. rewrite rev_involutive in E. cbn in E.
    apply trimStart_nil in E. rewrite forallb_rev in E. now apply trimStart_keeps.
  - intro H. now rewrite (trimStart_all s H).
Qed.

(** *** The loops are runs over the classified lines *)

Lemma p2_process_line_event (line : jsstring) (st : Part002.Locals) :
  Part002.process_line line st =
  match line_event line with
  | None => Next st
  | Some e => Events002.on_event e st
  end.
Proof.
  unfold Part002.process_line, line_event.
  destruct (negb (startsWith line (js "data:"))); [reflexivity|].
  destruct (is_empty _ || str_eqb _ _); [reflexivity|].
  destruct (JSON_parse _); reflexivity.
Qed.

Lemma p2_for_lines_events (lines : list jsstring) (st : Part002.Locals) :
  Part002.for_lines lines st = Events002.run_events (lines_events lines) st.
Proof.
  revert st. induction lines as [|line rest IH]; intro st; [reflexivity|].
  cbn [Part002.for_lines lines_events flat_map].
  rewrite p2_process_line_event.
  destruct (line_event line) as [e|]; cbn [app Events002.run_events].
  - destruct (Events002.on_event e st); try reflexivity. apply IH.
  - apply IH.
Qed.

Lemma p2_read_loop_events (d : TextDecoder) (chunks : list (list byte)) (last : ReadEnd)
    (st : Part002.Locals) :
  Part002.read_loop d chunks last st =
  Events002.run_reads (stream_events d chunks) last st.
Proof.
  revert d st. induction chunks as [|value rest IH]; intros d st.
  - destruct last; reflexivity.
  - cbn [Part002.read_loop stream_events].
    destruct (decode_stream d value) as [chunk d'].
    cbn [Events002.run_reads]. rewrite p2_for_lines_events.
    destruct (Events002.run_events _ st); try reflexivity; apply IH.
Qed.

Lemma p2_run_events_app (es1 es2 : list event) (st : Part002.Locals) :
  Events002.run_events (es1 ++ es2) st =
  match Events002.run_events es1 st with
  | Next st' => Events002.run_events es2 st'
  | o => o
  end.
Proof.
  revert st. induction es1 as [|e es1 IH]; intro st; [reflexivity|].
  cbn [app Events002.run_events].
  destruct (Events002.on_event e st); try reflexivity. apply IH.
Qed.

Lemma p2_run_reads_concat (reads : list (list event)) (last : ReadEnd)
    (st st' : Part002.Locals) :
  Events002.run_events (concat reads) st = Next st' ->
  Events002.run_reads reads last st = Events002.at_end last st'.
Proof.
  revert st. induction reads as [|es rest IH]; intros st H.
  - cbn in H. injection H as ->. reflexivity.
  - cbn [concat] in H. rewrite p2_run_events_app in H.
    cbn [Events002.run_reads].
    destruct (Events002.run_events es st); try discriminate. now apply IH.
Qed.

Lemma p0_process_line_event (line : jsstring) (app : AppState) :
  Part000.process_line line app =
  match line_event line with
  | None => Next app
  | Some e => Events000.on_event e app
  end.
Proof.
  unfold Part000.process_line, line_event.
  destruct (negb (startsWith line (js "data:"))); [reflexivity|].
  destruct (is_empty _ || str_eqb _ _); [reflexivity|].
  destruct (JSON_parse _); reflexivity.
Qed.

Lemma p0_for_lines_events (lines : list jsstring) (app : AppState) :
  Part000.for_lines lines app = Events000.run_events (lines_events lines) app.
Proof.
  revert app. induction lines as [|line rest IH]; intro app; [reflexivity|].
  cbn [Part000.for_lines lines_events flat_map].
  rewrite p0_process_line_event.
  destruct (line_event line) as [e|]; cbn [List.app Events000.run_events].
  - destruct (Events000.on_event e app); try reflexivity. apply IH.
  - apply IH.
Qed.

Lemma p0_read_loop_events (chunks : list (list byte)) (last : ReadEnd) (app : AppState) :
  Part000.read_loop chunks last app =
  Events000.run_reads (chunk_events chunks) last app.
Proof.
  revert app. induction chunks as [|value rest IH]; intro app.
  - destruct last; reflexivity.
  - cbn [Part000.read_loop chunk_events map Events000.run_reads].
    rewrite p0_for_lines_events.
    destruct (Events000.run_events _ app); try reflexivity; apply IH.
Qed.

Lemma p0_run_events_app (es1 es2 : list event) (app : AppState) :
  Events000.run_events (es1 ++ es2) app =
  match Events000.run_events es1 app with
  | Next app' => Events000.run_events es2 app'
  | o => o
  end.
Proof.
  revert app. induction es1 as [|e es1 IH]; intro app; [reflexivity|].
  cbn [List.app Events000.run_events].
  destruct (Events000.on_event e app); try reflexivity. apply IH.
Qed.

Lemma p0_run_reads_concat (reads : list (list event)) (last : ReadEnd)
    (app app' : AppState) :
  Events000.run_events (concat reads) app = Next app' ->
  Events000.run_reads reads last app = Events000.at_end last app'.
Proof.
  revert app. induction reads as [|es rest IH]; intros app H.
  - cbn in H. injection H as ->. reflexivity.
  - cbn [concat] in H. rewrite p0_run_events_app in H.
    cbn [Events000.run_reads].
    destruct (Events000.run_events es app); try discriminate. now apply IH.
Qed.

(** *** What each event does (part_002) *)

Lemma p2_on_Token (t : jsstring) (st : Part002.Locals) :
  Events002.on_event (Token t) st =
  if is_empty t then Next st
  else Next (Part002.on_state (setMessages (update_last (Part002.on_token t))) st).
Proof. destruct t; reflexivity. Qed.

Lemma or_default_num (n : Z) : or_default (Some (JNum n 0)) (JNum 0 0) = JNum n 0.
Proof.
  unfold or_default, truthy, num_is_zero.
  destruct (Z.eqb_spec n 0) as [->|]; reflexivity.
Qed.

Lemma p2_on_final_object (X : jsstring) (F : list jsstring) (N : Z) (m : Message) :
  Part002.on_final (final_object X F N) X m = final_message m X F N.
Proof.
  unfold Part002.on_final, final_message, final_object.
  change (prop _ (js "files_analyzed")) with (Some (JArr (map JStr F))).
  change (prop _ (js "file_count")) with (Some (JNum N 0)).
  rewrite or_default_num. reflexivity.
Qed.

Lemma p2_on_Final (X : jsstring) (F : list jsstring) (N : Z) (st : Part002.Locals) :
  Events002.on_event (Final X F N) st =
  Next (Part002.on_state
          (fun app => setLoading false
             (setMessages (update_last (Part002.on_final (final_object X F N) X)) app)) st).
Proof. reflexivity. Qed.

Lemma p2_on_Error (e : jsstring) (st : Part002.Locals) :
  Events002.on_event (Error e) st =
  if is_empty e then Next st
  else Break (Part002.mkLocals
                (setLoading false
                   (setMessages
                      (update_last (fun _ => Part002.error_message (Part002.errorMessage e)))
                      (Part002.state st)))
                true).
Proof. destruct e; reflexivity. Qed.

Lemma p2_on_Status (phase msg : jsstring) (st : Part002.Locals) :
  Events002.on_event (Status phase msg) st =
  if is_empty phase then Next st
  else Next (Part002.on_state
               (setMessages
                  (update_last
                     (Part002.on_status
                        (JObj [(js "status", JStr phase); (js "message", JStr msg)]) msg)))
               st).
Proof. destruct phase; reflexivity. Qed.

(** *** What each event does (part_000) *)

Lemma p0_on_Token (t : jsstring) (app : AppState) :
  Events000.on_event (Token t) app =
  if is_empty t then Next app
  else Next (setMessages (update_last (Part000.on_token t)) app).
Proof. destruct t; reflexivity. Qed.

Lemma p0_on_final_object (X : jsstring) (F : list jsstring) (N : Z) (m : Message) :
  Part000.on_final (final_object X F N) X m = final_message m X F N.
Proof.
  unfold Part000.on_final, final_message, final_object.
  change (prop _ (js "files_analyzed")) with (Some (JArr (map JStr F))).
  change (prop _ (js "file_count")) with (Some (JNum N 0)).
  rewrite or_default_num. reflexivity.
Qed.

Lemma p0_on_Final (X : jsstring) (F : list jsstring) (N : Z) (app : AppState) :
  Events000.on_event (Final X F N) app =
  Next (setMessages (update_last (Part000.on_final (final_object X F N) X)) app).
Proof. reflexivity. Qed.

Lemma p0_on_Error (e : jsstring) (app : AppState) :
  Events000.on_event (Error e) app =
  if is_empty e then Next app
  else Next (setLoading false
               (setMessages
                  (update_last (fun _ => Part000.error_message (js "Error: " ++ e))) app)).
Proof. destruct e; reflexivity. Qed.

(** *** Tokens followed by a final payload *)

Lemma p2_final_on_tail (X : jsstring) (F : list jsstring) (N : Z)
    (ms : list Message) (m : Message) (inp : jsstring) (ld he : bool) :
  Events002.on_event (Final X F N) (tail_state ms m inp ld he) =
  Next (tail_state ms (final_message m X F N) inp false he).
Proof.
  rewrite p2_on_Final. on_last_entry. now rewrite p2_on_final_object.
Qed.

Lemma p2_token_on_tail (t : jsstring) (ms : list Message) (m : Message)
    (inp : jsstring) (ld he : bool) :
  is_empty t = false ->
  Events002.on_event (Token t) (tail_state ms m inp ld he) =
  Next (tail_state ms (Part002.on_token t m) inp ld he).
Proof.
  intro Ht. rewrite p2_on_Token, Ht. now on_last_entry.
Qed.

Lemma p0_final_on_tail (X : jsstring) (F : list jsstring) (N : Z)
    (ms : list Message) (m : Message) (inp : jsstring) (ld : bool) :
  Events000.on_event (Final X F N) (mkApp (ms ++ [m]) inp ld) =
  Next (mkApp (ms ++ [final_message m X F N]) inp ld).
Proof.
  rewrite p0_on_Final. unfold setMessages. cbn [messages input loading].
  now rewrite update_last_snoc, p0_on_final_object.
Qed.

Lemma final_message_p2_on_token (t : jsstring) (m : Message) (X : jsstring)
    (F : list jsstring) (N : Z) :
  final_message (Part002.on_token t m) X F N = final_message m X F N.
Proof.
  unfold Part002.on_token, final_message.
  destruct (includes _ _ || includes _ _ || includes _ _); [|reflexivity].
  destruct (negb _); reflexivity.
Qed.

Lemma p2_tokens_then_final (ts : list jsstring) (X : jsstring) (F : list jsstring) (N : Z)
    (ms : list Message) (m : Message) (inp : jsstring) (ld he : bool) :
  Events002.run_events (map Token ts ++ [Final X F N])
    (Part002.mkLocals (mkApp (ms ++ [m]) inp ld) he) =
  Next (Part002.mkLocals (mkApp (ms ++ [final_message m X F N]) inp false) he).
Proof.
  revert m. induction ts as [|t ts IH]; intro m.
  - cbn [map List.app Events002.run_events]. rewrite p2_on_Final.
    unfold Part002.on_state, setLoading, setMessages. cbn.
    now rewrite update_last_snoc, p2_on_final_object.
  - cbn [map List.app Events002.run_events]. rewrite p2_on_Token.
    destruct (is_empty t); [apply IH|].
    unfold Part002.on_state, setMessages. cbn.
    rewrite update_last_snoc, IH. now rewrite final_message_p2_on_token.
Qed.

Lemma p0_tokens_then_final (ts : list jsstring) (X : jsstring) (F : list jsstring) (N : Z)
    (ms : list Message) (m : Message) (inp : jsstring) (ld : bool) :
  Events000.run_events (map Token ts ++ [Final X F N]) (mkApp (ms ++ [m]) inp ld) =
  Next (mkApp (ms ++ [final_message m X F N]) inp ld).
Proof.
  revert m. induction ts as [|t ts IH]; intro m.
  - cbn [map List.app Events000.run_events]. rewrite p0_on_Final.
    unfold setMessages. cbn.
    now rewrite update_last_snoc, p0_on_final_object.
  - cbn [map List.app Events000.run_events]. rewrite p0_on_Token.
    destruct (is_empty t); [apply IH|].
    unfold setMessages. cbn.
    rewrite update_last_snoc, IH. reflexivity.
Qed.

Lemma snoc2 {A : Type} (l : list A) (a b : A) : l ++ [a; b] = (l ++ [a]) ++ [b].
Proof. now rewrite <- app_assoc. Qed.

(** C3.  A final payload with answer [X], files [F] and count [N] leaves
    the in-progress entry with text [X], filesAnalyzed [F], fileCount [N]
    and streaming false, whatever the entry held before; in particular for
    every response body whose reads carry token events followed by that
    final event, in part_002 and in part_000. *)
Theorem C3_final_overrides_tokens
    (app : AppState) (chunks : list (list byte)) (ok : bool)
    (ts : list jsstring) (X : jsstring) (F : list jsstring) (N : Z) :
  (forall ms m inp ld he,
     Events002.on_event (Final X F N) (tail_state ms m inp ld he) =
       Next (tail_state ms
               (mkMessage (role m) (content m) (Some X) (plan m) (context m) (Some false)
                          (Some (JArr (map JStr F))) (Some (JNum N 0)))
               inp false he) /\
     Events000.on_event (Final X F N) (mkApp (ms ++ [m]) inp ld) =
       Next (mkApp (ms ++
                    [mkMessage (role m) (content m) (Some X) (plan m) (context m) (Some false)
                               (Some (JArr (map JStr F))) (Some (JNum N 0))])
                   inp ld))
  /\
  (is_empty (trim (input app)) || loading app = false ->
   (concat (stream_events new_TextDecoder chunks) = map Token ts ++ [Final X F N] ->
    Part002.sendMessage app (Response true chunks Closed) =
    Some (mkApp (messages app ++
                 [user_message (input app);
                  mkMessage assistant None (Some X) None None (Some false)
                            (Some (JArr (map JStr F))) (Some (JNum N 0))])
                [] false))
   /\
   (concat (chunk_events chunks) = map Token ts ++ [Final X F N] ->
    Part000.sendMessage app (Response ok chunks Closed) =
    Some (mkApp (messages app ++
                 [user_message (input app);
                  mkMessage assistant None (Some X) None None (Some false)
                            (Some (JArr (map JStr F))) (Some (JNum N 0))])
                [] true))).
Proof.
  split.
  - intros ms m inp ld he. split; [apply p2_final_on_tail | apply p0_final_on_tail].
  - intro Hin. split; intro Hev.
    + unfold Part002.sendMessage. rewrite Hin.
      cbn [Part002.request negb]. rewrite p2_read_loop_events.
      unfold Part002.submitted. rewrite snoc2.
      erewrite p2_run_reads_concat
        by (rewrite Hev; apply p2_tokens_then_final).
      cbn. now rewrite <- app_assoc.
    + unfold Part000.sendMessage. rewrite Hin.
      cbn [Part000.request]. rewrite p0_read_loop_events.
      unfold Part000.submitted. rewrite snoc2.
      erewrite p0_run_reads_concat
        by (rewrite Hev; apply p0_tokens_then_final).
      cbn. now rewrite <- app_assoc.
Qed.

(** Witness of [C3_final_overrides_tokens]: a token read and a final read. *)
Lemma C3_witness :
  Part002.sendMessage app0
    (Response true
       [line "data: {'token':'par'}";
        line "data: {'final':{'answer':'X','files_analyzed':['a.txt'],'file_count':1}}"]
       Closed) =
  Some (mkApp [user_message (js "q");
               mkMessage assistant None (Some (js "X")) None None (Some false)
                         (Some (JArr [JStr (js "a.txt")])) (Some (JNum 1 0))]
              [] false)
  /\
  Part000.sendMessage app0
    (Response true
       [line "data: {'token':'par'}";
        line "data: {'final':{'answer':'X','files_analyzed':['a.txt'],'file_count':1}}"]
       Closed) =
  Some (mkApp [user_message (js "q");
               mkMessage assistant None (Some (js "X")) None None (Some false)
                         (Some (JArr [JStr (js "a.txt")])) (Some (JNum 1 0))]
              [] true).
Proof.
  destruct (proj2 (C3_final_overrides_tokens app0
              [line "data: {'token':'par'}";
               line "data: {'final':{'answer':'X','files_analyzed':['a.txt'],'file_count':1}}"]
              true [js "par"] (js "X") [js "a.txt"] 1) eq_refl) as [H2 H0].
  split; [apply H2 | apply H0]; vm_compute; reflexivity.
Defined.

(** *** Tokens alone *)

Lemma p2_on_token_replaces (t : jsstring) (m : Message) :
  Part002.on_token t m =
  set_streaming true
    (if replaces_banner (or_empty (answer m)) t then set_answer t m
     else set_answer (plus_assign (answer m) t) m).
Proof.
  unfold Part002.on_token, replaces_banner.
  destruct (includes _ _ || includes _ _ || includes _ _); [|reflexivity].
  cbn [andb]. destruct (negb _); reflexivity.
Qed.

Lemma p2_tokens_append (ts : list jsstring) (a : jsstring)
    (ms : list Message) (r : Role) (c : option jsstring) (p x : option JSON)
    (fa fc : option JSON) (inp : jsstring) (ld he : bool) :
  no_replacement a ts ->
  Events002.run_events (map Token ts)
    (Part002.mkLocals
       (mkApp (ms ++ [mkMessage r c (Some a) p x (Some true) fa fc]) inp ld) he) =
  Next (Part002.mkLocals
          (mkApp (ms ++ [mkMessage r c (Some (a ++ concat ts)) p x (Some true) fa fc]) inp ld)
          he).
Proof.
  revert a. induction ts as [|t ts IH]; intros a Hno.
  - cbn. now rewrite app_nil_r.
  - destruct Hno as [Ht Hno]. cbn [map Events002.run_events concat].
    rewrite p2_on_Token. destruct t as [|ch t].
    + cbn [is_empty]. rewrite app_nil_r in Hno. now apply IH.
    + cbn [is_empty]. unfold Part002.on_state, setMessages. cbn [messages input loading Part002.state Part002.hasError].
      rewrite update_last_snoc, p2_on_token_replaces.
      cbn [answer or_empty]. rewrite Ht.
      cbn [plus_assign answer set_answer set_streaming role content plan context
           streaming filesAnalyzed fileCount].
      unfold set_streaming, set_answer;
        cbn [role content answer streaming plan context filesAnalyzed fileCount].
      rewrite (IH _ Hno). now rewrite <- app_assoc.
Qed.

Lemma p0_tokens_append (ts : list jsstring) (a : jsstring)
    (ms : list Message) (r : Role) (c : option jsstring) (p x : option JSON)
    (s : option bool) (fa fc : option JSON) (inp : jsstring) (ld : bool) :
  Events000.run_events (map Token ts)
    (mkApp (ms ++ [mkMessage r c (Some a) p x s fa fc]) inp ld) =
  Next (mkApp (ms ++ [mkMessage r c (Some (a ++ concat ts)) p x s fa fc]) inp ld).
Proof.
  revert a. induction ts as [|t ts IH]; intro a.
  - cbn. now rewrite app_nil_r.
  - cbn [map Events000.run_events concat].
    rewrite p0_on_Token. destruct t as [|ch t].
    + cbn [is_empty]. apply IH.
    + cbn [is_empty]. unfold setMessages. cbn [messages input loading].
      rewrite update_last_snoc. unfold Part000.on_token, set_answer.
      cbn [plus_assign answer role content plan context
           streaming filesAnalyzed fileCount].
      rewrite IH. now rewrite <- app_assoc.
Qed.

(** C7.  Token-append law: when the reads of a response body carry the
    token events [t1 ... tn] and no token meets the banner-replacement
    test on arrival, the text of the in-progress entry ends as the
    concatenation [t1 ++ ... ++ tn], in part_002 and in part_000. *)
Theorem C7_token_append
    (app : AppState) (chunks : list (list byte)) (ok : bool) (ts : list jsstring) :
  is_empty (trim (input app)) || loading app = false ->
  no_replacement [] ts ->
  (concat (stream_events new_TextDecoder chunks) = map Token ts ->
   Part002.sendMessage app (Response true chunks Closed) =
   Some (mkApp (messages app ++
                [user_message (input app);
                 mkMessage assistant None (Some (concat ts)) None None (Some true) None None])
               [] false))
  /\
  (concat (chunk_events chunks) = map Token ts ->
   Part000.sendMessage app (Response ok chunks Closed) =
   Some (mkApp (messages app ++
                [user_message (input app);
                 mkMessage assistant None (Some (concat ts)) None None (Some true) None None])
               [] true)).
Proof.
  intros Hin Hno. split; intro Hev.
  - unfold Part002.sendMessage. rewrite Hin.
    cbn [Part002.request negb]. rewrite p2_read_loop_events.
    unfold Part002.submitted, Part002.placeholder. rewrite snoc2.
    erewrite p2_run_reads_concat
      by (rewrite Hev; apply (p2_tokens_append ts []); exact Hno).
    cbn. now rewrite <- app_assoc.
  - unfold Part000.sendMessage. rewrite Hin.
    cbn [Part000.request]. rewrite p0_read_loop_events.
    unfold Part000.submitted, Part000.placeholder. rewrite snoc2.
    erewrite p0_run_reads_concat
      by (rewrite Hev; apply (p0_tokens_append ts [])).
    cbn. now rewrite <- app_assoc.
Qed.

(** Witness of [C7_token_append]: two tokens in two reads. *)
Lemma C7_witness :
  Part002.sendMessage app0
    (Response true
       [line "data: {'token':'Result: '}"; line "data: {'token':'normal.'}"]
       Closed) =
  Some (mkApp [user_message (js "q");
               mkMessage assistant None (Some (js "Result: normal.")) None None
                         (Some true) None None]
              [] false)
  /\
  Part000.sendMessage app0
    (Response true
       [line "data: {'token':'Result: '}"; line "data: {'token':'normal.'}"]
       Closed) =
  Some (mkApp [user_message (js "q");
               mkMessage assistant None (Some (js "Result: normal.")) None None
                         (Some true) None None]
              [] true).
Proof.
  assert (Hno : no_replacement [] [js "Result: "; js "normal."])
    by (repeat split; vm_compute; reflexivity).
  destruct (C7_token_append app0
              [line "data: {'token':'Result: '}"; line "data: {'token':'normal.'}"]
              true [js "Result: "; js "normal."] eq_refl Hno) as [H2 H0].
  split; [apply H2 | apply H0]; vm_compute; reflexivity.
Defined.

(** *** Payloads without a truthy recognised field *)

Lemma p2_all_falsy (parsed : JSON) (st : Part002.Locals) :
  truthy_opt (prop parsed (js "error")) = false ->
  truthy_opt (prop parsed (js "status")) = false ->
  truthy_opt (prop parsed (js "token")) = false ->
  truthy_opt (prop parsed (js "final")) = false ->
  Part002.try_body parsed st = Next st.
Proof.
  intros He Hs Ht Hf. unfold Part002.try_body.
  destruct parsed; try reflexivity;
    rewrite He; unfold Part002.status_branch, Part002.token_branch, Part002.final_branch;
    rewrite Hs; cbn [Part002.then_]; rewrite Ht; cbn [Part002.then_]; rewrite Hf; reflexivity.
Qed.

Lemma p0_all_falsy (parsed : JSON) (app : AppState) :
  truthy_opt (prop parsed (js "error")) = false ->
  truthy_opt (prop parsed (js "token")) = false ->
  truthy_opt (prop parsed (js "final")) = false ->
  Part000.try_body parsed app = Next app.
Proof.
  intros He Ht Hf. unfold Part000.try_body.
  destruct parsed; try reflexivity;
    unfold Part000.token_branch, Part000.final_branch, Part000.error_branch;
    rewrite Ht; cbn [Part000.then_]; rewrite Hf; cbn [Part000.then_]; rewrite He; reflexivity.
Qed.

Lemma sole_field_falsy (parsed : JSON) (k : jsstring) (v : JSON) (k' : jsstring) :
  sole_field parsed k v -> truthy v = false -> In k' recognised ->
  truthy_opt (prop parsed k') = false.
Proof.
  intros (_ & Hk & Hother) Hv Hin.
  destruct (list_eq_dec Z.eq_dec k' k) as [->|Hne].
  - now rewrite Hk.
  - now rewrite (Hother k' Hin Hne).
Qed.

(** C10.  A parsed payload whose only recognised field has a falsy value
    (a [token] or an [error] equal to the empty string) is a no-op in
    part_002 and in part_000: the React state and [hasError] are unchanged
    and the loop goes on, so an empty error neither ends the message nor
    clears [streaming]; the branches test the value, not the presence. *)
Theorem C10_falsy_field_is_noop (parsed : JSON) (k : jsstring) (v : JSON) :
  sole_field parsed k v ->
  truthy v = false ->
  forall (st : Part002.Locals) (app : AppState),
    Events002.on_event (EvPayload parsed) st = Next st /\
    Events000.on_event (EvPayload parsed) app = Next app.
Proof.
  intros Hsole Hv st app.
  assert (H : forall k', In k' recognised -> truthy_opt (prop parsed k') = false)
    by (intros k' Hin; exact (sole_field_falsy parsed k v k' Hsole Hv Hin)).
  split.
  - apply p2_all_falsy; apply H; cbn; auto.
  - apply p0_all_falsy; apply H; cbn; auto.
Qed.

Lemma sole_field_single (k : jsstring) (v : JSON) :
  In k recognised -> sole_field (JObj [(k, v)]) k v.
Proof.
  intro Hin. split; [exact Hin|]. split.
  - cbn. now rewrite str_eqb_refl.
  - intros k' _ Hne. cbn.
    destruct (str_eqb k k') eqn:E; [|reflexivity].
    apply str_eqb_eq in E. congruence.
Qed.

(** Witness of [C10_falsy_field_is_noop]: the payloads with an empty error
    and with an empty token. *)
Lemma C10_witness :
  (Events002.on_event (Error []) (Part002.mkLocals (Part002.submitted app0) false) =
     Next (Part002.mkLocals (Part002.submitted app0) false) /\
   Events000.on_event (Error []) (Part000.submitted app0) = Next (Part000.submitted app0))
  /\
  (Events002.on_event (Token []) (Part002.mkLocals (Part002.submitted app0) false) =
     Next (Part002.mkLocals (Part002.submitted app0) false) /\
   Events000.on_event (Token []) (Part000.submitted app0) = Next (Part000.submitted app0)).
Proof.
  split.
  - apply (C10_falsy_field_is_noop _ (js "error") (JStr [])).
    + apply sole_field_single. cbn. auto.
    + reflexivity.
  - apply (C10_falsy_field_is_noop _ (js "token") (JStr [])).
    + apply sole_field_single. cbn. auto.
    + reflexivity.
Defined.

(** *** Splitting and joining lines *)

Lemma split_nonempty (s : jsstring) (sep : Z) : split s sep <> [].
Proof.
  destruct s as [|c r]; cbn; [discriminate|].
  destruct (c =? sep); [discriminate|]. destruct (split r sep); discriminate.
Qed.

Lemma split_app_sep (a b : jsstring) (sep : Z) :
  split (a ++ sep :: b) sep = split a sep ++ split b sep.
Proof.
  induction a as [|c a IH]; cbn [List.app split].
  - now rewrite Z.eqb_refl.
  - destruct (c =? sep); [now rewrite IH|].
    rewrite IH. destruct (split a sep) as [|l ls] eqn:E; [|reflexivity].
    now apply split_nonempty in E.
Qed.

Lemma split_no_sep (l : jsstring) (sep : Z) : ~ In sep l -> split l sep = [l].
Proof.
  induction l as [|c l IH]; intro H; [reflexivity|]. cbn [split].
  destruct (Z.eqb_spec c sep) as [->|_]; [exfalso; apply H; now left|].
  rewrite IH; [reflexivity|]. intro Hin. apply H. now right.
Qed.

Lemma split_lines_no_sep (s : jsstring) (sep : Z) :
  Forall (fun l => ~ In sep l) (split s sep).
Proof.
  induction s as [|c s IH]; cbn [split].
  - constructor; [intros []|constructor].
  - destruct (Z.eqb_spec c sep) as [->|Hne].
    + constructor; [intros []|exact IH].
    + destruct (split s sep) as [|l ls]; [constructor; [|constructor]|].
      * intros [H|[]]. congruence.
      * inversion IH; subst. constructor; [|assumption].
        intros [H|H]; [congruence|contradiction].
Qed.

Lemma join_cons2 (l l' : jsstring) (ls : list jsstring) (sep : jsstring) :
  join (l :: l' :: ls) sep = l ++ sep ++ join (l' :: ls) sep.
Proof. reflexivity. Qed.

Lemma split_join (ls : list jsstring) :
  ls <> [] -> Forall (fun l => ~ In 10 l) ls -> split (join ls NL) 10 = ls.
Proof.
  induction ls as [|l ls IH]; intros Hne Hall; [congruence|].
  inversion Hall as [|? ? Hl Hls]; subst.
  destruct ls as [|l' ls].
  - now apply split_no_sep.
  - rewrite join_cons2.
    replace (NL ++ join (l' :: ls) NL) with (10 :: join (l' :: ls) NL) by reflexivity.
    rewrite split_app_sep, split_no_sep by assumption.
    rewrite IH by (assumption || discriminate). reflexivity.
Qed.

Lemma split_app_NL (s : jsstring) : split (s ++ NL) 10 = split s 10 ++ [[]].
Proof. unfold NL. now rewrite split_app_sep. Qed.

Lemma includes_char (l : jsstring) (c : Z) : includes l [c] = false -> ~ In c l.
Proof.
  induction l as [|d l IH]; intros H; [intros []|].
  cbn in H. apply orb_false_iff in H. destruct H as [H1 H2].
  intros [->|Hin].
  - rewrite Z.eqb_refl in H1. cbn in H1. destruct l; discriminate.
  - now apply IH.
Qed.

(** *** Status banners (part_002) *)

Lemma p2_status_shows (phase msg : jsstring) (ms : list Message) (m : Message)
    (inp : jsstring) (ld he : bool) :
  is_empty phase = false ->
  Events002.on_event (Status phase msg) (tail_state ms m inp ld he) =
  Next (tail_state ms
          (Part002.on_status (JObj [(js "status", JStr phase); (js "message", JStr msg)]) msg m)
          inp ld he).
Proof.
  intro Hp. rewrite p2_on_Status, Hp. now on_last_entry.
Qed.

Lemma p2_on_status_chunk (msg : jsstring) (m : Message) :
  Part002.on_status (JObj [(js "status", JStr (js "chunk")); (js "message", JStr msg)]) msg m =
  banner m
    (if includes (or_empty (answer m)) Part002.PROGRESS_MARKER then
       join (filter (fun l => negb (includes l Part002.PROGRESS_MARKER))
                    (split (or_empty (answer m)) 10) ++ [js "📝 " ++ msg]) NL ++ NL
     else or_empty (answer m) ++ js "📝 " ++ msg ++ NL).
Proof.
  unfold Part002.on_status.
  change (is_string _ (js "chunking")) with false.
  change (is_string _ (js "processing")) with false.
  change (is_string _ (js "chunk")) with true.
  cbv iota. destruct (includes _ _); reflexivity.
Qed.

Lemma filter_no_sep (f : jsstring -> bool) (s : jsstring) :
  Forall (fun l => ~ In 10 l) (filter f (split s 10)).
Proof.
  pose proof (split_lines_no_sep s 10) as H.
  induction H as [|l ls Hl _ IH]; cbn; [constructor|].
  destruct (f l); [constructor|]; assumption.
Qed.

Lemma filter_all (f : jsstring -> bool) (ls : list jsstring) :
  forallb f ls = true -> filter f ls = ls.
Proof.
  induction ls as [|l ls IH]; cbn; [reflexivity|].
  intro H. apply andb_true_iff in H. destruct H as [H1 H2].
  now rewrite H1, IH.
Qed.

Lemma split_with_single (f : jsstring -> bool) (lines new : list jsstring) (cur : jsstring) :
  lines = filter (fun l => negb (f l)) (split cur 10) ++ new ->
  lines = filter (fun l => negb (f l)) (split cur 10) ++ new /\
  forall pre p post,
    split cur 10 = pre ++ p :: post ->
    f p = true ->
    forallb (fun l => negb (f l)) (pre ++ post) = true ->
    lines = pre ++ post ++ new.
Proof.
  intro H. split; [exact H|]. intros pre p post Hs Hp Hall.
  rewrite H, Hs, filter_app. cbn [filter]. rewrite Hp. cbn [negb].
  rewrite <- filter_app, filter_all by exact Hall. now rewrite <- app_assoc.
Qed.

Lemma unlines_app (a b : list jsstring) : unlines (a ++ b) = unlines a ++ unlines b.
Proof. unfold unlines. now rewrite map_app, concat_app. Qed.

Lemma unlines_single (l : jsstring) : unlines [l] = l ++ NL.
Proof. unfold unlines. cbn. apply app_nil_r. Qed.

Lemma split_unlines (K : list jsstring) :
  Forall (fun l => ~ In 10 l) K -> split (unlines K) 10 = K ++ [[]].
Proof.
  induction 1 as [|l K Hl _ IH]; [reflexivity|].
  unfold unlines in *. cbn [map concat]. unfold NL at 1.
  rewrite <- app_assoc. cbn [List.app].
  rewrite split_app_sep, split_no_sep by exact Hl. now rewrite IH.
Qed.

Lemma join_unlines (K : list jsstring) : K <> [] -> join K NL ++ NL = unlines K.
Proof.
  induction K as [|l K IH]; [congruence|]. intros _.
  destruct K as [|l' K]; [unfold unlines; cbn; now rewrite app_nil_r|].
  rewrite join_cons2. rewrite <- !app_assoc. rewrite IH by discriminate.
  unfold unlines. cbn [map concat]. rewrite <- !app_assoc. reflexivity.
Qed.

Lemma filter_comm {A : Type} (f g : A -> bool) (l : list A) :
  filter f (filter g l) = filter g (filter f l).
Proof.
  induction l as [|x l IH]; [reflexivity|]. cbn [filter].
  destruct (g x) eqn:G, (f x) eqn:Fx; cbn [filter]; rewrite ?G, ?Fx, IH; reflexivity.
Qed.

Lemma nonempty_lines_unlines (K : list jsstring) (z : jsstring) :
  Forall (fun l => ~ In 10 l) K ->
  nonempty_lines (unlines K ++ z) =
  filter (fun l => negb (is_empty l)) K ++ nonempty_lines z.
Proof.
  induction 1 as [|l K Hl _ IH]; [reflexivity|].
  unfold nonempty_lines, unlines in *. cbn [map concat]. unfold NL at 1.
  rewrite <- !app_assoc. cbn [List.app].
  rewrite split_app_sep, split_no_sep by exact Hl.
  rewrite filter_app, IH. cbn [filter]. now destruct (negb (is_empty l)).
Qed.

Lemma nonempty_lines_NL (z : jsstring) : nonempty_lines (z ++ NL) = nonempty_lines z.
Proof.
  unfold nonempty_lines. rewrite split_app_NL, filter_app. cbn. apply app_nil_r.
Qed.

Lemma filter_single (f : jsstring -> bool) (pre post : list jsstring) (p : jsstring) :
  f p = true -> forallb (fun x => negb (f x)) (pre ++ post) = true ->
  filter (fun x => negb (f x)) (pre ++ p :: post) = pre ++ post.
Proof.
  intros Hp Hall. rewrite filter_app. cbn [filter]. rewrite Hp. cbn [negb].
  rewrite <- filter_app. now apply filter_all.
Qed.

Lemma p2_chunk_lines (msg : jsstring) (m : Message) :
  includes (or_empty (answer m)) Part002.PROGRESS_MARKER = true ->
  exists text,
    Part002.on_status (JObj [(js "status", JStr (js "chunk")); (js "message", JStr msg)]) msg m
      = banner m text /\
    nonempty_lines text =
      filter (fun l => negb (includes l Part002.PROGRESS_MARKER))
             (nonempty_lines (or_empty (answer m)))
      ++ nonempty_lines (js "📝 " ++ msg).
Proof.
  intro Hyes. rewrite p2_on_status_chunk, Hyes. eexists. split; [reflexivity|].
  rewrite join_unlines by (destruct (filter _ _); discriminate).
  rewrite unlines_app, unlines_single.
  rewrite nonempty_lines_unlines by apply filter_no_sep.
  rewrite nonempty_lines_NL. unfold nonempty_lines at 3. now rewrite filter_comm.
Qed.

(** C8, as stated, fails for the [chunk] phase: the progress line is not
    replaced where it stands, the new one is put last, below a banner that
    came after the old one; and a progress line whose message does not
    hold the text of the marker is not recognised, so that a second one is
    appended below the first. *)
Lemma C8_counterexample :
  Part002.sendMessage app0
    (Response true
       [line "data: {'status':'chunking','message':'A'}";
        line "data: {'status':'chunk','message':'Summarizing chunk 1 of 2'}";
        line "data: {'status':'combining','message':'B'}";
        line "data: {'status':'chunk','message':'Summarizing chunk 2 of 2'}"] Closed) =
  Some (mkApp [user_message (js "q");
               banner Part002.placeholder
                 (unlines [js "📄 A"; js "🔗 B"; []; js "📝 Summarizing chunk 2 of 2"])]
              [] false)
  /\
  Part002.sendMessage app0
    (Response true
       [line "data: {'status':'chunk','message':'Processing chunk 1 of 2'}";
        line "data: {'status':'chunk','message':'Processing chunk 2 of 2'}"] Closed) =
  Some (mkApp [user_message (js "q");
               banner Part002.placeholder
                 (unlines [js "📝 Processing chunk 1 of 2"; js "📝 Processing chunk 2 of 2"])]
              [] false).
Proof. split; vm_compute; reflexivity. Qed.

(** C8, amended.  A status event on the in-progress entry, in part_002:
    [chunking] and [processing] replace the text with a fresh banner;
    [chunk] appends the progress line when the text does not hold the
    progress marker, and otherwise drops every line that holds the marker,
    keeps the other lines in their order and puts the new progress line
    after them, so that a text with one progress line has that line taken
    out and the new one put last; [combining], [finalizing] and [error]
    append a banner line; in every case the entry is left with streaming
    true and the loop goes on.  (For [chunk] the statement is about the
    lines that are not empty.) *)
Theorem C8_status_banners
    (ms : list Message) (m : Message) (inp : jsstring) (ld he : bool) (msg : jsstring) :
  Events002.on_event (Status (js "chunking") msg) (tail_state ms m inp ld he) =
    Next (tail_state ms (banner m (js "📄 " ++ msg ++ NL)) inp ld he)
  /\
  Events002.on_event (Status (js "processing") msg) (tail_state ms m inp ld he) =
    Next (tail_state ms
            (banner m (js "📄 Document is large. Processing in chunks..." ++ NL
                       ++ js "🔄 " ++ msg ++ NL)) inp ld he)
  /\
  (includes (or_empty (answer m)) Part002.PROGRESS_MARKER = false ->
   Events002.on_event (Status (js "chunk") msg) (tail_state ms m inp ld he) =
     Next (tail_state ms (banner m (or_empty (answer m) ++ js "📝 " ++ msg ++ NL)) inp ld he))
  /\
  (includes (or_empty (answer m)) Part002.PROGRESS_MARKER = true ->
   exists text,
     Events002.on_event (Status (js "chunk") msg) (tail_state ms m inp ld he) =
       Next (tail_state ms (banner m text) inp ld he) /\
     nonempty_lines text =
       filter (fun l => negb (includes l Part002.PROGRESS_MARKER))
              (nonempty_lines (or_empty (answer m)))
       ++ nonempty_lines (js "📝 " ++ msg) /\
     forall pre p post,
       nonempty_lines (or_empty (answer m)) = pre ++ p :: post ->
       includes p Part002.PROGRESS_MARKER = true ->
       forallb (fun l => negb (includes l Part002.PROGRESS_MARKER)) (pre ++ post) = true ->
       nonempty_lines text = pre ++ post ++ nonempty_lines (js "📝 " ++ msg))
  /\
  Events002.on_event (Status (js "combining") msg) (tail_state ms m inp ld he) =
    Next (tail_state ms (banner m (or_empty (answer m) ++ js "🔗 " ++ msg ++ NL)) inp ld he)
  /\
  Events002.on_event (Status (js "finalizing") msg) (tail_state ms m inp ld he) =
    Next (tail_state ms (banner m (or_empty (answer m) ++ js "✨ " ++ msg ++ NL)) inp ld he)
  /\
  Events002.on_event (Status (js "error") msg) (tail_state ms m inp ld he) =
    Next (tail_state ms (banner m (or_empty (answer m) ++ js "⚠️ " ++ msg ++ NL)) inp ld he).
Proof.
  repeat split; try (rewrite p2_status_shows by reflexivity; reflexivity).
  - intro Hno. rewrite p2_status_shows by reflexivity.
    now rewrite p2_on_status_chunk, Hno.
  - intros Hyes. destruct (p2_chunk_lines msg m Hyes) as (text & Ht & Hl).
    exists text. split; [|split].
    + rewrite p2_status_shows by reflexivity. now rewrite Ht.
    + exact Hl.
    + intros pre p post Hs Hp Hall. rewrite Hl, Hs.
      rewrite (filter_single _ pre post p Hp Hall). now rewrite <- app_assoc.
Qed.

(** Witness of [C8_status_banners]: a first progress line on the
    placeholder, and a second one replacing the first below a banner. *)
Lemma C8_witness :
  Events002.on_event (Status (js "chunk") (js "Summarizing chunk 1 of 3"))
    (tail_state [] Part002.placeholder [] true false) =
  Next (tail_state []
          (banner Part002.placeholder (js "📝 Summarizing chunk 1 of 3" ++ NL)) [] true false)
  /\
  exists text,
    Events002.on_event (Status (js "chunk") (js "Summarizing chunk 2 of 3"))
      (tail_state []
         (banner Part002.placeholder
            (js "📄 A" ++ NL ++ js "📝 Summarizing chunk 1 of 3" ++ NL)) [] true false) =
    Next (tail_state [] (banner Part002.placeholder text) [] true false) /\
    nonempty_lines text = [js "📄 A"; js "📝 Summarizing chunk 2 of 3"].
Proof.
  split.
  - destruct (C8_status_banners [] Part002.placeholder [] true false
                (js "Summarizing chunk 1 of 3")) as (_ & _ & H & _).
    apply H. vm_compute. reflexivity.
  - destruct (C8_status_banners []
                (banner Part002.placeholder
                   (js "📄 A" ++ NL ++ js "📝 Summarizing chunk 1 of 3" ++ NL))
                [] true false (js "Summarizing chunk 2 of 3")) as (_ & _ & _ & H & _).
    destruct H as [text [Hrun [Hlines _]]]; [vm_compute; reflexivity|].
    exists text. split; [exact Hrun|]. rewrite Hlines. vm_compute. reflexivity.
Defined.

(** *** Events after a final or an error payload *)

(** C2, as stated, fails: in part_002 a token read after the final payload
    is appended to the final text and sets streaming back to true; in
    part_000 it is appended to the final text. *)
Lemma C2_counterexample :
  Part002.sendMessage app0
    (Response true [line "data: {'final':{'answer':'X'}}"] Closed) =
  Some (mkApp [user_message (js "q");
               mkMessage assistant None (Some (js "X")) None None (Some false)
                         (Some (JArr [])) (Some (JNum 0 0))]
              [] false)
  /\
  Part002.sendMessage app0
    (Response true [line "data: {'final':{'answer':'X'}}"; line "data: {'token':' more'}"]
       Closed) =
  Some (mkApp [user_message (js "q");
               mkMessage assistant None (Some (js "X more")) None None (Some true)
                         (Some (JArr [])) (Some (JNum 0 0))]
              [] false)
  /\
  Part000.sendMessage app0
    (Response true [line "data: {'final':{'answer':'X'}}"; line "data: {'token':' more'}"]
       Closed) =
  Some (mkApp [user_message (js "q");
               mkMessage assistant None (Some (js "X more")) None None (Some false)
                         (Some (JArr [])) (Some (JNum 0 0))]
              [] true).
Proof. repeat split; vm_compute; reflexivity. Qed.

Lemma final_message_idem (m : Message) (X : jsstring) (F : list jsstring) (N : Z) :
  final_message (final_message m X F N) X F N = final_message m X F N.
Proof. reflexivity. Qed.

(** C2, amended.  A final payload leaves the entry with its answer, files
    and count and streaming false; part_002 clears the loading flag with
    it, part_000 leaves the flag as it was.  After that, a Done event, a
    line that fails to parse, a payload without a truthy recognised field,
    and the same final payload again all leave the entry unchanged (a Done
    event clears the loading flag of part_000, nothing else changes);
    there is no guard on later events, so a later non-empty token is still
    applied: part_002 then shows streaming true again, part_000 appends
    the token to the final text.  After an error payload, part_002 skips
    the remaining lines of the same read. *)
Theorem C2_after_terminal_event
    (ms : list Message) (m : Message) (inp : jsstring) (ld he : bool)
    (X : jsstring) (F : list jsstring) (N : Z) :
  Events002.on_event (Final X F N) (tail_state ms m inp ld he) =
    Next (tail_state ms (final_message m X F N) inp false he)
  /\
  Events000.on_event (Final X F N) (mkApp (ms ++ [m]) inp ld) =
    Next (mkApp (ms ++ [final_message m X F N]) inp ld)
  /\
  (forall e,
     e = EvDone \/ e = EvMalformed \/ e = Final X F N \/
     (exists parsed, e = EvPayload parsed /\
        forall k, In k recognised -> truthy_opt (prop parsed k) = false) ->
     Events002.on_event e (tail_state ms (final_message m X F N) inp false he) =
       Next (tail_state ms (final_message m X F N) inp false he) /\
     Events000.on_event e (mkApp (ms ++ [final_message m X F N]) inp ld) =
       Next (mkApp (ms ++ [final_message m X F N]) inp (if is_Done e then false else ld)))
  /\
  (forall t, is_empty t = false ->
     (exists text,
        Events002.on_event (Token t) (tail_state ms (final_message m X F N) inp false he) =
        Next (tail_state ms (banner (final_message m X F N) text) inp false he)) /\
     Events000.on_event (Token t) (mkApp (ms ++ [final_message m X F N]) inp ld) =
       Next (mkApp (ms ++ [set_answer (X ++ t) (final_message m X F N)]) inp ld))
  /\
  (forall e rest st, is_empty e = false ->
     Events002.run_events (Error e :: rest) st =
     Break (Part002.mkLocals
              (setLoading false
                 (setMessages
                    (update_last (fun _ => Part002.error_message (Part002.errorMessage e)))
                    (Part002.state st)))
              true)).
Proof.
  split; [apply p2_final_on_tail|].
  split; [apply p0_final_on_tail|].
  split; [|split].
  - intros e [->|[->|[->|(parsed & -> & Hfalsy)]]].
    + destruct he; split; reflexivity.
    + split; reflexivity.
    + split.
      * now rewrite p2_final_on_tail.
      * rewrite p0_on_Final. unfold setMessages. cbn [messages input loading].
        now rewrite update_last_snoc, p0_on_final_object.
    + split.
      * apply p2_all_falsy; apply Hfalsy; cbn; auto.
      * apply p0_all_falsy; apply Hfalsy; cbn; auto.
  - intros t Ht. split.
    + exists (if replaces_banner X t then t else X ++ t).
      rewrite p2_token_on_tail by exact Ht.
      rewrite p2_on_token_replaces. cbn [final_message answer or_empty].
      destruct (replaces_banner X t); reflexivity.
    + rewrite p0_on_Token, Ht. unfold setMessages. cbn [messages input loading].
      now rewrite update_last_snoc.
  - intros e rest st He. cbn [Events002.run_events]. now rewrite p2_on_Error, He.
Qed.

(** Witness of [C2_after_terminal_event]: after the final payload of the
    counterexample, a Done event changes nothing but the loading flag of
    part_000, and a token is applied; an error first in a read hides the
    token after it. *)
Lemma C2_witness :
  (Events002.on_event EvDone
     (tail_state [user_message (js "q")]
        (final_message Part002.placeholder (js "X") [] 0) [] false false) =
   Next (tail_state [user_message (js "q")]
           (final_message Part002.placeholder (js "X") [] 0) [] false false))
  /\
  (Events000.on_event EvDone
     (mkApp ([user_message (js "q")] ++ [final_message Part002.placeholder (js "X") [] 0])
            [] true) =
   Next (mkApp ([user_message (js "q")] ++ [final_message Part002.placeholder (js "X") [] 0])
               [] false))
  /\
  (exists text,
     Events002.on_event (Token (js " more"))
       (tail_state [user_message (js "q")]
          (final_message Part002.placeholder (js "X") [] 0) [] false false) =
     Next (tail_state [user_message (js "q")]
             (banner (final_message Part002.placeholder (js "X") [] 0) text) [] false false))
  /\
  Events002.run_events [Error (js "boom"); Token (js "hi")]
    (Part002.mkLocals (Part002.submitted app0) false) =
  Break (Part002.mkLocals
           (mkApp [user_message (js "q"); Part002.error_message (js "boom")] [] false) true).
Proof.
  destruct (C2_after_terminal_event [user_message (js "q")] Part002.placeholder [] true false
              (js "X") [] 0) as (_ & _ & H1 & H2 & H3).
  split; [|split; [|split]].
  - apply (H1 EvDone). now left.
  - apply (H1 EvDone). now left.
  - apply (H2 (js " more")). reflexivity.
  - rewrite H3 by reflexivity. vm_compute. reflexivity.
Defined.

(** *** Done events and the end of the stream *)

(** C5, as stated, fails: after a stream of zero bytes, and after a token
    followed by the end sentinel, the in-progress entry still has streaming
    true; only the loading flag is cleared (in part_000 not even that when
    the stream just closes). *)
Lemma C5_counterexample :
  Part002.sendMessage app0 (Response true [] Closed) =
  Some (mkApp [user_message (js "q");
               mkMessage assistant None (Some []) None None (Some true) None None]
              [] false)
  /\
  Part002.sendMessage app0
    (Response true [line "data: {'token':'hi'}"; line "data: [DONE]"] Closed) =
  Some (mkApp [user_message (js "q");
               mkMessage assistant None (Some (js "hi")) None None (Some true) None None]
              [] false)
  /\
  Part000.sendMessage app0 (Response true [] Closed) =
  Some (mkApp [user_message (js "q");
               mkMessage assistant None (Some []) None None (Some true) None None]
              [] true).
Proof. repeat split; vm_compute; reflexivity. Qed.

(** C5, amended.  While no error payload has been applied, a Done event
    (an empty payload or the end sentinel) and the end of the stream leave
    the in-progress entry as it is, text and streaming included, and set
    the loading flag to false; in part_000 the end of the stream changes
    nothing at all.  A stream that closes after zero bytes leaves the
    placeholder with the empty text and streaming true. *)
Theorem C5_done_leaves_entry
    (ms : list Message) (m : Message) (inp : jsstring) (ld : bool) :
  (forall l, line_event l = Some EvDone ->
     Part002.process_line l (tail_state ms m inp ld false) =
       Next (tail_state ms m inp false false) /\
     Part000.process_line l (mkApp (ms ++ [m]) inp ld) =
       Next (mkApp (ms ++ [m]) inp false))
  /\
  (forall d,
     Part002.read_loop d [] Closed (tail_state ms m inp ld false) =
       Next (tail_state ms m inp false false) /\
     Part000.read_loop [] Closed (mkApp (ms ++ [m]) inp ld) =
       Next (mkApp (ms ++ [m]) inp ld))
  /\
  (forall app ok,
     is_empty (trim (input app)) || loading app = false ->
     Part002.sendMessage app (Response true [] Closed) =
       Some (mkApp (messages app ++
                    [user_message (input app);
                     mkMessage assistant None (Some []) None None (Some true) None None])
                   [] false) /\
     Part000.sendMessage app (Response ok [] Closed) =
       Some (mkApp (messages app ++
                    [user_message (input app);
                     mkMessage assistant None (Some []) None None (Some true) None None])
                   [] true)).
Proof.
  split; [|split].
  - intros l Hl. rewrite p2_process_line_event, p0_process_line_event, Hl.
    split; reflexivity.
  - intro d. split; reflexivity.
  - intros app ok Hin. unfold Part002.sendMessage, Part000.sendMessage.
    rewrite Hin. split; reflexivity.
Qed.

(** Witness of [C5_done_leaves_entry]: the end sentinel on the placeholder,
    and the stream of zero bytes. *)
Lemma C5_witness :
  (Part002.process_line (js "data: [DONE]")
     (tail_state [user_message (js "q")] Part002.placeholder [] true false) =
     Next (tail_state [user_message (js "q")] Part002.placeholder [] false false) /\
   Part000.process_line (js "data: [DONE]")
     (mkApp ([user_message (js "q")] ++ [Part002.placeholder]) [] true) =
     Next (mkApp ([user_message (js "q")] ++ [Part002.placeholder]) [] false))
  /\
  (Part002.sendMessage app0 (Response true [] Closed) =
     Some (mkApp (messages app0 ++
                  [user_message (input app0);
                   mkMessage assistant None (Some []) None None (Some true) None None])
                 [] false) /\
   Part000.sendMessage app0 (Response true [] Closed) =
     Some (mkApp (messages app0 ++
                  [user_message (input app0);
                   mkMessage assistant None (Some []) None None (Some true) None None])
                 [] true)).
Proof.
  destruct (C5_done_leaves_entry [user_message (js "q")] Part002.placeholder [] true)
    as (H1 & _ & H3).
  split.
  - apply H1. vm_compute. reflexivity.
  - apply H3. vm_compute. reflexivity.
Defined.

(** *** Error payloads *)

Lemma p2_error_on_tail (e : jsstring) (ms : list Message) (m : Message)
    (inp : jsstring) (ld he : bool) :
  is_empty e = false ->
  Events002.on_event (Error e) (tail_state ms m inp ld he) =
  Break (tail_state ms (Part002.error_message (Part002.errorMessage e)) inp false true).
Proof.
  intro He. rewrite p2_on_Error, He. now on_last_entry.
Qed.

Lemma startsWith_includes (s p : jsstring) : startsWith s p = true -> includes s p = true.
Proof. intro H. destruct s; cbn [includes]; now rewrite H. Qed.

Lemma includes_tail (c : Z) (s p : jsstring) : includes s p = true -> includes (c :: s) p = true.
Proof. intro H. cbn [includes]. rewrite H. apply orb_true_r. Qed.

Lemma startsWith_suffix (a b s : jsstring) :
  startsWith s (a ++ b) = true -> includes s b = true.
Proof.
  revert s. induction a as [|c a IH]; intros s H.
  - now apply startsWith_includes.
  - destruct s as [|d s]; [discriminate|]. cbn in H.
    apply andb_true_iff in H. destruct H as [_ H].
    apply includes_tail. now apply IH.
Qed.

Lemma includes_suffix (a b s : jsstring) :
  includes s (a ++ b) = true -> includes s b = true.
Proof.
  induction s as [|c s IH]; intro H.
  - cbn in H. rewrite orb_false_r in H. now apply (startsWith_suffix a).
  - cbn [includes] in H. apply orb_true_iff in H. destruct H as [H|H].
    + now apply (startsWith_suffix a).
    + apply includes_tail. now apply IH.
Qed.

(** The text shown for an error: the rate-limit notice when the message
    holds one of the indicators, the message itself otherwise. *)
Lemma p2_errorMessage_cases (e : jsstring) :
  (includes e (js "429") = false -> includes e (js "Rate limit") = false ->
   includes e (js "rate limit") = false -> Part002.errorMessage e = e) /\
  (includes e (js "429") = true \/ includes e (js "Rate limit") = true \/
   includes e (js "rate limit") = true ->
   Part002.errorMessage e = Part002.RATE_LIMIT_TOKENS).
Proof.
  unfold Part002.errorMessage. split.
  - intros H1 H2 H3. rewrite H1, H2, H3. cbn [orb].
    destruct (includes e (js "Error code: 429")) eqn:E; [|reflexivity].
    change (js "Error code: 429") with (js "Error code: " ++ js "429") in E.
    apply includes_suffix in E. congruence.
  - intros [H|[H|H]]; rewrite H; rewrite ?orb_true_r; reflexivity.
Qed.

(** C6.  The code does not ignore the events that follow an error payload:
    [break] leaves the [for] loop of the current read only, so a token that
    arrives in the next read is appended to the error text and sets
    streaming back to true (part_002); part_000 has no [break], and applies
    even a token of the same read. *)
Lemma C6_events_after_error_are_applied :
  Part002.sendMessage app0
    (Response true [line "data: {'error':'boom'}"; line "data: {'token':'hi'}"] Closed) =
  Some (mkApp [user_message (js "q");
               mkMessage assistant None (Some (js "boomhi")) None None (Some true) None None]
              [] false)
  /\
  Part000.sendMessage app0
    (Response true [line "data: {'error':'boom'}" ++ line "data: {'token':'hi'}"] Closed) =
  Some (mkApp [user_message (js "q");
               mkMessage assistant None (Some (js "Error: boomhi")) None None (Some false)
                         None None]
              [] false).
Proof. split; vm_compute; reflexivity. Qed.

(** The part of C6 that holds in part_002: an error payload replaces the
    in-progress entry by an assistant entry with the error text, streaming
    false and no file metadata, clears the loading flag, and ends the
    [for] loop of the read. *)
Lemma p2_error_replaces_entry (e : jsstring) (rest : list event)
    (ms : list Message) (m : Message) (inp : jsstring) (ld he : bool) :
  is_empty e = false ->
  Events002.run_events (Error e :: rest) (tail_state ms m inp ld he) =
  Break (tail_state ms
           (mkMessage assistant None (Some (Part002.errorMessage e)) None None
                      (Some false) None None)
           inp false true).
Proof. intro He. cbn [Events002.run_events]. now rewrite p2_error_on_tail. Qed.

(** The defect in general: after an error payload in one read, a non-empty
    token of the next read is applied to the error entry, which shows
    streaming true again. *)
Lemma p2_token_after_error (e t : jsstring)
    (ms : list Message) (m : Message) (inp : jsstring) (ld he : bool) :
  is_empty e = false -> is_empty t = false ->
  Events002.run_reads [[Error e]; [Token t]] Closed (tail_state ms m inp ld he) =
  Next (tail_state ms
          (Part002.on_token t (Part002.error_message (Part002.errorMessage e)))
          inp false true)
  /\ streaming (Part002.on_token t (Part002.error_message (Part002.errorMessage e)))
     = Some true.
Proof.
  intros He Ht. split.
  - cbn [Events002.run_reads]. rewrite p2_error_replaces_entry by exact He.
    cbn [Events002.run_events]. rewrite p2_token_on_tail by exact Ht. reflexivity.
  - rewrite p2_on_token_replaces. reflexivity.
Qed.

(** *** Lines that fail to parse *)

(** C4.  App.original.jsx (and part_001) call [JSON.parse] outside any
    [try] block of the loop: a line that fails to parse throws to the outer
    [catch], which overwrites (part_001: follows) the in-progress entry
    with the connection error and ends the reading; the token of the next
    line is never shown. *)
Lemma C4_unguarded_parse_aborts :
  AppOriginal.sendMessage app0
    (Response true [line "data: not-json" ++ line "data: {'token':'hi'}"] Closed) =
  Some (mkApp [user_message (js "q");
               mkMessage assistant None (Some (js "Error connecting to backend."))
                         (Some (JStr [])) (Some (JStr [])) (Some false) None None]
              [] false)
  /\
  Part001.sendMessage (js "q") (mkApp [] [] false)
    (Response true [line "data: not-json" ++ line "data: {'token':'hi'}"] Closed) =
  Some (mkApp [user_message (js "q");
               mkMessage assistant (Some []) None None None (Some true) None None;
               mkMessage assistant (Some (js "Error connecting to backend.")) None None None
                         (Some false) None None]
              [] false).
Proof. split; vm_compute; reflexivity. Qed.

(** The defect in general: in App.original.jsx and part_001 a line whose
    payload fails to parse ends the [for] loop with an exception, whatever
    lines follow. *)
Lemma orig_p1_malformed_line_throws (l : jsstring) (rest : list jsstring) (app : AppState) :
  line_event l = Some EvMalformed ->
  AppOriginal.for_lines (l :: rest) app = Throw app /\
  Part001.for_lines (l :: rest) app = Throw app.
Proof.
  unfold line_event. intro H.
  cbn [AppOriginal.for_lines Part001.for_lines].
  unfold AppOriginal.process_line, Part001.process_line.
  destruct (negb (startsWith l (js "data:"))); [discriminate|].
  destruct (is_empty _ || str_eqb _ _); [discriminate|].
  destruct (JSON_parse _); [discriminate|]. split; reflexivity.
Qed.

(** C4 holds in part_002 and part_000, where the inner [catch] skips the
    line: the state is unchanged and the rest of the lines is processed. *)
Lemma p2_p0_malformed_line_discarded (l : jsstring) (rest : list jsstring)
    (st : Part002.Locals) (app : AppState) :
  line_event l = Some EvMalformed ->
  Part002.for_lines (l :: rest) st = Part002.for_lines rest st /\
  Part000.for_lines (l :: rest) app = Part000.for_lines rest app.
Proof.
  intro H. cbn [Part002.for_lines Part000.for_lines].
  now rewrite p2_process_line_event, p0_process_line_event, H.
Qed.

Lemma p2_p0_scenario_D :
  Part002.sendMessage app0
    (Response true [line "data: not-json" ++ line "data: {'token':'hi'}"] Closed) =
  Some (mkApp [user_message (js "q");
               mkMessage assistant None (Some (js "hi")) None None (Some true) None None]
              [] false)
  /\
  Part000.sendMessage app0
    (Response true [line "data: not-json" ++ line "data: {'token':'hi'}"] Closed) =
  Some (mkApp [user_message (js "q");
               mkMessage assistant None (Some (js "hi")) None None (Some true) None None]
              [] true).
Proof. split; vm_compute; reflexivity. Qed.

(** *** Transport failures *)

(** C9.  The outer [catch] of part_001 appends the connection error as a
    new entry: the placeholder stays in the conversation with streaming
    true, and the conversation grows by one more entry. *)
Lemma C9_part001_appends_error :
  Part001.sendMessage (js "q") (mkApp [] [] false) FetchRejected =
  Some (mkApp [user_message (js "q");
               mkMessage assistant (Some []) None None None (Some true) None None;
               mkMessage assistant (Some (js "Error connecting to backend.")) None None None
                         (Some false) None None]
              [] false)
  /\
  Part001.sendMessage (js "q") (mkApp [] [] false)
    (Response true [line "data: {'token':'par'}"] Aborted) =
  Some (mkApp [user_message (js "q");
               mkMessage assistant (Some (js "par")) None None None (Some true) None None;
               mkMessage assistant (Some (js "Error connecting to backend.")) None None None
                         (Some false) None None]
              [] false).
Proof. split; vm_compute; reflexivity. Qed.

(** The defect in general: when [fetch] rejects, part_001 leaves the
    placeholder in the conversation and appends the error after it. *)
Lemma p1_fetch_rejected_appends (questionText : jsstring) (app : AppState) :
  loading app = false ->
  Part001.sendMessage questionText app FetchRejected =
  Some (mkApp (messages (Part001.submitted questionText app)
               ++ [Part001.assistant_message Part001.CONNECT_ERROR])
              (input app) false)
  /\ exists ms, messages (Part001.submitted questionText app) = ms ++ [Part001.placeholder].
Proof.
  intro H. unfold Part001.sendMessage. rewrite H. split; [reflexivity|].
  unfold Part001.submitted. cbn [messages]. eauto.
Qed.

(** Every step of part_002's loop rewrites the last entry only. *)
Lemma p2_set_last_tail (f : Message -> Message) (ms : list Message) (inp : jsstring)
    (st : Part002.Locals) :
  tail_of ms inp st ->
  tail_of ms inp (Part002.on_state (setMessages (update_last f)) st).
Proof.
  intros (m & ld & he & ->). exists (f m), ld, he.
  now on_last_entry.
Qed.

Lemma p2_status_branch_tail (parsed : JSON) (ms : list Message) (inp : jsstring)
    (st : Part002.Locals) :
  tail_of ms inp st -> keeps_tail ms inp (Part002.status_branch parsed st).
Proof.
  intro H. unfold Part002.status_branch.
  destruct (truthy_opt _); [|exact H].
  destruct (prop parsed (js "message")) as [[| | | | |]|];
    try (destruct (truthy _); [exact I|]); now apply p2_set_last_tail.
Qed.

Lemma p2_token_branch_tail (parsed : JSON) (ms : list Message) (inp : jsstring)
    (st : Part002.Locals) :
  tail_of ms inp st -> keeps_tail ms inp (Part002.token_branch parsed st).
Proof.
  intro H. unfold Part002.token_branch.
  destruct (truthy_opt _); [|exact H].
  destruct (prop parsed (js "token")) as [[| | | | |]|]; try exact I.
  now apply p2_set_last_tail.
Qed.

Lemma p2_final_branch_tail (parsed : JSON) (ms : list Message) (inp : jsstring)
    (st : Part002.Locals) :
  tail_of ms inp st -> keeps_tail ms inp (Part002.final_branch parsed st).
Proof.
  intro H. unfold Part002.final_branch.
  destruct (truthy_opt _); [|exact H].
  destruct (prop parsed (js "final")) as [[| | | | |fs]|]; try exact I.
  destruct (prop (JObj fs) (js "answer")) as [[| | | | |]|]; try exact I.
  destruct H as (m & ld & he & ->). eexists _, false, he.
  now on_last_entry.
Qed.

Lemma p2_then_tail (o : outcome Part002.Locals) (k : Part002.Locals -> outcome Part002.Locals)
    (ms : list Message) (inp : jsstring) :
  keeps_tail ms inp o ->
  (forall st, tail_of ms inp st -> keeps_tail ms inp (k st)) ->
  keeps_tail ms inp (Part002.then_ o k).
Proof. intros Ho Hk. destruct o; cbn; auto. Qed.

Lemma p2_try_body_tail (parsed : JSON) (ms : list Message) (inp : jsstring)
    (st : Part002.Locals) :
  tail_of ms inp st -> keeps_tail ms inp (Part002.try_body parsed st).
Proof.
  intro H.
  assert (Hbody : keeps_tail ms inp
    (if truthy_opt (prop parsed (js "error")) then
       match prop parsed (js "error") with
       | Some (JStr error) =>
           Break (Part002.mkLocals
                    (setLoading false
                       (setMessages
                          (update_last
                             (fun _ => Part002.error_message (Part002.errorMessage error)))
                          (Part002.state st)))
                    true)
       | _ => OffContract
       end
     else
       Part002.then_ (Part002.status_branch parsed st) (fun st1 =>
       Part002.then_ (Part002.token_branch parsed st1) (fun st2 =>
       Part002.final_branch parsed st2)))).
  { destruct (truthy_opt _).
    - destruct (prop parsed (js "error")) as [[| | |e| |]|]; try exact I.
      destruct H as (m & ld & he & ->). eexists _, false, true.
      now on_last_entry.
    - apply p2_then_tail; [now apply p2_status_branch_tail|].
      intros st1 H1. apply p2_then_tail; [now apply p2_token_branch_tail|].
      intros st2 H2. now apply p2_final_branch_tail. }
  destruct parsed; exact Hbody.
Qed.

Lemma p2_on_event_tail (e : event) (ms : list Message) (inp : jsstring)
    (st : Part002.Locals) :
  tail_of ms inp st -> keeps_tail ms inp (Events002.on_event e st).
Proof.
  intro H. destruct e; cbn [Events002.on_event].
  - destruct H as (m & ld & he & ->). unfold Part002.done_loading.
    destruct he; cbn; [now exists m, ld, true | now exists m, false, false].
  - exact H.
  - now apply p2_try_body_tail.
Qed.

Lemma p2_run_events_tail (es : list event) (ms : list Message) (inp : jsstring)
    (st : Part002.Locals) :
  tail_of ms inp st -> keeps_tail ms inp (Events002.run_events es st).
Proof.
  revert st. induction es as [|e es IH]; intros st H; [exact H|].
  cbn [Events002.run_events].
  pose proof (p2_on_event_tail e ms inp st H) as He.
  destruct (Events002.on_event e st); try exact He. now apply IH.
Qed.

Lemma p2_run_reads_tail (reads : list (list event)) (last : ReadEnd)
    (ms : list Message) (inp : jsstring) (st : Part002.Locals) :
  tail_of ms inp st -> keeps_tail ms inp (Events002.run_reads reads last st).
Proof.
  revert st. induction reads as [|es reads IH]; intros st H.
  - destruct last; cbn; [|exact H].
    exact (p2_on_event_tail EvDone ms inp st H).
  - cbn [Events002.run_reads].
    pose proof (p2_run_events_tail es ms inp st H) as He.
    destruct (Events002.run_events es st); try exact He; now apply IH.
Qed.

Lemma p2_run_reads_aborted (reads : list (list event)) (st : Part002.Locals) :
  match Events002.run_reads reads Aborted st with
  | Next _ | Break _ => False
  | _ => True
  end.
Proof.
  revert st. induction reads as [|es reads IH]; intro st; [exact I|].
  cbn [Events002.run_reads]. destruct (Events002.run_events es st); try exact I; apply IH.
Qed.

(** C9 holds in part_002: when [fetch] rejects, the response is not ok, or
    a read rejects mid-stream, the outer [catch] puts the connection error
    in the place of the in-progress entry, with streaming false, and
    clears the loading flag; the conversation gains no further entry. *)
Lemma p2_transport_failure (app : AppState) (net : Network) (app' : AppState) :
  is_empty (trim (input app)) || loading app = false ->
  net = FetchRejected \/
  (exists chunks last, net = Response false chunks last) \/
  (exists chunks, net = Response true chunks Aborted) ->
  Part002.sendMessage app net = Some app' ->
  app' = mkApp (messages app ++
                [user_message (input app);
                 mkMessage assistant None
                   (Some (js "Error connecting to backend. Make sure the server is running."))
                   None None (Some false) None None])
               [] false.
Proof.
  intros Hin Hnet. unfold Part002.sendMessage. rewrite Hin.
  assert (Hcatch : Part002.on_catch (Part002.submitted app) =
            mkApp (messages app ++
                   [user_message (input app);
                    mkMessage assistant None
                      (Some (js "Error connecting to backend. Make sure the server is running."))
                      None None (Some false) None None])
                  [] false).
  { unfold Part002.on_catch, Part002.submitted, setLoading, setMessages.
    cbn [messages input loading]. rewrite snoc2, update_last_snoc.
    now rewrite <- app_assoc. }
  destruct Hnet as [->|[(chunks & last & ->)|(chunks & ->)]].
  - cbn. intro H. injection H as <-. exact Hcatch.
  - cbn. intro H. injection H as <-. exact Hcatch.
  - cbn [Part002.request negb]. rewrite p2_read_loop_events.
    pose proof (p2_run_reads_aborted (stream_events new_TextDecoder chunks)
                  (Part002.mkLocals (Part002.submitted app) false)) as Hab.
    pose proof (p2_run_reads_tail (stream_events new_TextDecoder chunks) Aborted
                  (messages app ++ [user_message (input app)]) []
                  (Part002.mkLocals (Part002.submitted app) false)) as Htail.
    destruct (Events002.run_reads _ Aborted _) as [st|st|st|]; try contradiction;
      [|discriminate].
    intro H. injection H as <-.
    destruct Htail as (m & ld & he & ->).
    { exists Part002.placeholder, true, false. unfold tail_state, Part002.submitted.
      now rewrite snoc2. }
    unfold Part002.on_catch, tail_state, setLoading, setMessages.
    cbn [Part002.state messages input loading].
    rewrite update_last_snoc. now rewrite <- app_assoc.
Qed.

(** *** The streaming decoder and the chunking of the body *)

Lemma utf8_run_app (d : Utf8Decoder) (a b : list byte) :
  utf8_run d (a ++ b) =
  let '(o1, d1) := utf8_run d a in
  let '(o2, d2) := utf8_run d1 b in
  (o1 ++ o2, d2).
Proof.
  revert d. induction a as [|x a IH]; intro d; cbn [List.app utf8_run].
  - destruct (utf8_run d b). reflexivity.
  - destruct (utf8_handler d (byte_val x)) as [o d1]. rewrite IH.
    destruct (utf8_run d1 a) as [o1 d2]. destruct (utf8_run d2 b) as [o2 d3].
    now rewrite app_assoc.
Qed.

Lemma serialize_app (seen : bool) (o1 o2 : list Z) :
  serialize seen (o1 ++ o2) =
  let '(t1, s1) := serialize seen o1 in
  let '(t2, s2) := serialize s1 o2 in
  (t1 ++ t2, s2).
Proof.
  unfold serialize. destruct seen.
  - now rewrite flat_map_app.
  - destruct o1 as [|cp r]; cbn [List.app].
    + destruct o2; reflexivity.
    + now rewrite flat_map_app, app_assoc.
Qed.

Lemma decode_stream_app (td : TextDecoder) (a b : list byte) :
  decode_stream td (a ++ b) =
  let '(t1, td1) := decode_stream td a in
  let '(t2, td2) := decode_stream td1 b in
  (t1 ++ t2, td2).
Proof.
  unfold decode_stream. rewrite utf8_run_app.
  destruct (utf8_run (utf8 td) a) as [o1 d1]. cbn [utf8 BOM_seen].
  destruct (serialize (BOM_seen td) o1) as [t1 s1] eqn:E1. cbn [utf8 BOM_seen].
  destruct (utf8_run d1 b) as [o2 d2].
  rewrite serialize_app, E1.
  destruct (serialize s1 o2) as [t2 s2]. reflexivity.
Qed.

Lemma decode_stream_nil (td : TextDecoder) : decode_stream td [] = ([], td).
Proof. destruct td as [d seen]. unfold decode_stream, serialize. destruct seen; reflexivity. Qed.

(** The decoded text does not depend on where the body is cut into reads:
    a character whose bytes straddle two reads is decoded once. *)
Lemma stream_text_concat (td : TextDecoder) (chunks : list (list byte)) :
  stream_text td chunks = fst (decode_stream td (concat chunks)).
Proof.
  revert td. induction chunks as [|value rest IH]; intro td; cbn [stream_text concat].
  - now rewrite decode_stream_nil.
  - rewrite decode_stream_app. destruct (decode_stream td value) as [t1 td1].
    rewrite IH. destruct (decode_stream td1 (concat rest)). reflexivity.
Qed.

Lemma utf8_lead_ok (b : Z) : pending_ok (snd (utf8_lead b)).
Proof.
  unfold utf8_lead, pending_ok.
  repeat match goal with |- context [if ?c then _ else _] => destruct c end;
    cbn; lia.
Qed.

Lemma utf8_handler_ok (d : Utf8Decoder) (b : Z) : pending_ok (snd (utf8_handler d b)).
Proof.
  unfold utf8_handler.
  destruct (bytes_needed d =? 0); [apply utf8_lead_ok|].
  destruct (_ && _).
  - destruct (_ =? _); cbn; unfold pending_ok; cbn; lia.
  - pose proof (utf8_lead_ok b). destruct (utf8_lead b). exact H.
Qed.

Lemma utf8_run_ok (d : Utf8Decoder) (bs : list byte) :
  pending_ok d -> pending_ok (snd (utf8_run d bs)).
Proof.
  revert d. induction bs as [|b bs IH]; intros d H; [exact H|].
  cbn [utf8_run]. pose proof (utf8_handler_ok d (byte_val b)) as H1.
  destruct (utf8_handler d (byte_val b)) as [o1 d1]. specialize (IH d1 H1).
  destruct (utf8_run d1 bs). exact IH.
Qed.

Lemma utf8_handler_LF (d : Utf8Decoder) :
  pending_ok d -> exists o, utf8_handler d 10 = (o ++ [10], utf8_init).
Proof.
  intro H. unfold utf8_handler, pending_ok in *.
  destruct (bytes_needed d =? 0); [now exists []|].
  destruct (Z.leb_spec (lower_boundary d) 10); [lia|].
  cbn. now exists [0xFFFD].
Qed.

Lemma serialize_LF (seen : bool) (o : list Z) :
  exists t, serialize seen (o ++ [10]) = (t ++ [10], true).
Proof.
  unfold serialize. destruct seen.
  - exists (flat_map utf16 o). now rewrite flat_map_app.
  - destruct o as [|cp r]; cbn [List.app].
    + now exists [].
    + exists ((if cp =? 65279 then [] else utf16 cp) ++ flat_map utf16 r).
      now rewrite flat_map_app, app_assoc.
Qed.

(** A read that ends with a line feed: its text ends with the line feed,
    and nothing stays pending in the decoder. *)
Lemma decode_stream_LF (td : TextDecoder) (value : list byte) :
  pending_ok (utf8 td) -> ends_with_LF value = true ->
  exists t, decode_stream td value = (t ++ [10], mkTextDecoder utf8_init true).
Proof.
  intros Hok Hlf.
  assert (Hv : exists v, value = v ++ [x0a]).
  { unfold ends_with_LF in Hlf. destruct (rev value) as [|b r] eqn:E; [discriminate|].
    exists (rev r). rewrite <- (rev_involutive value), E. cbn [rev].
    destruct b; try discriminate. reflexivity. }
  destruct Hv as [v ->]. unfold decode_stream. rewrite utf8_run_app.
  pose proof (utf8_run_ok (utf8 td) v Hok) as Hok1.
  destruct (utf8_run (utf8 td) v) as [o1 d1]. cbn [snd] in Hok1.
  cbn [utf8_run]. change (byte_val x0a) with 10.
  destruct (utf8_handler_LF d1 Hok1) as [o2 ->]. rewrite app_nil_r, app_assoc.
  destruct (serialize_LF (BOM_seen td) (o1 ++ o2)) as [t ->]. now exists t.
Qed.

Lemma lines_events_app (l1 l2 : list jsstring) :
  lines_events (l1 ++ l2) = lines_events l1 ++ lines_events l2.
Proof. unfold lines_events. apply flat_map_app. Qed.

Lemma startsWith_app_l (a c p : jsstring) :
  startsWith a p = true -> startsWith (a ++ c) p = true.
Proof.
  revert a. induction p as [|x p IH]; intros a H; [apply startsWith_nil|].
  destruct a as [|y a]; [discriminate|]. cbn in H |- *.
  apply andb_true_iff in H. destruct H as [H1 H2]. now rewrite H1, IH.
Qed.

Lemma split_pieces (a b : jsstring) (ia : list jsstring) (la fb : jsstring)
    (tb : list jsstring) :
  split a 10 = ia ++ [la] -> split b 10 = fb :: tb ->
  split (a ++ b) 10 = ia ++ (la ++ fb) :: tb.
Proof.
  revert ia la. induction a as [|c a IH]; intros ia la Ha Hb.
  - cbn in Ha. destruct ia as [|x ia].
    + injection Ha as <-. exact Hb.
    + destruct ia; discriminate.
  - cbn [List.app split] in Ha |- *. destruct (c =? 10).
    + destruct ia as [|x ia].
      * cbn in Ha. injection Ha as _ Ha. now apply split_nonempty in Ha.
      * cbn in Ha. injection Ha as <- Ha. cbn [List.app]. now rewrite (IH ia la Ha Hb).
    + destruct (split a 10) as [|l ls] eqn:E; [now apply split_nonempty in E|].
      destruct ia as [|x ia].
      * cbn in Ha. injection Ha as <- ->. rewrite (IH [] l eq_refl Hb). reflexivity.
      * cbn in Ha. injection Ha as <- ->. rewrite (IH (l :: ia) la eq_refl Hb). reflexivity.
Qed.

Lemma split_last (a : jsstring) : exists ia, split a 10 = ia ++ [last (split a 10) []].
Proof.
  pose proof (split_nonempty a 10) as H.
  exists (removelast (split a 10)). now apply app_removelast_last.
Qed.

Lemma split_first (b : jsstring) : exists tb, split b 10 = hd [] (split b 10) :: tb.
Proof.
  pose proof (split_nonempty b 10) as H. destruct (split b 10) as [|x tb]; [congruence|].
  now exists tb.
Qed.

(** White space after the text of a line *)

Lemma trimStart_ws_app (w z : jsstring) :
  forallb isWhiteSpace w = true -> trimStart (w ++ z) = trimStart z.
Proof.
  induction w as [|c w IH]; [reflexivity|]. cbn [forallb List.app trimStart].
  intro H. apply andb_true_iff in H. destruct H as [Hc Hw]. rewrite Hc. now apply IH.
Qed.

Lemma trimStart_app_ws (x w : jsstring) :
  forallb isWhiteSpace w = true ->
  trimStart (x ++ w) = match trimStart x with [] => [] | y => y ++ w end.
Proof.
  intro Hw. induction x as [|c x IH].
  - cbn. now apply trimStart_all.
  - cbn [List.app trimStart]. destruct (isWhiteSpace c); [exact IH|reflexivity].
Qed.

Lemma trim_app_ws (x w : jsstring) :
  forallb isWhiteSpace w = true -> trim (x ++ w) = trim x.
Proof.
  intro Hw. unfold trim, trimEnd. rewrite (trimStart_app_ws x w Hw).
  destruct (trimStart x) as [|c y]; [reflexivity|].
  rewrite rev_app_distr, trimStart_ws_app; [reflexivity|].
  now rewrite forallb_rev.
Qed.

Lemma startsWith_before_ws (la w p : jsstring) :
  forallb isWhiteSpace w = true ->
  forallb (fun c => negb (isWhiteSpace c)) p = true ->
  startsWith (la ++ w) p = startsWith la p.
Proof.
  intros Hw. revert la. induction p as [|c p IH]; intros la Hp.
  - now rewrite !startsWith_nil.
  - cbn [forallb] in Hp. apply andb_true_iff in Hp. destruct Hp as [Hc Hp].
    destruct la as [|d la].
    + cbn [List.app]. destruct w as [|e w]; [reflexivity|]. cbn [startsWith].
      cbn [forallb] in Hw. apply andb_true_iff in Hw. destruct Hw as [He _].
      destruct (Z.eqb_spec e c) as [->|_]; [|reflexivity].
      rewrite He in Hc. discriminate.
    + cbn [List.app startsWith]. now rewrite IH.
Qed.

Lemma skipn_app_long {A : Type} (n : nat) (a b : list A) :
  (n <= List.length a)%nat -> skipn n (a ++ b) = skipn n a ++ b.
Proof.
  revert a. induction n as [|n IH]; intros a H; [reflexivity|].
  destruct a as [|x a]; [cbn in H; lia|]. cbn. apply IH. cbn in H. lia.
Qed.

Lemma startsWith_length (s p : jsstring) :
  startsWith s p = true -> (List.length p <= List.length s)%nat.
Proof.
  revert s. induction p as [|c p IH]; intros s H; [cbn; lia|].
  destruct s as [|d s]; [discriminate|]. cbn in H |- *.
  apply andb_true_iff in H. destruct H as [_ H]. apply IH in H. lia.
Qed.

Lemma replace_prefix (s p : jsstring) :
  startsWith s p = true -> replace s p [] = skipn (List.length p) s.
Proof. intro H. destruct s; cbn [replace]; now rewrite H. Qed.

(** White space after a line does not change what the line is. *)
Lemma line_event_ws (la w : jsstring) :
  forallb isWhiteSpace w = true -> line_event (la ++ w) = line_event la.
Proof.
  intro Hw. unfold line_event.
  rewrite (startsWith_before_ws la w (js "data:") Hw) by reflexivity.
  destruct (startsWith la (js "data:")) eqn:E; [|reflexivity]. cbn [negb].
  rewrite (replace_prefix _ _ E), (replace_prefix _ _ (startsWith_app_l _ w _ E)).
  rewrite skipn_app_long by now apply startsWith_length.
  now rewrite trim_app_ws.
Qed.

Lemma line_event_of_ws (w : jsstring) :
  forallb isWhiteSpace w = true -> line_event w = None.
Proof.
  intro Hw. exact (line_event_ws [] w Hw).
Qed.

Lemma lines_events_cons (l : jsstring) (ls : list jsstring) :
  lines_events (l :: ls) =
  match line_event l with Some e => [e] | None => [] end ++ lines_events ls.
Proof. reflexivity. Qed.

(** A cut at a line terminator: the events of the two texts, put end to
    end, are the events of the whole. *)
Lemma lines_events_cut (a b : jsstring) :
  is_empty (last_piece a) || forallb isWhiteSpace (first_piece b) = true ->
  lines_events (split (a ++ b) 10) =
  lines_events (split a 10) ++ lines_events (split b 10).
Proof.
  intro H. unfold last_piece, first_piece in H.
  destruct (split_last a) as [ia Ha]. destruct (split_first b) as [tb Hb].
  remember (last (split a 10) []) as la eqn:Ela.
  remember (hd [] (split b 10)) as fb eqn:Efb. clear Ela Efb.
  rewrite (split_pieces a b ia la fb tb Ha Hb), Ha, Hb.
  rewrite !lines_events_app, !lines_events_cons. cbn [lines_events flat_map].
  rewrite app_nil_r, <- !app_assoc. f_equal. rewrite app_assoc. f_equal.
  apply orb_true_iff in H. destruct H as [H|H].
  - destruct la; [reflexivity|discriminate].
  - rewrite (line_event_ws _ _ H), (line_event_of_ws _ H). now rewrite app_nil_r.
Qed.

Lemma texts_events_cut (texts : list jsstring) :
  cuts_at_terminators texts = true ->
  concat (map (fun t => lines_events (split t 10)) texts) =
  lines_events (split (concat texts) 10).
Proof.
  induction texts as [|t rest IH]; [reflexivity|].
  cbn [cuts_at_terminators map concat]. intro H.
  apply andb_true_iff in H. destruct H as [Hc Hr].
  now rewrite (lines_events_cut _ _ Hc), IH.
Qed.

Lemma stream_events_texts (td : TextDecoder) (chunks : list (list byte)) :
  stream_events td chunks = map (fun t => lines_events (split t 10)) (read_texts td chunks).
Proof.
  revert td. induction chunks as [|v rest IH]; intro td; [reflexivity|].
  cbn [stream_events read_texts]. destruct (decode_stream td v) as [t td'].
  cbn [map]. now rewrite IH.
Qed.

Lemma stream_text_texts (td : TextDecoder) (chunks : list (list byte)) :
  stream_text td chunks = concat (read_texts td chunks).
Proof.
  revert td. induction chunks as [|v rest IH]; intro td; [reflexivity|].
  cbn [stream_text read_texts]. destruct (decode_stream td v) as [t td'].
  cbn [concat]. now rewrite IH.
Qed.

(** The events of reads cut at line terminators, put end to end, are the
    events of the body read at once. *)
Lemma stream_events_cut (td : TextDecoder) (chunks : list (list byte)) :
  cuts_at_terminators (read_texts td chunks) = true ->
  concat (stream_events td chunks) = concat (stream_events td [concat chunks]).
Proof.
  intro H. rewrite stream_events_texts, (texts_events_cut _ H).
  rewrite <- stream_text_texts, stream_text_concat.
  cbn [stream_events]. destruct (decode_stream td (concat chunks)) as [t td'].
  cbn. now rewrite app_nil_r.
Qed.

Lemma last_piece_LF (t : jsstring) : last_piece (t ++ [10]) = [].
Proof.
  unfold last_piece. change (t ++ [10]) with (t ++ NL). rewrite split_app_NL.
  now rewrite last_last.
Qed.

(** Reads that end with a line feed are cut at line terminators. *)
Lemma line_aligned_cuts (td : TextDecoder) (chunks : list (list byte)) :
  pending_ok (utf8 td) -> line_aligned chunks = true ->
  cuts_at_terminators (read_texts td chunks) = true.
Proof.
  revert td. induction chunks as [|value rest IH]; intros td Hok Hal; [reflexivity|].
  destruct rest as [|value2 rest].
  - cbn [read_texts]. destruct (decode_stream td value) as [t td'].
    cbn. now rewrite orb_true_r.
  - cbn [line_aligned] in Hal. apply andb_true_iff in Hal. destruct Hal as [Hlf Hal].
    destruct (decode_stream_LF td value Hok Hlf) as [t Ht].
    cbn [read_texts] in IH |- *. rewrite Ht.
    cbn [cuts_at_terminators]. rewrite last_piece_LF. cbn [is_empty orb andb].
    apply (IH (mkTextDecoder utf8_init true)); [unfold pending_ok; cbn; lia | exact Hal].
Qed.

(** *** Chunking of the body (part_002) *)

(** C1, as stated, fails: when a read boundary falls inside a line, the two
    pieces are split and classified separately and the event is lost; the
    loop keeps no partial line from one read to the next.  In
    App.original.jsx the first piece even ends the request, as a line that
    fails to parse. *)
Lemma C1_counterexample :
  wire "data: {'tok" ++ line "en':'hi'}" = line "data: {'token':'hi'}"
  /\
  Part002.sendMessage app0 (Response true [line "data: {'token':'hi'}"] Closed) =
  Some (mkApp [user_message (js "q");
               mkMessage assistant None (Some (js "hi")) None None (Some true) None None]
              [] false)
  /\
  Part002.sendMessage app0
    (Response true [wire "data: {'tok"; line "en':'hi'}"] Closed) =
  Some (mkApp [user_message (js "q");
               mkMessage assistant None (Some []) None None (Some true) None None]
              [] false)
  /\
  stream_events new_TextDecoder [line "data: {'token':'hi'}"] = [[Token (js "hi")]]
  /\
  stream_events new_TextDecoder [wire "data: {'tok"; line "en':'hi'}"] = [[EvMalformed]; []]
  /\
  AppOriginal.sendMessage app0 (Response true [line "data: {'token':'hi'}"] Closed) =
  Some (mkApp [user_message (js "q");
               mkMessage assistant None (Some (js "hi")) (Some (JStr [])) (Some (JStr []))
                         (Some true) None None]
              [] true)
  /\
  AppOriginal.sendMessage app0
    (Response true [wire "data: {'tok"; line "en':'hi'}"] Closed) =
  Some (mkApp [user_message (js "q");
               mkMessage assistant None (Some (js "Error connecting to backend."))
                         (Some (JStr [])) (Some (JStr [])) (Some false) None None]
              [] false).
Proof. repeat split; vm_compute; reflexivity. Qed.

Lemma p2_status_no_break (parsed : JSON) (st : Part002.Locals) :
  no_break (Part002.status_branch parsed st).
Proof.
  unfold Part002.status_branch. destruct (truthy_opt _); [|exact I].
  destruct (prop parsed (js "message")) as [[| | | | |]|];
    try (destruct (truthy _)); exact I.
Qed.

Lemma p2_token_no_break (parsed : JSON) (st : Part002.Locals) :
  no_break (Part002.token_branch parsed st).
Proof.
  unfold Part002.token_branch. destruct (truthy_opt _); [|exact I].
  destruct (prop parsed (js "token")) as [[| | | | |]|]; exact I.
Qed.

Lemma p2_final_no_break (parsed : JSON) (st : Part002.Locals) :
  no_break (Part002.final_branch parsed st).
Proof.
  unfold Part002.final_branch. destruct (truthy_opt _); [|exact I].
  destruct (prop parsed (js "final")) as [[| | | | |fs]|]; try exact I.
  destruct (prop (JObj fs) (js "answer")) as [[| | | | |]|]; exact I.
Qed.

Lemma p2_then_no_break (o : outcome Part002.Locals)
    (k : Part002.Locals -> outcome Part002.Locals) :
  no_break o -> (forall st, no_break (k st)) -> no_break (Part002.then_ o k).
Proof. intros Ho Hk. destruct o; cbn; auto. Qed.

Lemma p2_branches_no_break (parsed : JSON) (st s : Part002.Locals) :
  Part002.then_ (Part002.status_branch parsed st) (fun st1 =>
  Part002.then_ (Part002.token_branch parsed st1) (fun st2 =>
  Part002.final_branch parsed st2)) <> Break s.
Proof.
  intro H.
  assert (Hnb : no_break
    (Part002.then_ (Part002.status_branch parsed st) (fun st1 =>
     Part002.then_ (Part002.token_branch parsed st1) (fun st2 =>
     Part002.final_branch parsed st2)))).
  { apply p2_then_no_break; [apply p2_status_no_break|]. intro st1.
    apply p2_then_no_break; [apply p2_token_no_break|]. intro st2.
    apply p2_final_no_break. }
  rewrite H in Hnb. exact Hnb.
Qed.

Lemma p2_try_body_break (parsed : JSON) (st s : Part002.Locals) :
  Part002.try_body parsed st = Break s -> Part002.hasError s = true.
Proof.
  unfold Part002.try_body.
  destruct parsed; try discriminate;
    (destruct (truthy_opt _);
     [ destruct (prop _ (js "error")) as [[| | | | |]|]; try discriminate;
       intro H; injection H as <-; reflexivity
     | intro H; now apply p2_branches_no_break in H ]).
Qed.

Lemma p2_run_events_break (es : list event) (st s : Part002.Locals) :
  Events002.run_events es st = Break s -> Part002.hasError s = true.
Proof.
  revert st. induction es as [|e es IH]; intro st; [discriminate|].
  cbn [Events002.run_events].
  destruct (Events002.on_event e st) as [st1|s1| |] eqn:E; try discriminate.
  - apply IH.
  - intro H. injection H as <-. destruct e; try discriminate. now apply p2_try_body_break in E.
Qed.

(** C1, amended.  The decoded text does not depend on the chunking: the
    streaming decoder reassembles a character whose bytes straddle two
    reads.  The lines do: each read is split on its own and no partial
    line is kept for the next read.  When every cut falls at a line
    terminator (after a line feed, before it, between a carriage return
    and its line feed, in trailing blanks, or around an empty read), the
    reads carry the same sequence of classified events as the body read at
    once, and, when the body raises no error payload, the loop ends in the
    same state.  Reads that each end with a line feed are of this kind. *)
Theorem C1_cuts_at_line_terminators
    (app : AppState) (chunks : list (list byte)) (st' : Part002.Locals) :
  stream_text new_TextDecoder chunks = stream_text new_TextDecoder [concat chunks]
  /\
  (cuts_at_terminators (read_texts new_TextDecoder chunks) = true ->
   concat (stream_events new_TextDecoder chunks) =
   concat (stream_events new_TextDecoder [concat chunks]))
  /\
  (cuts_at_terminators (read_texts new_TextDecoder chunks) = true ->
   Part002.read_loop new_TextDecoder [concat chunks] Closed
     (Part002.mkLocals (Part002.submitted app) false) = Next st' ->
   Part002.hasError st' = false ->
   Part002.sendMessage app (Response true chunks Closed) =
   Part002.sendMessage app (Response true [concat chunks] Closed))
  /\
  (line_aligned chunks = true ->
   cuts_at_terminators (read_texts new_TextDecoder chunks) = true).
Proof.
  split; [|split; [|split]].
  - rewrite !stream_text_concat. cbn [concat]. now rewrite app_nil_r.
  - apply stream_events_cut.
  - intros Hal Hrun Herr. unfold Part002.sendMessage.
    destruct (is_empty (trim (input app)) || loading app); [reflexivity|].
    cbn [Part002.request negb].
    rewrite !p2_read_loop_events in *.
    pose proof (stream_events_cut new_TextDecoder chunks Hal) as Hev.
    cbn [stream_events] in Hrun, Hev |- *.
    destruct (decode_stream new_TextDecoder (concat chunks)) as [text td].
    cbn [concat Events002.run_reads] in Hrun, Hev |- *. rewrite app_nil_r in Hev.
    destruct (Events002.run_events (lines_events (split text 10)) _)
      as [s|s|s|] eqn:E; try discriminate.
    + rewrite <- Hev in E.
      now rewrite (p2_run_reads_concat _ Closed _ _ E).
    + apply p2_run_events_break in E. cbn in Hrun. injection Hrun as <-.
      unfold Part002.done_loading in Herr. rewrite E in Herr. congruence.
  - apply line_aligned_cuts. unfold pending_ok. cbn. lia.
Qed.

(** Witness of [C1_cuts_at_line_terminators]: two tokens and the end
    sentinel on lines ended by carriage return and line feed, cut before
    the terminator, inside it and after it, with an empty read. *)
Lemma C1_witness :
  concat (stream_events new_TextDecoder cr_lf_reads) =
  concat (stream_events new_TextDecoder [concat cr_lf_reads])
  /\
  Part002.sendMessage app0 (Response true cr_lf_reads Closed) =
  Part002.sendMessage app0 (Response true [concat cr_lf_reads] Closed).
Proof.
  destruct (C1_cuts_at_line_terminators app0 cr_lf_reads
           (Part002.mkLocals
              (mkApp [user_message (js "q");
                      mkMessage assistant None (Some (js "Result: normal.")) None None
                                (Some true) None None]
                     [] false)
              false)) as (_ & H2 & H3 & _).
  split; [apply H2 | apply H3]; vm_compute; reflexivity.
Defined.

(** *** The scenarios of the specification, run on part_002 *)

(** Scenario A: a status banner, two tokens, the final payload. *)
Example scenario_A :
  Part002.sendMessage app0
    (Response true
       [line "data: {'status':'chunking','message':'Splitting document'}";
        line "data: {'token':'Result: '}";
        line "data: {'token':'normal.'}";
        line "data: {'final':{'answer':'Result: normal.','files_analyzed':['a.txt'],'file_count':1}}"]
       Closed) =
  Some (mkApp [user_message (js "q");
               mkMessage assistant None (Some (js "Result: normal.")) None None (Some false)
                         (Some (JArr [JStr (js "a.txt")])) (Some (JNum 1 0))]
              [] false).
Proof. vm_compute. reflexivity. Qed.

(** Scenario B: a token, a rate-limit error and the end sentinel in one
    read. *)
Example scenario_B :
  Part002.sendMessage app0
    (Response true
       [line "data: {'token':'par'}" ++ line "data: {'error':'Error code: 429'}"
        ++ line "data: [DONE]"]
       Closed) =
  Some (mkApp [user_message (js "q");
               mkMessage assistant None (Some Part002.RATE_LIMIT_TOKENS) None None
                         (Some false) None None]
              [] false).
Proof. vm_compute. reflexivity. Qed.

(** The status banner of scenario A before the first token arrives. *)
Example scenario_A_banner :
  Part002.sendMessage app0
    (Response true [line "data: {'status':'chunking','message':'Splitting document'}"]
       Closed) =
  Some (mkApp [user_message (js "q");
               mkMessage assistant None (Some (js "📄 Splitting document" ++ NL)) None None
                         (Some true) None None]
              [] false).
Proof. vm_compute. reflexivity. Qed.

(* ===================================================================== *)
(** ** Further properties of [sendMessage] *)
(* ===================================================================== *)

(** *** What every run of part_002 keeps *)

Lemma p2_set_last_ok (f : Message -> Message) (ms : list Message) (inp : jsstring)
    (st : Part002.Locals) :
  (forall m, answering m -> answering (f m)) ->
  entry_ok ms inp st ->
  entry_ok ms inp (Part002.on_state (setMessages (update_last f)) st).
Proof.
  intros Hf (m & ld & he & -> & Hm & Hl). exists (f m), ld, he.
  split; [now on_last_entry|]. split; [now apply Hf | exact Hl].
Qed.

Lemma p2_on_status_answering (parsed : JSON) (msg : jsstring) (m : Message) :
  answering m -> answering (Part002.on_status parsed msg m).
Proof.
  intros [Hr [text Ha]]. unfold Part002.on_status.
  repeat match goal with
         | |- context [if ?c then _ else _] => destruct c
         end;
    (split; [exact Hr | cbn; eauto]).
Qed.

Lemma p2_on_token_answering (t : jsstring) (m : Message) :
  answering m -> answering (Part002.on_token t m).
Proof.
  intros [Hr _]. unfold Part002.on_token.
  repeat match goal with
         | |- context [if ?c then _ else _] => destruct c
         end;
    (split; [exact Hr | cbn; eauto]).
Qed.

Lemma p2_status_branch_ok (parsed : JSON) (ms : list Message) (inp : jsstring)
    (st : Part002.Locals) :
  entry_ok ms inp st -> keeps_entry ms inp (Part002.status_branch parsed st).
Proof.
  intro H. unfold Part002.status_branch.
  destruct (truthy_opt _); [|exact H].
  destruct (prop parsed (js "message")) as [[| | | | |]|];
    try (destruct (truthy _); [exact I|]);
    (apply p2_set_last_ok; [apply p2_on_status_answering | exact H]).
Qed.

Lemma p2_token_branch_ok (parsed : JSON) (ms : list Message) (inp : jsstring)
    (st : Part002.Locals) :
  entry_ok ms inp st -> keeps_entry ms inp (Part002.token_branch parsed st).
Proof.
  intro H. unfold Part002.token_branch.
  destruct (truthy_opt _); [|exact H].
  destruct (prop parsed (js "token")) as [[| | | | |]|]; try exact I.
  apply p2_set_last_ok; [apply p2_on_token_answering | exact H].
Qed.

Lemma p2_final_branch_ok (parsed : JSON) (ms : list Message) (inp : jsstring)
    (st : Part002.Locals) :
  entry_ok ms inp st -> keeps_entry ms inp (Part002.final_branch parsed st).
Proof.
  intro H. unfold Part002.final_branch.
  destruct (truthy_opt _); [|exact H].
  destruct (prop parsed (js "final")) as [[| | | | |fs]|]; try exact I.
  destruct (prop (JObj fs) (js "answer")) as [[| | |a| |]|]; try exact I.
  destruct H as (m & ld & he & -> & [Hr _] & _).
  exists (Part002.on_final (JObj fs) a m), false, he.
  split; [now on_last_entry|]. split; [|reflexivity].
  split; [exact Hr | cbn; eauto].
Qed.

Lemma p2_then_ok (o : outcome Part002.Locals) (k : Part002.Locals -> outcome Part002.Locals)
    (ms : list Message) (inp : jsstring) :
  keeps_entry ms inp o ->
  (forall st, entry_ok ms inp st -> keeps_entry ms inp (k st)) ->
  keeps_entry ms inp (Part002.then_ o k).
Proof. intros Ho Hk. destruct o; cbn; auto. Qed.

Lemma p2_try_body_ok (parsed : JSON) (ms : list Message) (inp : jsstring)
    (st : Part002.Locals) :
  entry_ok ms inp st -> keeps_entry ms inp (Part002.try_body parsed st).
Proof.
  intro H.
  assert (Hbody : keeps_entry ms inp
    (if truthy_opt (prop parsed (js "error")) then
       match prop parsed (js "error") with
       | Some (JStr error) =>
           Break (Part002.mkLocals
                    (setLoading false
                       (setMessages
                          (update_last
                             (fun _ => Part002.error_message (Part002.errorMessage error)))
                          (Part002.state st)))
                    true)
       | _ => OffContract
       end
     else
       Part002.then_ (Part002.status_branch parsed st) (fun st1 =>
       Part002.then_ (Part002.token_branch parsed st1) (fun st2 =>
       Part002.final_branch parsed st2)))).
  { destruct (truthy_opt _).
    - destruct (prop parsed (js "error")) as [[| | |e| |]|]; try exact I.
      destruct H as (m & ld & he & -> & _ & _).
      exists (Part002.error_message (Part002.errorMessage e)), false, true.
      split; [now on_last_entry|]. split; [|reflexivity].
      split; [reflexivity | cbn; eauto].
    - apply p2_then_ok; [now apply p2_status_branch_ok|].
      intros st1 H1. apply p2_then_ok; [now apply p2_token_branch_ok|].
      intros st2 H2. now apply p2_final_branch_ok. }
  destruct parsed; exact Hbody.
Qed.

Lemma p2_done_loading_ok (ms : list Message) (inp : jsstring) (st : Part002.Locals) :
  entry_ok ms inp st ->
  entry_ok ms inp (Part002.done_loading st) /\
  loading (Part002.state (Part002.done_loading st)) = false.
Proof.
  intros (m & ld & he & -> & Hm & Hl). unfold Part002.done_loading. destruct he.
  - cbn. split; [|now apply Hl]. now exists m, ld, true.
  - cbn. split; [|reflexivity]. exists m, false, false.
    split; [reflexivity|]. split; [exact Hm|reflexivity].
Qed.

Lemma p2_on_event_ok (e : event) (ms : list Message) (inp : jsstring)
    (st : Part002.Locals) :
  entry_ok ms inp st -> keeps_entry ms inp (Events002.on_event e st).
Proof.
  intro H. destruct e; cbn [Events002.on_event].
  - apply p2_done_loading_ok. exact H.
  - exact H.
  - now apply p2_try_body_ok.
Qed.

Lemma p2_run_events_ok (es : list event) (ms : list Message) (inp : jsstring)
    (st : Part002.Locals) :
  entry_ok ms inp st -> keeps_entry ms inp (Events002.run_events es st).
Proof.
  revert st. induction es as [|e es IH]; intros st H; [exact H|].
  cbn [Events002.run_events].
  pose proof (p2_on_event_ok e ms inp st H) as He.
  destruct (Events002.on_event e st); try exact He. now apply IH.
Qed.

(** The whole [while] loop: it ends normally with the loading flag down, or
    with an exception, and never on a [break]. *)
Lemma p2_run_reads_ok (reads : list (list event)) (last : ReadEnd)
    (ms : list Message) (inp : jsstring) (st : Part002.Locals) :
  entry_ok ms inp st ->
  match Events002.run_reads reads last st with
  | Next st' => entry_ok ms inp st' /\ loading (Part002.state st') = false
  | Throw st' => entry_ok ms inp st'
  | Break _ => False
  | OffContract => True
  end.
Proof.
  revert st. induction reads as [|es reads IH]; intros st H.
  - destruct last; cbn; [|exact H]. now apply p2_done_loading_ok.
  - cbn [Events002.run_reads].
    pose proof (p2_run_events_ok es ms inp st H) as He.
    destruct (Events002.run_events es st); try exact He; now apply IH.
Qed.

Lemma p2_request_ok (app : AppState) (net : Network) :
  match Part002.request net (Part002.mkLocals (Part002.submitted app) false) with
  | Next st' =>
      entry_ok (messages app ++ [user_message (input app)]) [] st' /\
      loading (Part002.state st') = false
  | Throw st' => entry_ok (messages app ++ [user_message (input app)]) [] st'
  | Break _ => False
  | OffContract => True
  end.
Proof.
  assert (H0 : entry_ok (messages app ++ [user_message (input app)]) []
                 (Part002.mkLocals (Part002.submitted app) false)).
  { exists Part002.placeholder, true, false. unfold tail_state, Part002.submitted.
    rewrite snoc2. split; [reflexivity|]. split; [|discriminate].
    split; [reflexivity | cbn; eauto]. }
  destruct net as [|ok chunks last]; cbn [Part002.request]; [exact H0|].
  destruct ok; cbn [negb]; [|exact H0].
  rewrite p2_read_loop_events. now apply p2_run_reads_ok.
Qed.

Lemma wire_typed_fields (parsed : JSON) :
  wire_typed parsed = true ->
  string_or_falsy (prop parsed (js "error")) = true /\
  string_or_falsy (prop parsed (js "message")) = true /\
  string_or_falsy (prop parsed (js "token")) = true /\
  final_typed (prop parsed (js "final")) = true.
Proof.
  unfold wire_typed. intro H.
  apply andb_true_iff in H. destruct H as [H H4].
  apply andb_true_iff in H. destruct H as [H H3].
  apply andb_true_iff in H. destruct H as [H1 H2]. auto.
Qed.

(** On a typed field, a branch of the loops does not leave the contract. *)
Ltac typed_branch H :=
  repeat match goal with
         | |- context [truthy_opt ?v] => unfold truthy_opt
         | H' : context [match ?x with _ => _ end] |- _ => destruct x; try discriminate H'
         | |- context [match ?x with _ => _ end] => destruct x; try discriminate
         end;
  try discriminate; try congruence.

(** A value that is a string when truthy. *)
Lemma string_or_falsy_truthy (v : JSON) :
  string_or_falsy (Some v) = true -> truthy v = true -> exists s, v = JStr s.
Proof.
  unfold string_or_falsy. destruct v; intros H E; cbn in H, E;
    try discriminate E; try discriminate H; try (rewrite E in H; discriminate H).
  eauto.
Qed.

Lemma p2_status_branch_typed (parsed : JSON) (st : Part002.Locals) :
  string_or_falsy (prop parsed (js "message")) = true ->
  Part002.status_branch parsed st <> OffContract.
Proof.
  unfold Part002.status_branch. intro H.
  destruct (truthy_opt (prop parsed (js "status"))); [|discriminate].
  destruct (prop parsed (js "message")) as [v|]; [|discriminate].
  destruct (truthy v) eqn:E.
  - destruct (string_or_falsy_truthy v H E) as [s ->]. discriminate.
  - destruct v; try discriminate; rewrite E; discriminate.
Qed.

Lemma p2_token_branch_typed (parsed : JSON) (st : Part002.Locals) :
  string_or_falsy (prop parsed (js "token")) = true ->
  Part002.token_branch parsed st <> OffContract.
Proof.
  unfold Part002.token_branch, truthy_opt. intro H.
  destruct (prop parsed (js "token")) as [v|]; [|discriminate].
  destruct (truthy v) eqn:E; [|discriminate].
  destruct (string_or_falsy_truthy v H E) as [s ->]. discriminate.
Qed.

Lemma p2_final_branch_typed (parsed : JSON) (st : Part002.Locals) :
  final_typed (prop parsed (js "final")) = true ->
  Part002.final_branch parsed st <> OffContract.
Proof.
  unfold Part002.final_branch, final_typed, truthy_opt. intro H.
  destruct (prop parsed (js "final")) as [v|]; [|discriminate].
  destruct (truthy v) eqn:E; [|discriminate].
  destruct v as [| | | | |fs];
    [cbn in H, E; try discriminate E; try discriminate H;
     try (rewrite E in H; discriminate H) ..|].
  destruct (prop (JObj fs) (js "answer")) as [[| | | | |]|]; discriminate.
Qed.

Lemma p2_try_body_typed (parsed : JSON) (st : Part002.Locals) :
  wire_typed parsed = true -> Part002.try_body parsed st <> OffContract.
Proof.
  intro H. destruct (wire_typed_fields parsed H) as (He & Hm & Ht & Hf).
  assert (Hbody :
    (if truthy_opt (prop parsed (js "error")) then
       match prop parsed (js "error") with
       | Some (JStr error) =>
           Break (Part002.mkLocals
                    (setLoading false
                       (setMessages
                          (update_last
                             (fun _ => Part002.error_message (Part002.errorMessage error)))
                          (Part002.state st)))
                    true)
       | _ => OffContract
       end
     else
       Part002.then_ (Part002.status_branch parsed st) (fun st1 =>
       Part002.then_ (Part002.token_branch parsed st1) (fun st2 =>
       Part002.final_branch parsed st2))) <> OffContract).
  { unfold truthy_opt.
    destruct (prop parsed (js "error")) as [v|].
    - destruct (truthy v) eqn:E.
      + destruct (string_or_falsy_truthy v He E) as [s ->]. discriminate.
      + pose proof (p2_status_branch_typed parsed st Hm) as H1.
        destruct (Part002.status_branch parsed st) as [st1| | |]; try discriminate;
          [|congruence]. cbn [Part002.then_].
        pose proof (p2_token_branch_typed parsed st1 Ht) as H2.
        destruct (Part002.token_branch parsed st1) as [st2| | |]; try discriminate;
          [|congruence]. cbn [Part002.then_].
        now apply p2_final_branch_typed.
    - pose proof (p2_status_branch_typed parsed st Hm) as H1.
      destruct (Part002.status_branch parsed st) as [st1| | |]; try discriminate;
        [|congruence]. cbn [Part002.then_].
      pose proof (p2_token_branch_typed parsed st1 Ht) as H2.
      destruct (Part002.token_branch parsed st1) as [st2| | |]; try discriminate;
        [|congruence]. cbn [Part002.then_].
      now apply p2_final_branch_typed. }
  unfold Part002.try_body. destruct parsed; exact Hbody.
Qed.

Lemma p2_run_events_typed (es : list event) (st : Part002.Locals) :
  forallb on_contract es = true -> Events002.run_events es st <> OffContract.
Proof.
  revert st. induction es as [|e es IH]; intros st H; [discriminate|].
  cbn [forallb] in H. apply andb_true_iff in H. destruct H as [He Hes].
  cbn [Events002.run_events].
  destruct (Events002.on_event e st) as [st1| | |] eqn:E; try discriminate.
  - now apply IH.
  - destruct e as [| |parsed]; try discriminate. now apply p2_try_body_typed in E.
Qed.

Lemma p2_run_reads_typed (reads : list (list event)) (last : ReadEnd) (st : Part002.Locals) :
  forallb (forallb on_contract) reads = true ->
  Events002.run_reads reads last st <> OffContract.
Proof.
  revert st. induction reads as [|es reads IH]; intros st H.
  - destruct last; discriminate.
  - cbn [forallb] in H. apply andb_true_iff in H. destruct H as [He Hes].
    cbn [Events002.run_reads].
    pose proof (p2_run_events_typed es st He) as H1.
    destruct (Events002.run_events es st); try congruence; now apply IH.
Qed.

(** On the wire contract the call comes to an end. *)
Lemma p2_request_returns (app : AppState) (net : Network) :
  streamed_on_contract net = true ->
  Part002.request net (Part002.mkLocals (Part002.submitted app) false) <> OffContract.
Proof.
  destruct net as [|ok chunks last]; cbn [Part002.request streamed_on_contract];
    [discriminate|].
  intro H. destruct ok; cbn [negb]; [|discriminate].
  rewrite p2_read_loop_events. now apply p2_run_reads_typed.
Qed.

(** X2.  History is never rewritten (part_002): when every payload of
    the body is on the wire contract, the call returns, whatever else the
    network does (rejection, error status, any lines, a stream that closes
    or fails), and leaves the earlier entries as they were, followed by
    the user's message and exactly one assistant entry, which has an
    [answer] text; the input box is emptied. *)
Theorem X_p2_history_is_kept (app : AppState) (net : Network) :
  is_empty (trim (input app)) || loading app = false ->
  streamed_on_contract net = true ->
  exists app' m text,
    Part002.sendMessage app net = Some app' /\
    messages app' = messages app ++ [user_message (input app); m] /\
    role m = assistant /\
    answer m = Some text /\
    input app' = [].
Proof.
  intros Hin Hnet. unfold Part002.sendMessage. rewrite Hin.
  pose proof (p2_request_ok app net) as H.
  pose proof (p2_request_returns app net Hnet) as Hr.
  destruct (Part002.request net _) as [st|st|st|]; try contradiction; try congruence.
  - destruct H as [(m & ld & he & -> & [Hrole [text Ha]] & _) _].
    exists (mkApp ((messages app ++ [user_message (input app)]) ++ [m]) [] ld), m, text.
    cbn. now rewrite <- app_assoc.
  - destruct H as (m & ld & he & -> & _ & _).
    eexists _, (Part002.error_message Part002.CONNECT_ERROR), Part002.CONNECT_ERROR.
    split; [reflexivity|].
    unfold Part002.on_catch. on_last_entry. cbn. now rewrite <- app_assoc.
Qed.

Lemma X_p2_history_witness :
  exists app' m text,
    Part002.sendMessage app0 (Response true [line "data: {'error':'b'}"] Closed) = Some app' /\
    messages app' = messages app0 ++ [user_message (input app0); m] /\
    role m = assistant /\
    answer m = Some text /\
    input app' = [].
Proof.
  apply (X_p2_history_is_kept app0 (Response true [line "data: {'error':'b'}"] Closed)).
  - vm_compute. reflexivity.
  - vm_compute. reflexivity.
Defined.

(** X3.  A call that ends ends with the loading flag down (part_002):
    for every response whose body comes to an end, by closure or by
    failure, or that never arrives, and whose payloads are on the wire
    contract, [sendMessage] returns with [loading] false.  (A connection
    that stays open is not an input of [sendMessage] here: the statement
    is about calls that end.) *)
Theorem X_p2_loading_ends_false (app : AppState) (net : Network) :
  is_empty (trim (input app)) || loading app = false ->
  streamed_on_contract net = true ->
  exists app', Part002.sendMessage app net = Some app' /\ loading app' = false.
Proof.
  intros Hin Hnet. unfold Part002.sendMessage. rewrite Hin.
  pose proof (p2_request_ok app net) as H.
  pose proof (p2_request_returns app net Hnet) as Hr.
  destruct (Part002.request net _) as [st|st|st|]; try contradiction; try congruence.
  - destruct H as [_ H]. now exists (Part002.state st).
  - now eexists.
Qed.

Lemma X_p2_loading_witness :
  exists app',
    Part002.sendMessage app0 (Response true [line "data: {'token':'a'}"] Closed) = Some app' /\
    loading app' = false.
Proof.
  apply (X_p2_loading_ends_false app0 (Response true [line "data: {'token':'a'}"] Closed)).
  - vm_compute. reflexivity.
  - vm_compute. reflexivity.
Defined.

(** *** part_000: a stream that closes without the end sentinel *)

Lemma p0_token_branch_loading (parsed : JSON) (app : AppState) :
  match Part000.token_branch parsed app with
  | Next app' => loading app' = loading app
  | OffContract => True
  | _ => False
  end.
Proof.
  unfold Part000.token_branch. destruct (truthy_opt _); [|reflexivity].
  destruct (prop parsed (js "token")) as [[| | | | |]|]; try exact I. reflexivity.
Qed.

Lemma p0_final_branch_loading (parsed : JSON) (app : AppState) :
  match Part000.final_branch parsed app with
  | Next app' => loading app' = loading app
  | OffContract => True
  | _ => False
  end.
Proof.
  unfold Part000.final_branch. destruct (truthy_opt _); [|reflexivity].
  destruct (prop parsed (js "final")) as [[| | | | |fs]|]; try exact I.
  destruct (prop (JObj fs) (js "answer")) as [[| | | | |]|]; try exact I. reflexivity.
Qed.

(** A quiet event neither moves the loading flag nor leaves the loop. *)
Lemma p0_quiet_event (e : event) (app : AppState) :
  quiet e = true ->
  match Events000.on_event e app with
  | Next app' => loading app' = loading app
  | OffContract => True
  | _ => False
  end.
Proof.
  destruct e as [| |parsed]; cbn [quiet Events000.on_event]; intro Hq;
    [discriminate|reflexivity|].
  apply negb_true_iff in Hq.
  assert (Hbody :
    match
      Part000.then_ (Part000.token_branch parsed app) (fun app1 =>
      Part000.then_ (Part000.final_branch parsed app1) (fun app2 =>
      Part000.error_branch parsed app2))
    with
    | Next app' => loading app' = loading app
    | OffContract => True
    | _ => False
    end).
  { pose proof (p0_token_branch_loading parsed app) as Ht.
    destruct (Part000.token_branch parsed app) as [app1| | |]; cbn [Part000.then_];
      try exact Ht.
    pose proof (p0_final_branch_loading parsed app1) as Hf.
    destruct (Part000.final_branch parsed app1) as [app2| | |]; cbn [Part000.then_];
      try exact Hf.
    unfold Part000.error_branch. rewrite Hq. congruence. }
  unfold Part000.try_body. destruct parsed; exact Hbody.
Qed.

Lemma p0_quiet_events (es : list event) (app : AppState) :
  forallb quiet es = true ->
  match Events000.run_events es app with
  | Next app' => loading app' = loading app
  | OffContract => True
  | _ => False
  end.
Proof.
  revert app. induction es as [|e es IH]; intros app H; [reflexivity|].
  cbn [forallb] in H. apply andb_true_iff in H. destruct H as [He Hes].
  cbn [Events000.run_events].
  pose proof (p0_quiet_event e app He) as H1.
  destruct (Events000.on_event e app) as [app1| | |]; try exact H1.
  pose proof (IH app1 Hes) as H2.
  destruct (Events000.run_events es app1); try exact H2. congruence.
Qed.

Lemma p0_quiet_reads (reads : list (list event)) (app : AppState) :
  forallb (forallb quiet) reads = true ->
  match Events000.run_reads reads Closed app with
  | Next app' => loading app' = loading app
  | OffContract => True
  | _ => False
  end.
Proof.
  revert app. induction reads as [|es reads IH]; intros app H; [reflexivity|].
  cbn [forallb] in H. apply andb_true_iff in H. destruct H as [He Hes].
  cbn [Events000.run_reads].
  pose proof (p0_quiet_events es app He) as H1.
  destruct (Events000.run_events es app) as [app1| | |];
    try contradiction; try exact H1.
  pose proof (IH app1 Hes) as H2.
  destruct (Events000.run_reads reads Closed app1); try exact H2. congruence.
Qed.

(** X4.  A stuck spinner (part_000): when the body closes and no line of it was
    the end sentinel or an error payload, [loading] is still true after
    the call; every later [sendMessage] then returns at its guard,
    whatever is typed. *)
Theorem X_p0_loading_stays_up
    (app : AppState) (ok : bool) (chunks : list (list byte)) (app' : AppState) :
  is_empty (trim (input app)) || loading app = false ->
  forallb (forallb quiet) (chunk_events chunks) = true ->
  Part000.sendMessage app (Response ok chunks Closed) = Some app' ->
  loading app' = true /\
  forall (typed : jsstring) (net : Network),
    Part000.sendMessage (mkApp (messages app') typed (loading app')) net =
    Some (mkApp (messages app') typed (loading app')).
Proof.
  intros Hin Hq. unfold Part000.sendMessage at 1. rewrite Hin.
  cbn [Part000.request]. rewrite p0_read_loop_events.
  pose proof (p0_quiet_reads (chunk_events chunks) (Part000.submitted app) Hq) as H.
  destruct (Events000.run_reads _ Closed _) as [a|a|a|]; intro E;
    try discriminate; try contradiction.
  injection E as <-. split; [exact H|].
  intros typed net. unfold Part000.sendMessage. cbn [input loading].
  rewrite H. cbn [Part000.submitted loading]. rewrite orb_true_r. reflexivity.
Qed.

Lemma X_p0_loading_witness :
  loading (mkApp [user_message (js "q");
                  set_answer (js "a") Part000.placeholder] [] true) = true /\
  forall (typed : jsstring) (net : Network),
    Part000.sendMessage
      (mkApp (messages (mkApp [user_message (js "q");
                               set_answer (js "a") Part000.placeholder] [] true))
             typed
             (loading (mkApp [user_message (js "q");
                              set_answer (js "a") Part000.placeholder] [] true))) net =
    Some (mkApp (messages (mkApp [user_message (js "q");
                                  set_answer (js "a") Part000.placeholder] [] true))
                typed
                (loading (mkApp [user_message (js "q");
                                 set_answer (js "a") Part000.placeholder] [] true))).
Proof.
  apply (X_p0_loading_stays_up app0 true [line "data: {'token':'a'}"]).
  - vm_compute. reflexivity.
  - vm_compute. reflexivity.
  - vm_compute. reflexivity.
Defined.

(** X5.  The second rate-limit notice is dead code: [includes("Error code: 429")]
    is tested only after [includes("429")] has failed, so the text shown
    for an error is the first notice or the error itself, and never the
    second notice, not even when the server sends that very sentence. *)
Theorem X_rate_limit_wait_is_never_shown (e : jsstring) :
  (Part002.errorMessage e = Part002.RATE_LIMIT_TOKENS \/ Part002.errorMessage e = e) /\
  Part002.errorMessage e <> Part002.RATE_LIMIT_WAIT.
Proof.
  destruct (p2_errorMessage_cases e) as [Hno Hyes].
  destruct (includes e (js "429")) eqn:E1;
    [rewrite Hyes by auto; split; [now left | vm_compute; discriminate]|].
  destruct (includes e (js "Rate limit")) eqn:E2;
    [rewrite Hyes by auto; split; [now left | vm_compute; discriminate]|].
  destruct (includes e (js "rate limit")) eqn:E3;
    [rewrite Hyes by auto; split; [now left | vm_compute; discriminate]|].
  rewrite Hno by reflexivity. split; [now right|].
  intros ->. revert E2. vm_compute. discriminate.
Qed.

(** *** The first token after a banner (part_002) *)

Lemma p2_on_status_chunking (msg : jsstring) (m : Message) :
  Part002.on_status (JObj [(js "status", JStr (js "chunking")); (js "message", JStr msg)]) msg m =
  banner m (js "📄 " ++ msg ++ NL).
Proof. reflexivity. Qed.

Lemma p2_on_status_processing (msg : jsstring) (m : Message) :
  Part002.on_status (JObj [(js "status", JStr (js "processing")); (js "message", JStr msg)])
    msg m =
  banner m (js "📄 Document is large. Processing in chunks..." ++ NL ++ js "🔄 " ++ msg ++ NL).
Proof. reflexivity. Qed.

Lemma p2_token_on_banner (text t : jsstring) (m : Message) :
  startsWith text (js "📄") = true ->
  Part002.on_token t (banner m text) =
  banner m (if includes text (trim t) then text ++ t else t).
Proof.
  intro H. rewrite p2_on_token_replaces. unfold replaces_banner.
  cbn [banner answer or_empty]. rewrite (startsWith_includes _ _ H). cbn [orb andb].
  destruct (includes text (trim t)); reflexivity.
Qed.

(** X6.  The first token after a banner: once a [chunking] or [processing]
    status has put its banner in the entry, the next token replaces the
    whole text, unless the trimmed token occurs in the banner, in which
    case it is appended to it.  A token of white space only trims to the
    empty string, which every text includes: it never clears the banner. *)
Theorem X_first_token_after_banner
    (ms : list Message) (m : Message) (inp : jsstring) (ld he : bool) (msg t : jsstring) :
  is_empty t = false ->
  Events002.run_events [Status (js "chunking") msg; Token t] (tail_state ms m inp ld he) =
    Next (tail_state ms
            (banner m (if includes (js "📄 " ++ msg ++ NL) (trim t)
                       then (js "📄 " ++ msg ++ NL) ++ t else t)) inp ld he)
  /\
  Events002.run_events [Status (js "processing") msg; Token t] (tail_state ms m inp ld he) =
    Next (tail_state ms
            (banner m
               (if includes (js "📄 Document is large. Processing in chunks..." ++ NL
                             ++ js "🔄 " ++ msg ++ NL) (trim t)
                then (js "📄 Document is large. Processing in chunks..." ++ NL
                      ++ js "🔄 " ++ msg ++ NL) ++ t
                else t)) inp ld he)
  /\
  (forallb isWhiteSpace t = true ->
   forall text : jsstring, includes text (trim t) = true).
Proof.
  intro Ht. repeat split.
  - cbn [Events002.run_events].
    rewrite p2_status_shows by reflexivity.
    rewrite p2_token_on_tail by exact Ht.
    rewrite p2_on_status_chunking, p2_token_on_banner by reflexivity. reflexivity.
  - cbn [Events002.run_events].
    rewrite p2_status_shows by reflexivity.
    rewrite p2_token_on_tail by exact Ht.
    rewrite p2_on_status_processing, p2_token_on_banner by reflexivity. reflexivity.
  - intros Hws text. apply trim_empty_iff in Hws.
    destruct (trim t); [apply includes_nil | discriminate].
Qed.

Lemma X_first_token_witness :
  Events002.run_events [Status (js "chunking") (js "Splitting"); Token (js "Hi")]
    (tail_state [] Part002.placeholder [] true false) =
  Next (tail_state [] (banner Part002.placeholder (js "Hi")) [] true false).
Proof.
  apply (proj1 (X_first_token_after_banner [] Part002.placeholder [] true false
                  (js "Splitting") (js "Hi") eq_refl)).
Defined.

(** *** What every run of part_001 keeps *)

Lemma p1_set_last_ok (f : Message -> Message) (ms : list Message) (inp : jsstring)
    (app : AppState) :
  (forall m, role (f m) = assistant /\ exists text, content (f m) = Some text) ->
  p1_entry_ok ms inp app ->
  p1_entry_ok ms inp (setMessages (update_last f) app).
Proof.
  intros Hf (m & ld & -> & _). exists (f m), ld. split; [|apply Hf].
  unfold setMessages. cbn [messages input loading]. now rewrite update_last_snoc.
Qed.

Lemma p1_token_branch_ok (parsed : JSON) (ms : list Message) (inp : jsstring)
    (app : AppState) :
  p1_entry_ok ms inp app -> p1_keeps_entry ms inp (Part001.token_branch parsed app).
Proof.
  intro H. unfold Part001.token_branch. destruct (truthy_opt _); [|exact H].
  destruct (prop parsed (js "token")) as [[| | |t| |]|]; try exact I.
  destruct H as (m & ld & -> & Hr & _). exists (Part001.on_token t m), ld.
  split; [|split; [exact Hr | cbn; eauto]].
  unfold setMessages. cbn [messages input loading]. now rewrite update_last_snoc.
Qed.

Lemma p1_final_branch_ok (parsed : JSON) (ms : list Message) (inp : jsstring)
    (app : AppState) :
  p1_entry_ok ms inp app -> p1_keeps_entry ms inp (Part001.final_branch parsed app).
Proof.
  intro H. unfold Part001.final_branch. destruct (truthy_opt _); [|exact H].
  destruct (prop parsed (js "final")) as [[| | | | |fs]|]; try exact I.
  destruct (prop (JObj fs) (js "answer")) as [[| | |a| |]|]; try exact I.
  apply p1_set_last_ok; [|exact H]. intros _. split; [reflexivity | cbn; eauto].
Qed.

Lemma p1_process_line_ok (l : jsstring) (ms : list Message) (inp : jsstring)
    (app : AppState) :
  p1_entry_ok ms inp app -> p1_keeps_entry ms inp (Part001.process_line l app).
Proof.
  intro H. unfold Part001.process_line.
  destruct (negb _); [exact H|].
  destruct (is_empty _ || str_eqb _ _).
  { destruct H as (m & ld & -> & Hm). now exists m, false. }
  destruct (JSON_parse _) as [parsed|]; [|exact H].
  assert (Hbody : p1_keeps_entry ms inp
            match Part001.token_branch parsed app with
            | Next app1 => Part001.final_branch parsed app1
            | o => o
            end).
  { pose proof (p1_token_branch_ok parsed ms inp app H) as Ht.
    destruct (Part001.token_branch parsed app); try exact Ht.
    now apply p1_final_branch_ok. }
  unfold Part001.parsed_body. destruct parsed; exact Hbody.
Qed.

Lemma p1_for_lines_ok (lines : list jsstring) (ms : list Message) (inp : jsstring)
    (app : AppState) :
  p1_entry_ok ms inp app -> p1_keeps_entry ms inp (Part001.for_lines lines app).
Proof.
  revert app. induction lines as [|l lines IH]; intros app H; [exact H|].
  cbn [Part001.for_lines].
  pose proof (p1_process_line_ok l ms inp app H) as Hl.
  destruct (Part001.process_line l app); try exact Hl. now apply IH.
Qed.

Lemma p1_read_loop_ok (chunks : list (list byte)) (last : ReadEnd)
    (ms : list Message) (inp : jsstring) (app : AppState) :
  p1_entry_ok ms inp app -> p1_keeps_entry ms inp (Part001.read_loop chunks last app).
Proof.
  revert app. induction chunks as [|value rest IH]; intros app H.
  - destruct last; exact H.
  - cbn [Part001.read_loop].
    pose proof (p1_for_lines_ok (split (decode value) 10) ms inp app H) as Hl.
    destruct (Part001.for_lines _ app); try exact Hl; now apply IH.
Qed.

Lemma p1_token_branch_typed (parsed : JSON) (app : AppState) :
  string_or_falsy (prop parsed (js "token")) = true ->
  exists app', Part001.token_branch parsed app = Next app'.
Proof.
  unfold Part001.token_branch, truthy_opt. intro H.
  destruct (prop parsed (js "token")) as [v|]; [|eauto].
  destruct (truthy v) eqn:E; [|eauto].
  destruct (string_or_falsy_truthy v H E) as [s ->]. eauto.
Qed.

Lemma p1_final_branch_typed (parsed : JSON) (app : AppState) :
  final_typed (prop parsed (js "final")) = true ->
  exists app', Part001.final_branch parsed app = Next app'.
Proof.
  unfold Part001.final_branch, final_typed, truthy_opt. intro H.
  destruct (prop parsed (js "final")) as [v|]; [|eauto].
  destruct (truthy v) eqn:E; [|eauto].
  destruct v as [| | | | |fs];
    [cbn in H, E; try discriminate E; try discriminate H;
     try (rewrite E in H; discriminate H) ..|].
  destruct (prop (JObj fs) (js "answer")) as [[| | | | |]|]; try discriminate H; eauto.
Qed.

Lemma p1_process_line_typed (l : jsstring) (app : AppState) :
  forallb on_contract (lines_events [l]) = true ->
  exists app',
    Part001.process_line l app =
    if existsb fatal (lines_events [l]) then Throw app' else Next app'.
Proof.
  rewrite lines_events_cons. cbn [lines_events flat_map]. rewrite app_nil_r.
  unfold Part001.process_line, line_event.
  destruct (negb (startsWith l (js "data:"))); [cbn; eauto|].
  destruct (is_empty _ || str_eqb _ _); [cbn; eauto|].
  destruct (JSON_parse _) as [parsed|]; [|cbn; eauto].
  cbn [forallb existsb fatal on_contract]. rewrite andb_true_r, orb_false_r. intro H.
  destruct (wire_typed_fields parsed H) as (_ & _ & Ht & Hf).
  assert (Hbody : exists app',
            match Part001.token_branch parsed app with
            | Next app1 => Part001.final_branch parsed app1
            | o => o
            end = Next app').
  { destruct (p1_token_branch_typed parsed app Ht) as [app1 ->].
    now apply p1_final_branch_typed. }
  unfold Part001.parsed_body. destruct parsed; try exact Hbody. eauto.
Qed.

Lemma p1_for_lines_typed (lines : list jsstring) (app : AppState) :
  forallb on_contract (lines_events lines) = true ->
  exists app',
    Part001.for_lines lines app =
    if existsb fatal (lines_events lines) then Throw app' else Next app'.
Proof.
  revert app. induction lines as [|l lines IH]; intros app H; [cbn; eauto|].
  change (l :: lines) with ([l] ++ lines) in H |- *.
  rewrite lines_events_app in H |- *. rewrite forallb_app in H. rewrite existsb_app.
  apply andb_true_iff in H. destruct H as [Hl Hls].
  cbn [List.app Part001.for_lines].
  destruct (p1_process_line_typed l app Hl) as [app1 ->].
  destruct (existsb fatal (lines_events [l])); cbn [orb]; [eauto|]. now apply IH.
Qed.

Lemma p1_read_loop_typed (chunks : list (list byte)) (last : ReadEnd) (app : AppState) :
  forallb (forallb on_contract) (chunk_events chunks) = true ->
  exists app',
    Part001.read_loop chunks last app =
    if request_throws (Response true chunks last) then Throw app' else Next app'.
Proof.
  revert app. induction chunks as [|value rest IH]; intros app H.
  - destruct last; cbn; eauto.
  - cbn [chunk_events map forallb] in H. apply andb_true_iff in H. destruct H as [Hv Hr].
    cbn [Part001.read_loop request_throws chunk_events map existsb].
    destruct (p1_for_lines_typed (split (decode value) 10) app Hv) as [app1 ->].
    destruct (existsb fatal (lines_events (split (decode value) 10))); cbn [orb]; [eauto|].
    destruct (IH app1 Hr) as [app2 ->]. cbn [request_throws]. eauto.
Qed.

(** X7.  History is never rewritten (part_001): for a call made while
    no request is in flight, with every payload on the wire contract, the
    call returns and leaves the earlier entries as they were, followed by
    the user's message (when there is a question) and one assistant entry
    with a [content] text.  Exactly when the request throws (the fetch is
    rejected, a line is not JSON or is [null], or the stream fails), the
    connection error is appended as a further entry after it and the
    loading flag is cleared.  The input box is not touched. *)
Theorem X_p1_history_is_kept
    (questionText : jsstring) (app : AppState) (net : Network) :
  loading app = false ->
  read_on_contract net = true ->
  exists app' m text,
    Part001.sendMessage questionText app net = Some app' /\
    messages app' =
      messages app
      ++ (if is_empty questionText then [] else [user_message questionText])
      ++ [m]
      ++ (if request_throws net
          then [Part001.assistant_message Part001.CONNECT_ERROR] else []) /\
    role m = assistant /\
    content m = Some text /\
    (request_throws net = true -> loading app' = false) /\
    input app' = input app.
Proof.
  intros Hld Hnet. unfold Part001.sendMessage. rewrite Hld.
  set (asked := messages app
                ++ (if is_empty questionText then [] else [user_message questionText])).
  assert (H0 : p1_entry_ok asked (input app) (Part001.submitted questionText app)).
  { exists Part001.placeholder, true. split; [|split; [reflexivity | cbn; eauto]].
    unfold Part001.submitted, asked. destruct (is_empty questionText);
      [now rewrite app_nil_r | reflexivity]. }
  assert (H : exists a,
            Part001.request net (Part001.submitted questionText app) =
            (if request_throws net then Throw a else Next a) /\
            p1_entry_ok asked (input app) a).
  { destruct net as [|ok chunks last]; cbn [Part001.request].
    - exists (Part001.submitted questionText app). now split.
    - destruct (p1_read_loop_typed chunks last (Part001.submitted questionText app) Hnet)
        as [a Ha].
      exists a. split; [exact Ha|].
      pose proof (p1_read_loop_ok chunks last asked (input app) _ H0) as Hk.
      rewrite Ha in Hk. destruct (request_throws _); exact Hk. }
  destruct H as (a & -> & m & ld & -> & Hr & text & Hc).
  destruct (request_throws net).
  - eexists _, m, text. split; [reflexivity|].
    unfold asked, Part001.on_catch, setLoading, setMessages. cbn [messages input loading].
    rewrite <- !app_assoc. repeat split; auto.
  - eexists _, m, text. split; [reflexivity|].
    unfold asked. cbn [messages input loading].
    rewrite <- !app_assoc. repeat split; auto. discriminate.
Qed.

Lemma X_p1_history_witness :
  exists app' m text,
    Part001.sendMessage [] (mkApp [] [] false) (Response true [line "data: oops"] Closed) =
      Some app' /\
    messages app' =
      messages (mkApp [] [] false)
      ++ (if is_empty [] then [] else [user_message []])
      ++ [m]
      ++ (if request_throws (Response true [line "data: oops"] Closed)
          then [Part001.assistant_message Part001.CONNECT_ERROR] else []) /\
    role m = assistant /\
    content m = Some text /\
    (request_throws (Response true [line "data: oops"] Closed) = true ->
     loading app' = false) /\
    input app' = input (mkApp [] [] false).
Proof.
  apply (X_p1_history_is_kept [] (mkApp [] [] false)
           (Response true [line "data: oops"] Closed)).
  - reflexivity.
  - vm_compute. reflexivity.
Defined.

(** *** The trace under an answer *)

Lemma files_trace_final (m : Message) (X : jsstring) (F : list jsstring) (N : Z) :
  files_trace (final_message m X F N) =
  Some match F with
       | [] => NoTrace
       | _ => FilesAnalyzed (JNum (if N =? 0 then Z.of_nat (List.length F) else N) 0)
                            (map JStr F)
       end.
Proof.
  unfold files_trace, final_message. cbn [filesAnalyzed fileCount].
  destruct F as [|f F]; [reflexivity|]. cbn [map].
  unfold or_default, truthy, num_is_zero. cbn [negb].
  change (List.length (JStr f :: map JStr F)) with (List.length (map JStr (f :: F))).
  rewrite length_map.
  destruct (N =? 0) eqn:E; cbn [orb negb andb].
  - apply Z.eqb_eq in E. subst N. reflexivity.
  - reflexivity.
Qed.

(** X8.  The files trace follows the final payload: once a final payload with
    answer [X], files [F] and count [N] has reached an assistant entry
    (part_002 and part_000), the entry is rendered as the text [X] with
    the trace exactly when [F] is not empty; the summary shows [N], or the
    number of files when [N] is 0, and the body lists [F] in order.  An
    error payload that follows replaces the entry by one without trace. *)
Theorem X_files_trace_follows_final
    (ms : list Message) (m : Message) (inp : jsstring) (ld he : bool)
    (X : jsstring) (F : list jsstring) (N : Z) (e : jsstring) :
  role m = assistant ->
  is_empty e = false ->
  exists shown failed,
    Events002.on_event (Final X F N) (tail_state ms m inp ld he) =
      Next (tail_state ms shown inp false he) /\
    Events000.on_event (Final X F N) (mkApp (ms ++ [m]) inp ld) =
      Next (mkApp (ms ++ [shown]) inp ld) /\
    render_message shown =
      Some (AssistantBubble (Some X)
              match F with
              | [] => NoTrace
              | _ => FilesAnalyzed (JNum (if N =? 0 then Z.of_nat (List.length F) else N) 0)
                                   (map JStr F)
              end) /\
    Events002.on_event (Error e) (tail_state ms shown inp false he) =
      Break (tail_state ms failed inp false true) /\
    render_message failed =
      Some (AssistantBubble (Some (Part002.errorMessage e)) NoTrace).
Proof.
  intros Hr He. exists (final_message m X F N),
    (Part002.error_message (Part002.errorMessage e)).
  split; [apply p2_final_on_tail|].
  split; [apply p0_final_on_tail|].
  split; [|split; [now apply p2_error_on_tail | reflexivity]].
  unfold render_message. rewrite files_trace_final.
  cbn [final_message role answer]. now rewrite Hr.
Qed.

Lemma X_files_trace_witness :
  exists shown failed,
    Events002.on_event (Final (js "X") [js "a.txt"; js "b.txt"] 0)
      (tail_state [] Part002.placeholder [] true false) =
      Next (tail_state [] shown [] false false) /\
    Events000.on_event (Final (js "X") [js "a.txt"; js "b.txt"] 0)
      (mkApp ([] ++ [Part002.placeholder]) [] true) =
      Next (mkApp ([] ++ [shown]) [] true) /\
    render_message shown =
      Some (AssistantBubble (Some (js "X"))
              (FilesAnalyzed (JNum 2 0) [JStr (js "a.txt"); JStr (js "b.txt")])) /\
    Events002.on_event (Error (js "boom")) (tail_state [] shown [] false false) =
      Break (tail_state [] failed [] false true) /\
    render_message failed = Some (AssistantBubble (Some (js "boom")) NoTrace).
Proof.
  apply (X_files_trace_follows_final [] Part002.placeholder [] true false
           (js "X") [js "a.txt"; js "b.txt"] 0 (js "boom")).
  - reflexivity.
  - reflexivity.
Defined.

(** *** What every run of part_000 and App.original.jsx keeps *)

Lemma answer_entry_set_last (f : Message -> Message) (ms : list Message) (inp : jsstring)
    (app : AppState) :
  (forall m, answering m -> answering (f m)) ->
  answer_entry_ok ms inp app ->
  answer_entry_ok ms inp (setMessages (update_last f) app).
Proof.
  intros Hf (m & ld & -> & Hm). exists (f m), ld. split; [|now apply Hf].
  unfold setMessages. cbn [messages input loading]. now rewrite update_last_snoc.
Qed.

Lemma answer_entry_loading (b : bool) (ms : list Message) (inp : jsstring) (app : AppState) :
  answer_entry_ok ms inp app -> answer_entry_ok ms inp (setLoading b app).
Proof. intros (m & ld & -> & Hm). now exists m, b. Qed.

(** A branch of the form [if (parsed.k) setMessages(update_last f)]. *)
Ltac answer_entry_branch H :=
  repeat match goal with
         | |- context [if ?c then _ else _] => destruct c
         | |- context [match ?x with _ => _ end] => destruct x
         end;
  try exact I; try exact H;
  try (apply answer_entry_loading);
  (apply answer_entry_set_last; [|exact H]);
  intros ? [? [? ?]]; (split; [assumption || reflexivity | cbn; eauto]).

Lemma p0_token_branch_ok (parsed : JSON) (ms : list Message) (inp : jsstring)
    (app : AppState) :
  answer_entry_ok ms inp app -> keeps_answer_entry ms inp (Part000.token_branch parsed app).
Proof. intro H. unfold Part000.token_branch. answer_entry_branch H. Qed.

Lemma p0_final_branch_ok (parsed : JSON) (ms : list Message) (inp : jsstring)
    (app : AppState) :
  answer_entry_ok ms inp app -> keeps_answer_entry ms inp (Part000.final_branch parsed app).
Proof. intro H. unfold Part000.final_branch. answer_entry_branch H. Qed.

Lemma p0_error_branch_ok (parsed : JSON) (ms : list Message) (inp : jsstring)
    (app : AppState) :
  answer_entry_ok ms inp app -> keeps_answer_entry ms inp (Part000.error_branch parsed app).
Proof. intro H. unfold Part000.error_branch. answer_entry_branch H. Qed.

Lemma p0_process_line_ok (l : jsstring) (ms : list Message) (inp : jsstring)
    (app : AppState) :
  answer_entry_ok ms inp app -> keeps_answer_entry ms inp (Part000.process_line l app).
Proof.
  intro H. unfold Part000.process_line.
  destruct (negb _); [exact H|].
  destruct (is_empty _ || str_eqb _ _); [now apply answer_entry_loading|].
  destruct (JSON_parse _) as [parsed|]; [|exact H].
  assert (Hbody : keeps_answer_entry ms inp
            (Part000.then_ (Part000.token_branch parsed app) (fun app1 =>
             Part000.then_ (Part000.final_branch parsed app1) (fun app2 =>
             Part000.error_branch parsed app2)))).
  { pose proof (p0_token_branch_ok parsed ms inp app H) as Ht.
    destruct (Part000.token_branch parsed app) as [app1| | |]; try exact Ht.
    cbn [Part000.then_].
    pose proof (p0_final_branch_ok parsed ms inp app1 Ht) as Hf.
    destruct (Part000.final_branch parsed app1) as [app2| | |]; try exact Hf.
    cbn [Part000.then_]. now apply p0_error_branch_ok. }
  unfold Part000.try_body. destruct parsed; exact Hbody.
Qed.

Lemma p0_for_lines_ok (lines : list jsstring) (ms : list Message) (inp : jsstring)
    (app : AppState) :
  answer_entry_ok ms inp app -> keeps_answer_entry ms inp (Part000.for_lines lines app).
Proof.
  revert app. induction lines as [|l lines IH]; intros app H; [exact H|].
  cbn [Part000.for_lines].
  pose proof (p0_process_line_ok l ms inp app H) as Hl.
  destruct (Part000.process_line l app); try exact Hl. now apply IH.
Qed.

Lemma p0_read_loop_ok (chunks : list (list byte)) (last : ReadEnd)
    (ms : list Message) (inp : jsstring) (app : AppState) :
  answer_entry_ok ms inp app -> keeps_answer_entry ms inp (Part000.read_loop chunks last app).
Proof.
  revert app. induction chunks as [|value rest IH]; intros app H.
  - destruct last; exact H.
  - cbn [Part000.read_loop].
    pose proof (p0_for_lines_ok (split (decode value) 10) ms inp app H) as Hl.
    destruct (Part000.for_lines _ app); try exact Hl; now apply IH.
Qed.

Lemma orig_token_branch_ok (parsed : JSON) (ms : list Message) (inp : jsstring)
    (app : AppState) :
  answer_entry_ok ms inp app ->
  keeps_answer_entry ms inp (AppOriginal.token_branch parsed app).
Proof. intro H. unfold AppOriginal.token_branch. answer_entry_branch H. Qed.

Lemma orig_final_branch_ok (parsed : JSON) (ms : list Message) (inp : jsstring)
    (app : AppState) :
  answer_entry_ok ms inp app ->
  keeps_answer_entry ms inp (AppOriginal.final_branch parsed app).
Proof. intro H. unfold AppOriginal.final_branch. answer_entry_branch H. Qed.

Lemma orig_process_line_ok (l : jsstring) (ms : list Message) (inp : jsstring)
    (app : AppState) :
  answer_entry_ok ms inp app -> keeps_answer_entry ms inp (AppOriginal.process_line l app).
Proof.
  intro H. unfold AppOriginal.process_line.
  destruct (negb _); [exact H|].
  destruct (is_empty _ || str_eqb _ _); [now apply answer_entry_loading|].
  destruct (JSON_parse _) as [parsed|]; [|exact H].
  assert (Hbody : keeps_answer_entry ms inp
            match AppOriginal.token_branch parsed app with
            | Next app1 => AppOriginal.final_branch parsed app1
            | o => o
            end).
  { pose proof (orig_token_branch_ok parsed ms inp app H) as Ht.
    destruct (AppOriginal.token_branch parsed app); try exact Ht.
    now apply orig_final_branch_ok. }
  unfold AppOriginal.parsed_body. destruct parsed; exact Hbody.
Qed.

Lemma orig_for_lines_ok (lines : list jsstring) (ms : list Message) (inp : jsstring)
    (app : AppState) :
  answer_entry_ok ms inp app -> keeps_answer_entry ms inp (AppOriginal.for_lines lines app).
Proof.
  revert app. induction lines as [|l lines IH]; intros app H; [exact H|].
  cbn [AppOriginal.for_lines].
  pose proof (orig_process_line_ok l ms inp app H) as Hl.
  destruct (AppOriginal.process_line l app); try exact Hl. now apply IH.
Qed.

Lemma orig_read_loop_ok (chunks : list (list byte)) (last : ReadEnd)
    (ms : list Message) (inp : jsstring) (app : AppState) :
  answer_entry_ok ms inp app ->
  keeps_answer_entry ms inp (AppOriginal.read_loop chunks last app).
Proof.
  revert app. induction chunks as [|value rest IH]; intros app H.
  - destruct last; exact H.
  - cbn [AppOriginal.read_loop].
    pose proof (orig_for_lines_ok (split (decode value) 10) ms inp app H) as Hl.
    destruct (AppOriginal.for_lines _ app); try exact Hl; now apply IH.
Qed.

Lemma p0_token_branch_typed (parsed : JSON) (app : AppState) :
  string_or_falsy (prop parsed (js "token")) = true ->
  Part000.token_branch parsed app <> OffContract.
Proof.
  unfold Part000.token_branch, truthy_opt. intro H.
  destruct (prop parsed (js "token")) as [v|]; [|discriminate].
  destruct (truthy v) eqn:E; [|discriminate].
  destruct (string_or_falsy_truthy v H E) as [s ->]. discriminate.
Qed.

Lemma p0_final_branch_typed (parsed : JSON) (app : AppState) :
  final_typed (prop parsed (js "final")) = true ->
  Part000.final_branch parsed app <> OffContract.
Proof.
  unfold Part000.final_branch, final_typed, truthy_opt. intro H.
  destruct (prop parsed (js "final")) as [v|]; [|discriminate].
  destruct (truthy v) eqn:E; [|discriminate].
  destruct v as [| | | | |fs];
    [cbn in H, E; try discriminate E; try discriminate H;
     try (rewrite E in H; discriminate H) ..|].
  destruct (prop (JObj fs) (js "answer")) as [[| | | | |]|]; discriminate.
Qed.

Lemma p0_error_branch_typed (parsed : JSON) (app : AppState) :
  string_or_falsy (prop parsed (js "error")) = true ->
  Part000.error_branch parsed app <> OffContract.
Proof.
  unfold Part000.error_branch, truthy_opt. intro H.
  destruct (prop parsed (js "error")) as [v|]; [|discriminate].
  destruct (truthy v) eqn:E; [|discriminate].
  destruct (string_or_falsy_truthy v H E) as [s ->]. discriminate.
Qed.

Lemma p0_try_body_typed (parsed : JSON) (app : AppState) :
  wire_typed parsed = true ->
  exists app', Part000.try_body parsed app = Next app'.
Proof.
  intro H. destruct (wire_typed_fields parsed H) as (He & Hm & Ht & Hf).
  assert (Hbody : exists app',
    Part000.then_ (Part000.token_branch parsed app) (fun app1 =>
    Part000.then_ (Part000.final_branch parsed app1) (fun app2 =>
    Part000.error_branch parsed app2)) = Next app').
  { pose proof (p0_token_branch_typed parsed app Ht) as H1.
    pose proof (p0_token_branch_loading parsed app) as L1.
    destruct (Part000.token_branch parsed app) as [app1| | |]; try contradiction;
      try congruence. cbn [Part000.then_].
    pose proof (p0_final_branch_typed parsed app1 Hf) as H2.
    pose proof (p0_final_branch_loading parsed app1) as L2.
    destruct (Part000.final_branch parsed app1) as [app2| | |]; try contradiction;
      try congruence. cbn [Part000.then_].
    pose proof (p0_error_branch_typed parsed app2 He) as H3.
    unfold Part000.error_branch in *.
    destruct (truthy_opt _); [|eauto].
    destruct (prop parsed (js "error")) as [[| | | | |]|]; try congruence; eauto. }
  unfold Part000.try_body. destruct parsed; exact Hbody.
Qed.

Lemma p0_run_events_typed (es : list event) (app : AppState) :
  forallb on_contract es = true -> exists app', Events000.run_events es app = Next app'.
Proof.
  revert app. induction es as [|e es IH]; intros app H; [cbn; eauto|].
  cbn [forallb] in H. apply andb_true_iff in H. destruct H as [He Hes].
  cbn [Events000.run_events].
  destruct e as [| |parsed]; cbn [Events000.on_event]; try now apply IH.
  destruct (p0_try_body_typed parsed app He) as [app1 ->]. now apply IH.
Qed.

(** The loop of part_000 throws only when the stream is aborted. *)
Lemma p0_run_reads_typed (reads : list (list event)) (last : ReadEnd) (app : AppState) :
  forallb (forallb on_contract) reads = true ->
  exists app',
    Events000.run_reads reads last app =
    match last with Closed => Next app' | Aborted => Throw app' end.
Proof.
  revert app. induction reads as [|es reads IH]; intros app H.
  - destruct last; cbn; eauto.
  - cbn [forallb] in H. apply andb_true_iff in H. destruct H as [He Hes].
    cbn [Events000.run_reads].
    destruct (p0_run_events_typed es app He) as [app1 ->]. now apply IH.
Qed.

Lemma orig_token_branch_typed (parsed : JSON) (app : AppState) :
  string_or_falsy (prop parsed (js "token")) = true ->
  exists app', AppOriginal.token_branch parsed app = Next app'.
Proof.
  unfold AppOriginal.token_branch, truthy_opt. intro H.
  destruct (prop parsed (js "token")) as [v|]; [|eauto].
  destruct (truthy v) eqn:E; [|eauto].
  destruct (string_or_falsy_truthy v H E) as [s ->]. eauto.
Qed.

Lemma orig_final_branch_typed (parsed : JSON) (app : AppState) :
  final_typed (prop parsed (js "final")) = true ->
  exists app', AppOriginal.final_branch parsed app = Next app'.
Proof.
  unfold AppOriginal.final_branch, final_typed, truthy_opt. intro H.
  destruct (prop parsed (js "final")) as [v|]; [|eauto].
  destruct (truthy v) eqn:E; [|eauto].
  destruct v as [| | | | |fs];
    [cbn in H, E; try discriminate E; try discriminate H;
     try (rewrite E in H; discriminate H) ..|].
  destruct (prop (JObj fs) (js "answer")) as [[| | | | |]|]; try discriminate H; eauto.
Qed.

Lemma orig_process_line_typed (l : jsstring) (app : AppState) :
  forallb on_contract (lines_events [l]) = true ->
  exists app',
    AppOriginal.process_line l app =
    if existsb fatal (lines_events [l]) then Throw app' else Next app'.
Proof.
  rewrite lines_events_cons. cbn [lines_events flat_map]. rewrite app_nil_r.
  unfold AppOriginal.process_line, line_event.
  destruct (negb (startsWith l (js "data:"))); [cbn; eauto|].
  destruct (is_empty _ || str_eqb _ _); [cbn; eauto|].
  destruct (JSON_parse _) as [parsed|]; [|cbn; eauto].
  cbn [forallb existsb fatal on_contract]. rewrite andb_true_r, orb_false_r. intro H.
  destruct (wire_typed_fields parsed H) as (_ & _ & Ht & Hf).
  assert (Hbody : exists app',
            match AppOriginal.token_branch parsed app with
            | Next app1 => AppOriginal.final_branch parsed app1
            | o => o
            end = Next app').
  { destruct (orig_token_branch_typed parsed app Ht) as [app1 ->].
    now apply orig_final_branch_typed. }
  unfold AppOriginal.parsed_body. destruct parsed; try exact Hbody. eauto.
Qed.

Lemma orig_for_lines_typed (lines : list jsstring) (app : AppState) :
  forallb on_contract (lines_events lines) = true ->
  exists app',
    AppOriginal.for_lines lines app =
    if existsb fatal (lines_events lines) then Throw app' else Next app'.
Proof.
  revert app. induction lines as [|l lines IH]; intros app H; [cbn; eauto|].
  change (l :: lines) with ([l] ++ lines) in H |- *.
  rewrite lines_events_app in H |- *. rewrite forallb_app in H. rewrite existsb_app.
  apply andb_true_iff in H. destruct H as [Hl Hls].
  cbn [List.app AppOriginal.for_lines].
  destruct (orig_process_line_typed l app Hl) as [app1 ->].
  destruct (existsb fatal (lines_events [l])); cbn [orb]; [eauto|]. now apply IH.
Qed.

Lemma orig_read_loop_typed (chunks : list (list byte)) (last : ReadEnd) (app : AppState) :
  forallb (forallb on_contract) (chunk_events chunks) = true ->
  exists app',
    AppOriginal.read_loop chunks last app =
    if request_throws (Response true chunks last) then Throw app' else Next app'.
Proof.
  revert app. induction chunks as [|value rest IH]; intros app H.
  - destruct last; cbn; eauto.
  - cbn [chunk_events map forallb] in H. apply andb_true_iff in H. destruct H as [Hv Hr].
    cbn [AppOriginal.read_loop request_throws chunk_events map existsb].
    destruct (orig_for_lines_typed (split (decode value) 10) app Hv) as [app1 ->].
    destruct (existsb fatal (lines_events (split (decode value) 10))); cbn [orb]; [eauto|].
    destruct (IH app1 Hr) as [app2 ->]. cbn [request_throws]. eauto.
Qed.

(** X17.  History is never rewritten (part_000 and App.original.jsx):
    when every payload of the body is on the wire contract, the call
    returns, whatever else the network does, and leaves the earlier
    entries as they were, followed by the user's message and exactly one
    assistant entry, which has an [answer] text; the input box is
    emptied. *)
Theorem X_history_is_kept_elsewhere (app : AppState) (net : Network) :
  is_empty (trim (input app)) || loading app = false ->
  read_on_contract net = true ->
  (exists app' m text,
     Part000.sendMessage app net = Some app' /\
     messages app' = messages app ++ [user_message (input app); m] /\
     role m = assistant /\ answer m = Some text /\ input app' = [])
  /\
  (exists app' m text,
     AppOriginal.sendMessage app net = Some app' /\
     messages app' = messages app ++ [user_message (input app); m] /\
     role m = assistant /\ answer m = Some text /\ input app' = []).
Proof.
  intros Hin Hnet. unfold Part000.sendMessage, AppOriginal.sendMessage. rewrite Hin.
  assert (H0 : answer_entry_ok (messages app ++ [user_message (input app)]) []
                 (Part000.submitted app)).
  { exists Part000.placeholder, true. unfold Part000.submitted. rewrite snoc2.
    split; [reflexivity|]. split; [reflexivity | cbn; eauto]. }
  assert (H1 : answer_entry_ok (messages app ++ [user_message (input app)]) []
                 (AppOriginal.submitted app)).
  { exists AppOriginal.placeholder, true. unfold AppOriginal.submitted. rewrite snoc2.
    split; [reflexivity|]. split; [reflexivity | cbn; eauto]. }
  assert (Hdone : forall a, answer_entry_ok (messages app ++ [user_message (input app)]) [] a ->
            exists app' m text,
              Some a = Some app' /\
              messages app' = messages app ++ [user_message (input app); m] /\
              role m = assistant /\ answer m = Some text /\ input app' = []).
  { intros a (m & ld & -> & Hr & text & Ha). eexists _, m, text.
    split; [reflexivity|]. cbn. now rewrite <- app_assoc. }
  split.
  - assert (Hp0 : keeps_answer_entry (messages app ++ [user_message (input app)]) []
                    (Part000.request net (Part000.submitted app))).
    { destruct net; cbn [Part000.request]; [exact H0 | now apply p0_read_loop_ok]. }
    assert (Hret : Part000.request net (Part000.submitted app) <> OffContract).
    { destruct net as [|ok chunks last]; cbn [Part000.request]; [discriminate|].
      rewrite p0_read_loop_events.
      destruct (p0_run_reads_typed (chunk_events chunks) last (Part000.submitted app) Hnet)
        as [a ->].
      destruct last; discriminate. }
    destruct (Part000.request net _) as [a|a|a|]; try congruence; try (now apply Hdone).
    apply Hdone. unfold Part000.on_catch. apply answer_entry_loading.
    apply answer_entry_set_last; [|exact Hp0].
    intros _ _. split; [reflexivity | cbn; eauto].
  - assert (Hor : keeps_answer_entry (messages app ++ [user_message (input app)]) []
                    (AppOriginal.request net (AppOriginal.submitted app))).
    { destruct net; cbn [AppOriginal.request]; [exact H1 | now apply orig_read_loop_ok]. }
    assert (Hret : AppOriginal.request net (AppOriginal.submitted app) <> OffContract).
    { destruct net as [|ok chunks last]; cbn [AppOriginal.request]; [discriminate|].
      destruct (orig_read_loop_typed chunks last (AppOriginal.submitted app) Hnet)
        as [a ->].
      destruct (request_throws _); discriminate. }
    destruct (AppOriginal.request net _) as [a|a|a|]; try congruence; try (now apply Hdone).
    apply Hdone. unfold AppOriginal.on_catch. apply answer_entry_loading.
    apply answer_entry_set_last; [|exact Hor].
    intros _ _. split; [reflexivity | cbn; eauto].
Qed.

Lemma X_history_elsewhere_witness :
  (exists app' m text,
     Part000.sendMessage app0 (Response true [line "data: not-json"] Closed) = Some app' /\
     messages app' = messages app0 ++ [user_message (input app0); m] /\
     role m = assistant /\ answer m = Some text /\ input app' = [])
  /\
  (exists app' m text,
     AppOriginal.sendMessage app0 (Response true [line "data: not-json"] Closed) = Some app' /\
     messages app' = messages app0 ++ [user_message (input app0); m] /\
     role m = assistant /\ answer m = Some text /\ input app' = []).
Proof.
  apply (X_history_is_kept_elsewhere app0 (Response true [line "data: not-json"] Closed)).
  - vm_compute. reflexivity.
  - vm_compute. reflexivity.
Defined.

(** *** The guard on the input, both ways *)

Lemma snoc2_longer {A : Type} (l : list A) (a b : A) : l ++ [a; b] <> l.
Proof.
  intro H. apply (f_equal (@List.length A)) in H. rewrite length_app in H. cbn in H. lia.
Qed.

Lemma p2_submitted_changes (app : AppState) (net : Network) :
  is_empty (trim (input app)) || loading app = false ->
  Part002.sendMessage app net <> Some app.
Proof.
  intros Hin. unfold Part002.sendMessage. rewrite Hin.
  pose proof (p2_request_ok app net) as H.
  destruct (Part002.request net _) as [st|st|st|]; try contradiction; try discriminate.
  - destruct H as [(m & ld & he & -> & _) _]. intro E. injection E as E.
    apply (f_equal messages) in E. cbn in E. rewrite <- app_assoc in E.
    now apply snoc2_longer in E.
  - destruct H as (m & ld & he & -> & _). intro E. injection E as E.
    apply (f_equal messages) in E. revert E.
    unfold Part002.on_catch. on_last_entry. cbn. rewrite <- app_assoc.
    apply snoc2_longer.
Qed.

Lemma answer_entry_changes (app a : AppState) :
  answer_entry_ok (messages app ++ [user_message (input app)]) [] a -> a <> app.
Proof.
  intros (m & ld & -> & _) E. apply (f_equal messages) in E. cbn in E.
  rewrite <- app_assoc in E. now apply snoc2_longer in E.
Qed.

Lemma p0_submitted_changes (app : AppState) (net : Network) :
  is_empty (trim (input app)) || loading app = false ->
  Part000.sendMessage app net <> Some app.
Proof.
  intros Hin. unfold Part000.sendMessage. rewrite Hin.
  assert (H0 : answer_entry_ok (messages app ++ [user_message (input app)]) []
                 (Part000.submitted app)).
  { exists Part000.placeholder, true. unfold Part000.submitted. rewrite snoc2.
    split; [reflexivity|]. split; [reflexivity | cbn; eauto]. }
  assert (Hp0 : keeps_answer_entry (messages app ++ [user_message (input app)]) []
                  (Part000.request net (Part000.submitted app))).
  { destruct net; cbn [Part000.request]; [exact H0 | now apply p0_read_loop_ok]. }
  destruct (Part000.request net _) as [a|a|a|]; try discriminate;
    intro E; injection E as E; revert E; apply answer_entry_changes; try exact Hp0.
  unfold Part000.on_catch. apply answer_entry_loading.
  apply answer_entry_set_last; [|exact Hp0].
  intros _ _. split; [reflexivity | cbn; eauto].
Qed.

Lemma orig_submitted_changes (app : AppState) (net : Network) :
  is_empty (trim (input app)) || loading app = false ->
  AppOriginal.sendMessage app net <> Some app.
Proof.
  intros Hin. unfold AppOriginal.sendMessage. rewrite Hin.
  assert (H0 : answer_entry_ok (messages app ++ [user_message (input app)]) []
                 (AppOriginal.submitted app)).
  { exists AppOriginal.placeholder, true. unfold AppOriginal.submitted. rewrite snoc2.
    split; [reflexivity|]. split; [reflexivity | cbn; eauto]. }
  assert (Hp0 : keeps_answer_entry (messages app ++ [user_message (input app)]) []
                  (AppOriginal.request net (AppOriginal.submitted app))).
  { destruct net; cbn [AppOriginal.request]; [exact H0 | now apply orig_read_loop_ok]. }
  destruct (AppOriginal.request net _) as [a|a|a|]; try discriminate;
    intro E; injection E as E; revert E; apply answer_entry_changes; try exact Hp0.
  unfold AppOriginal.on_catch. apply answer_entry_loading.
  apply answer_entry_set_last; [|exact Hp0].
  intros _ _. split; [reflexivity | cbn; eauto].
Qed.

(** X1.  The guard of [sendMessage] (part_002, part_000,
    App.original.jsx): whatever the network would answer, the call returns
    with the state unchanged exactly when the question is white space only
    or a request is in flight; any other question is submitted, and the
    state is not the same afterwards. *)
Theorem X_blank_question_is_not_sent (app : AppState) (net : Network) :
  (forallb isWhiteSpace (input app) = true \/ loading app = true <->
   Part002.sendMessage app net = Some app)
  /\
  (forallb isWhiteSpace (input app) = true \/ loading app = true <->
   Part000.sendMessage app net = Some app)
  /\
  (forallb isWhiteSpace (input app) = true \/ loading app = true <->
   AppOriginal.sendMessage app net = Some app).
Proof.
  assert (G : forallb isWhiteSpace (input app) = true \/ loading app = true <->
              is_empty (trim (input app)) || loading app = true).
  { rewrite orb_true_iff, trim_empty_iff. reflexivity. }
  repeat split; intro H.
  - apply G in H. unfold Part002.sendMessage. now rewrite H.
  - apply G. destruct (is_empty (trim (input app)) || loading app) eqn:E; [reflexivity|].
    now apply (p2_submitted_changes app net E) in H.
  - apply G in H. unfold Part000.sendMessage. now rewrite H.
  - apply G. destruct (is_empty (trim (input app)) || loading app) eqn:E; [reflexivity|].
    now apply (p0_submitted_changes app net E) in H.
  - apply G in H. unfold AppOriginal.sendMessage. now rewrite H.
  - apply G. destruct (is_empty (trim (input app)) || loading app) eqn:E; [reflexivity|].
    now apply (orig_submitted_changes app net E) in H.
Qed.

Lemma X_blank_question_witness :
  Part002.sendMessage (mkApp [] (js "  ") false) (Response true [line "data: [DONE]"] Closed)
    = Some (mkApp [] (js "  ") false).
Proof.
  apply (proj1 (proj1 (X_blank_question_is_not_sent (mkApp [] (js "  ") false)
                         (Response true [line "data: [DONE]"] Closed)))).
  left. vm_compute. reflexivity.
Defined.

(** *** Progress lines (part_002) *)

Lemma includes_app_l (a c p : jsstring) :
  includes a p = true -> includes (a ++ c) p = true.
Proof.
  induction a as [|y a IH]; intro H.
  - cbn in H. rewrite orb_false_r in H. destruct p; [apply includes_nil|discriminate].
  - cbn [includes] in H. apply orb_true_iff in H. destruct H as [H|H].
    + apply startsWith_includes. now apply (startsWith_app_l (y :: a)).
    + cbn [List.app]. apply includes_tail. now apply IH.
Qed.

Lemma includes_app_r (a b p : jsstring) :
  includes b p = true -> includes (a ++ b) p = true.
Proof.
  intro H. induction a as [|y a IH]; [exact H|]. cbn [List.app]. now apply includes_tail.
Qed.

Lemma includes_line (K1 K2 : list jsstring) (l p : jsstring) :
  includes l p = true -> includes (unlines (K1 ++ l :: K2)) p = true.
Proof.
  intro H. rewrite unlines_app. apply includes_app_r.
  unfold unlines. cbn [map concat]. rewrite <- app_assoc.
  now apply includes_app_l.
Qed.

Lemma lines_without (K : list jsstring) (p : jsstring) :
  includes (unlines K) p = false ->
  forallb (fun l => negb (includes l p)) K = true.
Proof.
  intro H. apply forallb_forall. intros l Hl.
  apply in_split in Hl. destruct Hl as (K1 & K2 & ->).
  destruct (includes l p) eqn:E; [|reflexivity].
  now rewrite (includes_line K1 K2 l p E) in H.
Qed.

Lemma repeat_snoc {A : Type} (x : A) (k : nat) : repeat x k ++ [x] = repeat x (S k).
Proof. induction k; cbn; [reflexivity|]. now rewrite IHk. Qed.

Lemma progress_first (msg : jsstring) (L : list jsstring) (m : Message) :
  answer m = Some (unlines L) ->
  includes (unlines L) Part002.PROGRESS_MARKER = false ->
  Part002.on_status (JObj [(js "status", JStr (js "chunk")); (js "message", JStr msg)]) msg m =
  banner m (unlines (L ++ [js "📝 " ++ msg])).
Proof.
  intros Ha Hno. rewrite p2_on_status_chunk, Ha. cbn [or_empty]. rewrite Hno.
  rewrite unlines_app, unlines_single. now rewrite <- app_assoc.
Qed.

Lemma progress_next (msg old : jsstring) (L : list jsstring) (k : nat) (m : Message) :
  answer m = Some (unlines (L ++ repeat [] k ++ [old])) ->
  Forall (fun l => ~ In 10 l) L ->
  includes (unlines L) Part002.PROGRESS_MARKER = false ->
  ~ In 10 old ->
  includes old Part002.PROGRESS_MARKER = true ->
  Part002.on_status (JObj [(js "status", JStr (js "chunk")); (js "message", JStr msg)]) msg m =
  banner m (unlines (L ++ repeat [] (S k) ++ [js "📝 " ++ msg])).
Proof.
  intros Ha HL Hno Hold Hmark. rewrite p2_on_status_chunk, Ha. cbn [or_empty].
  replace (L ++ repeat [] k ++ [old]) with ((L ++ repeat [] k) ++ old :: []) 
    by now rewrite <- app_assoc.
  rewrite (includes_line _ _ old _ Hmark).
  rewrite split_unlines.
  2:{ apply Forall_app. split; [apply Forall_app; split; [exact HL|]|].
      - apply Forall_forall. intros x Hx. apply repeat_spec in Hx. subst x. intros [].
      - constructor; [exact Hold|constructor]. }
  rewrite <- !app_assoc. rewrite !filter_app. cbn [filter List.app].
  rewrite Hmark. cbn [negb].
  change (includes [] Part002.PROGRESS_MARKER) with false. cbn [negb].
  rewrite (filter_all _ L) by now apply lines_without.
  rewrite (filter_all _ (repeat [] k)).
  2:{ apply forallb_forall. intros x Hx. apply repeat_spec in Hx. now subst x. }
  rewrite join_unlines.
  2:{ intro E. apply app_eq_nil in E. destruct E as [_ E]. discriminate. }
  cbn [List.app]. rewrite <- repeat_snoc. now rewrite <- !app_assoc.
Qed.

Lemma progress_line_ok (msg : jsstring) :
  ~ In 10 msg -> ~ In 10 (js "📝 " ++ msg).
Proof.
  intros H Hin. apply in_app_or in Hin. destruct Hin as [Hin|Hin]; [|contradiction].
  revert Hin. vm_compute. intuition discriminate.
Qed.

Lemma progress_updates
    (ms : list Message) (m : Message) (inp : jsstring) (ld he : bool)
    (L : list jsstring) (k : nat) (old : jsstring) (msgs : list jsstring) (last : jsstring) :
  answer m = Some (unlines (L ++ repeat [] k ++ [old])) ->
  Forall (fun l => ~ In 10 l) L ->
  includes (unlines L) Part002.PROGRESS_MARKER = false ->
  ~ In 10 old ->
  includes old Part002.PROGRESS_MARKER = true ->
  Forall (fun msg => ~ In 10 msg /\
                     includes (js "📝 " ++ msg) Part002.PROGRESS_MARKER = true)
         (msgs ++ [last]) ->
  Events002.run_events (map (Status (js "chunk")) (msgs ++ [last]))
    (tail_state ms m inp ld he) =
  Next (tail_state ms
          (banner m (unlines (L ++ repeat [] (S (List.length msgs + k))
                                ++ [js "📝 " ++ last])))
          inp ld he).
Proof.
  intros Ha HL Hno Hold Hmark Hmsgs.
  revert m k old Ha Hold Hmark.
  induction msgs as [|msg msgs IH]; intros m k old Ha Hold Hmark.
  - cbn [List.app map Events002.run_events].
    rewrite p2_status_shows by reflexivity.
    now rewrite (progress_next last old L k m).
  - cbn [List.app map Events002.run_events].
    rewrite p2_status_shows by reflexivity.
    rewrite (progress_next msg old L k m) by assumption.
    inversion Hmsgs as [|? ? [H1 H2] Hrest]; subst.
    rewrite (IH Hrest _ (S k) (js "📝 " ++ msg)); 
      [|reflexivity|now apply progress_line_ok|exact H2].
    cbn [List.length]. now rewrite Nat.add_succ_r.
Qed.

Lemma startsWith_before_sep (x y p : jsstring) :
  ~ In 10 p -> startsWith (x ++ 10 :: y) p = startsWith x p.
Proof.
  revert x. induction p as [|c p IH]; intros x Hp.
  - now rewrite !startsWith_nil.
  - destruct x as [|d x]; cbn [List.app startsWith].
    + destruct (Z.eqb_spec 10 c) as [<-|_]; [exfalso; apply Hp; now left | reflexivity].
    + rewrite IH; [reflexivity|]. intro H. apply Hp. now right.
Qed.

Lemma includes_app_sep (x y p : jsstring) :
  ~ In 10 p -> includes (x ++ 10 :: y) p = includes x p || includes y p.
Proof.
  intro Hp. induction x as [|d x IH].
  - pose proof (startsWith_before_sep [] y p Hp) as H. cbn [List.app] in H |- *.
    cbn [includes]. rewrite H. now rewrite orb_false_r.
  - pose proof (startsWith_before_sep (d :: x) y p Hp) as H. cbn [List.app] in H |- *.
    cbn [includes]. rewrite H, IH. now rewrite orb_assoc.
Qed.

(** A pattern without line feed occurs in a text of lines exactly when it
    occurs in one of the lines. *)
Lemma includes_unlines (K : list jsstring) (p : jsstring) :
  ~ In 10 p -> p <> [] ->
  includes (unlines K) p = existsb (fun l => includes l p) K.
Proof.
  intros Hp Hne. induction K as [|l K IH].
  - destruct p; [congruence|reflexivity].
  - unfold unlines in *. cbn [map concat existsb]. unfold NL at 1.
    rewrite <- app_assoc. cbn [List.app]. now rewrite includes_app_sep, IH.
Qed.

Lemma progress_marker_ok :
  ~ In 10 Part002.PROGRESS_MARKER /\ Part002.PROGRESS_MARKER <> [].
Proof. split; [vm_compute; intuition discriminate | discriminate]. Qed.

Lemma progress_appended
    (ms : list Message) (inp : jsstring) (ld he : bool) (msgs : list jsstring) :
  forall (m : Message) (L : list jsstring),
  answer m = Some (unlines L) ->
  includes (unlines L) Part002.PROGRESS_MARKER = false ->
  Forall (fun msg => includes (js "📝 " ++ msg) Part002.PROGRESS_MARKER = false) msgs ->
  Events002.run_events (map (Status (js "chunk")) msgs) (tail_state ms m inp ld he) =
  Next (tail_state ms
          (match msgs with
           | [] => m
           | _ => banner m (unlines (L ++ map (fun msg => js "📝 " ++ msg) msgs))
           end) inp ld he).
Proof.
  induction msgs as [|msg msgs IH]; intros m L Ha Hno Hmsgs; [reflexivity|].
  inversion Hmsgs as [|? ? Hmsg Hrest]; subst.
  cbn [map Events002.run_events].
  rewrite p2_status_shows by reflexivity.
  rewrite (progress_first msg L m Ha Hno).
  rewrite (IH (banner m (unlines (L ++ [js "📝 " ++ msg]))) (L ++ [js "📝 " ++ msg]));
    [|reflexivity| |exact Hrest].
  - destruct msgs; [reflexivity|]. cbn [map]. rewrite <- app_assoc. reflexivity.
  - destruct progress_marker_ok as [H1 H2].
    rewrite includes_unlines in Hno |- * by assumption.
    rewrite existsb_app, Hno. cbn [existsb]. now rewrite Hmsg.
Qed.

(** X16.  Progress updates, on a text of complete lines that does not
    hold the progress marker.  When the line of every [chunk] status
    holds the marker (the message starts with the words of the marker)
    and no message holds a line feed, any number of them leaves the lines
    that were there, then one empty line for each update but the last,
    then the last progress line alone: the line is replaced, and every
    update after the first adds an empty line above it.  When no line of
    the statuses holds the marker, nothing is replaced: every progress
    line is appended below the one before. *)
Theorem X_progress_line_is_replaced
    (ms : list Message) (m : Message) (inp : jsstring) (ld he : bool)
    (L : list jsstring) (msgs : list jsstring) (last : jsstring) :
  answer m = Some (unlines L) ->
  Forall (fun l => ~ In 10 l) L ->
  includes (unlines L) Part002.PROGRESS_MARKER = false ->
  (Forall (fun msg => ~ In 10 msg /\
                      includes (js "📝 " ++ msg) Part002.PROGRESS_MARKER = true)
          (msgs ++ [last]) ->
   Events002.run_events (map (Status (js "chunk")) (msgs ++ [last]))
     (tail_state ms m inp ld he) =
   Next (tail_state ms
           (banner m (unlines (L ++ repeat [] (List.length msgs) ++ [js "📝 " ++ last])))
           inp ld he))
  /\
  (Forall (fun msg => includes (js "📝 " ++ msg) Part002.PROGRESS_MARKER = false)
          (msgs ++ [last]) ->
   Events002.run_events (map (Status (js "chunk")) (msgs ++ [last]))
     (tail_state ms m inp ld he) =
   Next (tail_state ms
           (banner m (unlines (L ++ map (fun msg => js "📝 " ++ msg) (msgs ++ [last]))))
           inp ld he)).
Proof.
  intros Ha HL Hno. split.
  - intro Hmsgs. destruct msgs as [|msg msgs].
    + cbn [List.app map Events002.run_events List.length repeat].
      rewrite p2_status_shows by reflexivity.
      now rewrite (progress_first last L m).
    + cbn [List.app map Events002.run_events].
      rewrite p2_status_shows by reflexivity.
      rewrite (progress_first msg L m) by assumption.
      inversion Hmsgs as [|? ? [H1 H2] Hrest]; subst.
      rewrite (progress_updates ms _ inp ld he L 0 (js "📝 " ++ msg) msgs last);
        [|reflexivity|exact HL|exact Hno|now apply progress_line_ok|exact H2|exact Hrest].
      cbn [List.length]. now rewrite Nat.add_0_r.
  - intro Hmsgs.
    rewrite (progress_appended ms inp ld he (msgs ++ [last]) m L Ha Hno Hmsgs).
    destruct (msgs ++ [last]) eqn:E; [|reflexivity].
    destruct msgs; discriminate.
Qed.

Lemma X_progress_witness :
  Events002.run_events
    (map (Status (js "chunk"))
         ([js "Summarizing chunk 1/3"; js "Summarizing chunk 2/3"]
          ++ [js "Summarizing chunk 3/3"]))
    (tail_state [] (banner Part002.placeholder (unlines [js "📄 Splitting"])) [] true false) =
  Next (tail_state []
          (banner (banner Part002.placeholder (unlines [js "📄 Splitting"]))
             (unlines ([js "📄 Splitting"]
                       ++ repeat [] (List.length [js "Summarizing chunk 1/3";
                                                  js "Summarizing chunk 2/3"])
                       ++ [js "📝 " ++ js "Summarizing chunk 3/3"])))
          [] true false).
Proof.
  destruct (X_progress_line_is_replaced [] 
              (banner Part002.placeholder (unlines [js "📄 Splitting"])) [] true false
              [js "📄 Splitting"]
              [js "Summarizing chunk 1/3"; js "Summarizing chunk 2/3"]
              (js "Summarizing chunk 3/3")) as [H _].
  - reflexivity.
  - constructor; [|constructor]. vm_compute. intuition discriminate.
  - vm_compute. reflexivity.
  - apply H.
    repeat constructor; try (vm_compute; reflexivity);
      vm_compute; intuition discriminate.
Defined.

(* ===================================================================== *)
(** ** Properties of the file list *)
(* ===================================================================== *)

Lemma prop_not_null (data : JSON) (k : jsstring) (v : JSON) :
  prop data k = Some v -> exists fs, data = JObj fs.
Proof. destruct data; try discriminate. eauto. Qed.

(** X9.  The listing replaces the list or leaves it alone: [loadFiles] either
    keeps the list as it was, or the reply holds an array [files] without
    [null] elements and the list becomes, in order, the [name] of each
    element, whatever the list held before.  One [null] element is enough
    to discard the whole listing; an empty array clears the list. *)
Theorem X_loadFiles_all_or_nothing (reply : Files.Reply) (files : list (option JSON)) :
  (Files.loadFiles reply files = files \/
   exists data l,
     reply = Files.Json data /\ prop data (js "files") = Some (JArr l) /\
     Forall (fun f => f <> JNull) l /\
     Files.loadFiles reply files = map (fun f => prop f (js "name")) l)
  /\
  (forall data l,
     prop data (js "files") = Some (JArr l) ->
     In JNull l -> Files.loadFiles (Files.Json data) files = files)
  /\
  (forall data,
     prop data (js "files") = Some (JArr []) -> Files.loadFiles (Files.Json data) files = []).
Proof.
  split; [|split].
  - destruct reply as [|data]; [now left|].
    destruct data as [| | | | |fs]; try (now left).
    cbn [Files.loadFiles].
    destruct (prop (JObj fs) (js "files")) as [[| | | |l|]|] eqn:E; try (now left).
    destruct (existsb Files.is_null l) eqn:N; [now left|].
    right. exists (JObj fs), l. repeat split; try assumption.
    apply Forall_forall. intros f Hf ->.
    assert (existsb Files.is_null l = true) by (apply existsb_exists; now exists JNull).
    congruence.
  - intros data l Hp Hin. destruct (prop_not_null _ _ _ Hp) as [fs ->].
    cbn [Files.loadFiles]. rewrite Hp.
    replace (existsb Files.is_null l) with true; [reflexivity|].
    symmetry. apply existsb_exists. now exists JNull.
  - intros data Hp. destruct (prop_not_null _ _ _ Hp) as [fs ->].
    cbn [Files.loadFiles]. now rewrite Hp.
Qed.

Lemma X_loadFiles_witness :
  Files.loadFiles
    (Files.Json (JObj [(js "files", JArr [JObj [(js "name", JStr (js "a.txt"))]; JNull])]))
    [Some (JStr (js "old.txt"))] =
  [Some (JStr (js "old.txt"))].
Proof.
  apply (proj1 (proj2 (X_loadFiles_all_or_nothing Files.NoReply
                         [Some (JStr (js "old.txt"))]))
           (JObj [(js "files", JArr [JObj [(js "name", JStr (js "a.txt"))]; JNull])])
           [JObj [(js "name", JStr (js "a.txt"))]; JNull]).
  - reflexivity.
  - cbn. auto.
Defined.

Lemma upload_request_outcome (upload listing : Files.Reply) (s s' : Files.Sidebar) :
  Files.upload_request upload listing s = Some s' ->
  Files.uploading s' = Files.uploading s /\
  (exists a, Files.alerts s' = Files.alerts s ++ [a]) /\
  (Files.uploadedFiles s' = Files.uploadedFiles s \/
   Files.uploadedFiles s' = Files.loadFiles listing (Files.uploadedFiles s)).
Proof.
  unfold Files.upload_request.
  assert (Hal : forall a t, Some (Files.alert a t) = Some s' ->
            Files.uploading s' = Files.uploading t /\
            (exists b, Files.alerts s' = Files.alerts t ++ [b]) /\
            Files.uploadedFiles s' = Files.uploadedFiles t).
  { intros a t E. injection E as <-. cbn. eauto. }
  destruct upload as [|data].
  { intro E. apply Hal in E. intuition. }
  assert (Hbody :
    match prop data (js "files") with
    | Some v =>
        if truthy v then
          match Files.greater_than_zero (Files.length_of v) with
          | Some true =>
              let s1 := Files.setUploadedFiles (Files.loadFiles listing) s in
              match v with
              | JArr l =>
                  Some (Files.alert (Files.UploadSucceeded (prop data (js "count")) l) s1)
              | _ => Some (Files.alert Files.UploadError s1)
              end
          | Some false => Some (Files.alert Files.UploadFailed s)
          | None => None
          end
        else Some (Files.alert Files.UploadFailed s)
    | None => Some (Files.alert Files.UploadFailed s)
    end = Some s' ->
    Files.uploading s' = Files.uploading s /\
    (exists a, Files.alerts s' = Files.alerts s ++ [a]) /\
    (Files.uploadedFiles s' = Files.uploadedFiles s \/
     Files.uploadedFiles s' = Files.loadFiles listing (Files.uploadedFiles s))).
  { destruct (prop data (js "files")) as [v|]; [|intro E; apply Hal in E; intuition].
    destruct (truthy v); [|intro E; apply Hal in E; intuition].
    destruct (Files.greater_than_zero _) as [[|]|]; try discriminate;
      [|intro E; apply Hal in E; intuition].
    cbv zeta. destruct v; intro E; apply Hal in E; cbn in E; intuition. }
  destruct data; try exact Hbody. intro E. apply Hal in E. intuition.
Qed.

(** X10.  Every upload reports once: with a non-empty selection, whatever the
    two replies are, [uploadFiles] ends with [uploading] false, has raised
    exactly one alert, and has left the list as it was or as [loadFiles]
    makes it.  When the reply names a non-empty array of files, the alert
    announces the success and the list is what [loadFiles] makes of the
    listing: if the listing fails, the success is announced over the old
    list.  With an empty selection nothing happens. *)
Theorem X_upload_reports_once
    (files : list jsstring) (upload listing : Files.Reply) (s : Files.Sidebar) :
  (files <> [] ->
   forall s', Files.uploadFiles files upload listing s = Some s' ->
     Files.uploading s' = false /\
     (exists a, Files.alerts s' = Files.alerts s ++ [a]) /\
     (Files.uploadedFiles s' = Files.uploadedFiles s \/
      Files.uploadedFiles s' = Files.loadFiles listing (Files.uploadedFiles s)))
  /\
  (files <> [] ->
   forall data l,
     upload = Files.Json data -> prop data (js "files") = Some (JArr l) -> l <> [] ->
     Files.uploadFiles files upload listing s =
       Some (Files.mkSidebar (Files.loadFiles listing (Files.uploadedFiles s)) false
               (Files.alerts s ++ [Files.UploadSucceeded (prop data (js "count")) l])) /\
     Files.loadFiles Files.NoReply (Files.uploadedFiles s) = Files.uploadedFiles s)
  /\
  Files.uploadFiles [] upload listing s = Some s.
Proof.
  split; [|split; [|reflexivity]].
  - intros Hne s'. destruct files as [|f files]; [congruence|].
    cbn [Files.uploadFiles].
    destruct (Files.upload_request _ _ _) as [s1|] eqn:E; [|discriminate].
    intro E'. injection E' as <-.
    apply upload_request_outcome in E. cbn in E |- *. intuition.
  - intros Hne data l -> Hp Hl. split; [|reflexivity].
    destruct files as [|f files]; [congruence|].
    destruct (prop_not_null _ _ _ Hp) as [fs ->].
    cbn [Files.uploadFiles Files.upload_request]. rewrite Hp.
    destruct l as [|x l]; [congruence|]. reflexivity.
Qed.

Lemma X_upload_witness :
  Files.uploadFiles [js "a.txt"]
    (Files.Json (JObj [(js "files", JArr [JStr (js "a.txt")]); (js "count", JNum 1 0)]))
    Files.NoReply (Files.mkSidebar [] false []) =
    Some (Files.mkSidebar [] false
            [Files.UploadSucceeded (Some (JNum 1 0)) [JStr (js "a.txt")]]).
Proof.
  refine (proj1 (proj1 (proj2 (X_upload_reports_once [js "a.txt"]
            (Files.Json (JObj [(js "files", JArr [JStr (js "a.txt")]); (js "count", JNum 1 0)]))
            Files.NoReply (Files.mkSidebar [] false [])))
          _ _ [JStr (js "a.txt")] eq_refl eq_refl _)); discriminate.
Defined.

(** X11.  Deleting relies on the listing: a declined confirmation changes
    nothing; a reply whose [status] is [deleted] raises the alert and
    leaves the list to [loadFiles], so that the deleted name stays listed
    when the listing fails; any other reply that is an object changes
    nothing and raises no alert. *)
Theorem X_delete_relies_on_listing
    (filename : option JSON) (deletion listing : Files.Reply) (s : Files.Sidebar) :
  Files.deleteFile filename false deletion listing s = s
  /\
  (forall data,
     deletion = Files.Json data ->
     prop data (js "status") = Some (JStr (js "deleted")) ->
     Files.deleteFile filename true deletion listing s =
       Files.mkSidebar (Files.loadFiles listing (Files.uploadedFiles s)) (Files.uploading s)
         (Files.alerts s ++ [Files.Deleted filename]) /\
     Files.uploadedFiles (Files.deleteFile filename true deletion Files.NoReply s) =
       Files.uploadedFiles s)
  /\
  (forall fs,
     deletion = Files.Json (JObj fs) ->
     is_string (prop (JObj fs) (js "status")) (js "deleted") = false ->
     Files.deleteFile filename true deletion listing s = s).
Proof.
  split; [reflexivity|split].
  - intros data -> Hp. destruct (prop_not_null _ _ _ Hp) as [fs ->].
    cbn [Files.deleteFile negb]. rewrite Hp. cbn [is_string].
    rewrite str_eqb_refl. split; reflexivity.
  - intros fs -> Hs. cbn [Files.deleteFile negb]. now rewrite Hs.
Qed.

Lemma X_delete_witness :
  Files.deleteFile (Some (JStr (js "a.txt"))) true
    (Files.Json (JObj [(js "status", JStr (js "deleted"))])) Files.NoReply
    (Files.mkSidebar [Some (JStr (js "a.txt"))] false []) =
  Files.mkSidebar [Some (JStr (js "a.txt"))] false [Files.Deleted (Some (JStr (js "a.txt")))].
Proof.
  apply (proj1 (proj1 (proj2 (X_delete_relies_on_listing (Some (JStr (js "a.txt")))
            (Files.Json (JObj [(js "status", JStr (js "deleted"))])) Files.NoReply
            (Files.mkSidebar [Some (JStr (js "a.txt"))] false [])))
          (JObj [(js "status", JStr (js "deleted"))]) eq_refl eq_refl)).
Defined.

(* ===================================================================== *)
(** ** Properties of the clinical dashboard *)
(* ===================================================================== *)

(** *** Section completeness *)

Lemma is_string_eq (v : JSON) (lit : jsstring) :
  is_string (Some v) lit = true <-> v = JStr lit.
Proof.
  destruct v; cbn; split; intro H; try discriminate.
  - apply str_eqb_eq in H. now subst.
  - injection H as ->. apply str_eqb_refl.
Qed.

Lemma str_eqb_sym (a b : jsstring) : str_eqb a b = str_eqb b a.
Proof.
  destruct (str_eqb a b) eqn:E.
  - apply str_eqb_eq in E. subst. symmetry. apply str_eqb_refl.
  - destruct (str_eqb b a) eqn:E'; [|reflexivity].
    apply str_eqb_eq in E'. subst. now rewrite str_eqb_refl in E.
Qed.

(** The three known statuses, by level. *)
Lemma known_status_cases (v : JSON) :
  ClinicalVisualizations.known_status v = true ->
  (v = JStr (js "present") /\ ClinicalVisualizations.status_level v = 3%nat) \/
  (v = JStr (js "partial") /\ ClinicalVisualizations.status_level v = 2%nat) \/
  (v = JStr (js "not_mentioned") /\ ClinicalVisualizations.status_level v = 1%nat).
Proof.
  unfold ClinicalVisualizations.known_status. intro H.
  apply orb_true_iff in H. destruct H as [H|H]; [apply orb_true_iff in H; destruct H as [H|H]|];
    apply is_string_eq in H; subst v; auto.
Qed.

Lemma known_status_truthy (v : JSON) : ClinicalVisualizations.known_status v = true -> truthy v = true.
Proof.
  intro H. destruct (known_status_cases v H) as [[-> _]|[[-> _]|[-> _]]]; reflexivity.
Qed.

Lemma best_status_ext (P Q : JSON -> Prop) (o : option JSON) :
  (forall s, P s <-> Q s) -> ClinicalVisualizations.best_status P o -> ClinicalVisualizations.best_status Q o.
Proof.
  intros H. destruct o as [v|]; cbn.
  - intros (Hv & Hk & Hmax). split; [now apply H|]. split; [exact Hk|].
    intros s Hs. apply Hmax. now apply H.
  - intros Hn s Hs. apply (Hn s). now apply H.
Qed.

Lemma own_assign_other (acc : ClinicalVisualizations.Sections) (k key : jsstring) (s : JSON) :
  str_eqb k key = false -> ClinicalVisualizations.own (ClinicalVisualizations.assign acc k s) key = ClinicalVisualizations.own acc key.
Proof.
  intro H. unfold ClinicalVisualizations.assign. destruct (str_eqb k (js "__proto__")); [reflexivity|].
  cbn [ClinicalVisualizations.own]. now rewrite H.
Qed.

Lemma merge_status_other (acc : ClinicalVisualizations.Sections) (k key : jsstring) (s : JSON) :
  str_eqb k key = false -> ClinicalVisualizations.own (ClinicalVisualizations.merge_status acc k s) key = ClinicalVisualizations.own acc key.
Proof.
  intro H. unfold ClinicalVisualizations.merge_status.
  destruct (ClinicalVisualizations.own acc k) as [cur|].
  - repeat match goal with
           | |- context [if ?c then _ else _] => destruct c
           end; try reflexivity; now apply own_assign_other.
  - repeat match goal with
           | |- context [if ?c then _ else _] => destruct c
           end; try reflexivity; try (now apply own_assign_other).
    cbn [ClinicalVisualizations.own]. now rewrite H.
Qed.

Lemma inherited_proto (key : jsstring) :
  ClinicalVisualizations.inherited key = false -> str_eqb key (js "__proto__") = false.
Proof.
  intro H. destruct (str_eqb key (js "__proto__")) eqn:E; [|reflexivity].
  apply str_eqb_eq in E. subst key. discriminate.
Qed.

Lemma own_assign_same (acc : ClinicalVisualizations.Sections) (key : jsstring) (s : JSON) :
  ClinicalVisualizations.inherited key = false -> ClinicalVisualizations.own (ClinicalVisualizations.assign acc key s) key = Some s.
Proof.
  intro H. unfold ClinicalVisualizations.assign. rewrite (inherited_proto key H).
  cbn [ClinicalVisualizations.own]. now rewrite str_eqb_refl.
Qed.

Lemma merge_status_best (P : JSON -> Prop) (acc : ClinicalVisualizations.Sections) (key : jsstring) (s : JSON) :
  ClinicalVisualizations.inherited key = false ->
  ClinicalVisualizations.known_status s = true ->
  ClinicalVisualizations.best_status P (ClinicalVisualizations.own acc key) ->
  ClinicalVisualizations.best_status (fun x => P x \/ x = s) (ClinicalVisualizations.own (ClinicalVisualizations.merge_status acc key s) key).
Proof.
  intros Hin Hs Hb. unfold ClinicalVisualizations.merge_status.
  destruct (ClinicalVisualizations.own acc key) as [cur|] eqn:E.
  - destruct Hb as (Hcur & Hk & Hmax).
    rewrite (known_status_truthy cur Hk). cbn [negb].
    destruct (known_status_cases s Hs) as [[-> Ls]|[[-> Ls]|[-> Ls]]];
      destruct (known_status_cases cur Hk) as [[-> Lc]|[[-> Lc]|[-> Lc]]];
      cbn [is_string]; 
      repeat match goal with
             | |- context [str_eqb ?a ?b] =>
                 let r := eval vm_compute in (str_eqb a b) in
                 change (str_eqb a b) with r
             end;
      cbn [andb negb];
      rewrite ?(own_assign_same _ _ _ Hin), ?E; cbn [ClinicalVisualizations.best_status];
      (split; [auto|]); (split; [reflexivity|]);
      intros x [Hx| ->]; try (rewrite ?Ls, ?Lc; lia);
      try (specialize (Hmax x Hx); rewrite ?Lc in Hmax; rewrite ?Ls; lia).
  - rewrite Hin. cbn [ClinicalVisualizations.own]. rewrite str_eqb_refl. cbn [ClinicalVisualizations.best_status] in *.
    split; [now right|]. split; [exact Hs|].
    intros x [Hx| ->]; [now apply Hb in Hx | lia].
Qed.

Lemma merge_file_best (P : JSON -> Prop) (es : list (jsstring * JSON)) (acc : ClinicalVisualizations.Sections)
    (key : jsstring) :
  ClinicalVisualizations.inherited key = false ->
  (forall s, In (key, s) es -> ClinicalVisualizations.known_status s = true) ->
  ClinicalVisualizations.best_status P (ClinicalVisualizations.own acc key) ->
  ClinicalVisualizations.best_status (fun x => P x \/ In (key, x) es) (ClinicalVisualizations.own (ClinicalVisualizations.merge_file es acc) key).
Proof.
  intros Hin. revert P acc. induction es as [|[k s] es IH]; intros P acc Hk Hb.
  - cbn. apply (best_status_ext P); [|exact Hb]. intuition.
  - cbn [ClinicalVisualizations.merge_file fold_left fst snd].
    change (fold_left _ es ?a) with (ClinicalVisualizations.merge_file es a).
    destruct (str_eqb k key) eqn:E.
    + apply str_eqb_eq in E. subst k.
      apply (best_status_ext (fun x => (P x \/ x = s) \/ In (key, x) es)).
      { intro x. cbn [In]. split.
        - intros [[H|H]|H]; auto. subst. auto.
        - intros [H|[H|H]]; auto. injection H as <-. auto. }
      apply IH; [intros x Hx; apply Hk; now right|].
      apply merge_status_best; [exact Hin | apply Hk; now left | exact Hb].
    + apply (best_status_ext (fun x => P x \/ In (key, x) es)).
      { intro x. cbn [In]. split.
        - intros [H|H]; auto.
        - intros [H|[H|H]]; auto. injection H as -> ->.
          now rewrite str_eqb_refl in E. }
      apply IH; [intros x Hx; apply Hk; now right|].
      now rewrite merge_status_other.
Qed.

Lemma merge_files_best (P : JSON -> Prop) (files : list (jsstring * JSON))
    (acc acc' : ClinicalVisualizations.Sections) (key : jsstring) :
  ClinicalVisualizations.inherited key = false ->
  ClinicalVisualizations.merge_files files acc = Some acc' ->
  (forall fn fsec es s,
     In (fn, fsec) files -> ClinicalVisualizations.entries fsec = Some es -> In (key, s) es ->
     ClinicalVisualizations.known_status s = true) ->
  ClinicalVisualizations.best_status P (ClinicalVisualizations.own acc key) ->
  ClinicalVisualizations.best_status
    (fun x => P x \/ exists fn fsec es,
                In (fn, fsec) files /\ ClinicalVisualizations.entries fsec = Some es /\ In (key, x) es)
    (ClinicalVisualizations.own acc' key).
Proof.
  intros Hin. revert P acc. induction files as [|[fn fsec] files IH]; intros P acc Hm Hk Hb.
  - cbn in Hm. injection Hm as <-. apply (best_status_ext P); [|exact Hb].
    intro x. split; [auto|]. intros [H|(? & ? & ? & [] & _)]. exact H.
  - cbn [ClinicalVisualizations.merge_files] in Hm. destruct (ClinicalVisualizations.entries fsec) as [es|] eqn:E; [|discriminate].
    apply (best_status_ext
             (fun x => (P x \/ In (key, x) es) \/
                       exists fn' fsec' es',
                         In (fn', fsec') files /\ ClinicalVisualizations.entries fsec' = Some es' /\
                         In (key, x) es')).
    { intro x. split.
      - intros [[H|H]|(fn' & fsec' & es' & H1 & H2 & H3)]; auto.
        + right. exists fn, fsec, es. cbn [In]. auto.
        + right. exists fn', fsec', es'. cbn [In]. auto.
      - intros [H|(fn' & fsec' & es' & [H1|H1] & H2 & H3)]; auto.
        + injection H1 as <- <-. rewrite E in H2. injection H2 as <-. auto.
        + right. exists fn', fsec', es'. auto. }
    apply (IH _ _ Hm).
    + intros fn' fsec' es' s H1 H2 H3. apply (Hk fn' fsec' es' s); cbn [In]; auto.
    + apply merge_file_best; [exact Hin| |exact Hb].
      intros s Hs. apply (Hk fn fsec es s); cbn [In]; auto.
Qed.

Lemma combine_best (sections : option JSON) (acc : ClinicalVisualizations.Sections) (key : jsstring) :
  ClinicalVisualizations.inherited key = false ->
  ClinicalVisualizations.combine sections = Some acc ->
  (forall s, ClinicalVisualizations.reported sections key s -> ClinicalVisualizations.known_status s = true) ->
  ClinicalVisualizations.best_status (ClinicalVisualizations.reported sections key) (ClinicalVisualizations.own acc key).
Proof.
  intros Hin Hc Hk.
  assert (Hm : ClinicalVisualizations.merge_files (ClinicalVisualizations.files_of sections) [] = Some acc).
  { destruct sections as [[| | | | |]|]; cbn in Hc |- *; exact Hc. }
  apply (best_status_ext
           (fun x => False \/ exists fn fsec es,
                       In (fn, fsec) (ClinicalVisualizations.files_of sections) /\
                       ClinicalVisualizations.entries fsec = Some es /\ In (key, x) es)).
  { intro x. unfold ClinicalVisualizations.reported. intuition. }
  apply (merge_files_best _ _ [] acc key Hin Hm).
  - intros fn fsec es s H1 H2 H3. apply Hk. now exists fn, fsec, es.
  - cbn. auto.
Qed.

Lemma section_labels_own (key label : jsstring) :
  In (key, label) ClinicalVisualizations.sectionLabels -> ClinicalVisualizations.inherited key = false.
Proof.
  intro H. cbv [ClinicalVisualizations.sectionLabels] in H. cbn [In] in H.
  repeat (destruct H as [H|H]; [injection H as <- _; vm_compute; reflexivity|]).
  destruct H.
Qed.

(** X12.  The grid shows the best report: for each of the eleven sections, when
    every status the files report for it is one of [present], [partial]
    and [not_mentioned], the row shows [present] if some file reports
    [present], else [partial] if some file reports [partial], else
    [not_mentioned] (also when no file mentions the section), with the
    colour and text of that status; the order of the files and of their
    sections does not matter. *)
Theorem X_section_shows_best_report
    (sections : option JSON) (items : list ClinicalVisualizations.SectionItem) (key label : jsstring) :
  ClinicalVisualizations.SectionCompleteness sections = Some items ->
  In (key, label) ClinicalVisualizations.sectionLabels ->
  (forall status, ClinicalVisualizations.reported sections key status -> ClinicalVisualizations.known_status status = true) ->
  exists status,
    In (ClinicalVisualizations.mkSectionItem label (ClinicalVisualizations.getStatusColor status) (ClinicalVisualizations.getStatusLabel status)) items /\
    (ClinicalVisualizations.reported sections key (JStr (js "present")) -> status = JStr (js "present")) /\
    (~ ClinicalVisualizations.reported sections key (JStr (js "present")) ->
     ClinicalVisualizations.reported sections key (JStr (js "partial")) -> status = JStr (js "partial")) /\
    (~ ClinicalVisualizations.reported sections key (JStr (js "present")) ->
     ~ ClinicalVisualizations.reported sections key (JStr (js "partial")) ->
     status = JStr (js "not_mentioned")).
Proof.
  intros Hs Hin Hk. unfold ClinicalVisualizations.SectionCompleteness in Hs.
  destruct (ClinicalVisualizations.combine sections) as [acc|] eqn:Hc; [|discriminate].
  injection Hs as <-.
  pose proof (combine_best sections acc key (section_labels_own key label Hin) Hc Hk) as Hb.
  exists (or_default (ClinicalVisualizations.own acc key) (JStr (js "not_mentioned"))).
  split.
  { apply (in_map (ClinicalVisualizations.section_item acc)) in Hin. exact Hin. }
  destruct (ClinicalVisualizations.own acc key) as [v|]; cbn [ClinicalVisualizations.best_status or_default] in *.
  - destruct Hb as (Hv & Hkv & Hmax). rewrite (known_status_truthy v Hkv).
    destruct (known_status_cases v Hkv) as [[-> Lv]|[[-> Lv]|[-> Lv]]].
    + repeat split; auto; intros; contradiction.
    + repeat split; auto.
      * intro Hp. apply Hmax in Hp. rewrite Lv in Hp. cbn in Hp. lia.
      * intros; contradiction.
    + repeat split; auto.
      * intro Hp. apply Hmax in Hp. rewrite Lv in Hp. cbn in Hp. lia.
      * intros _ Hp. apply Hmax in Hp. rewrite Lv in Hp. cbn in Hp. lia.
  - repeat split; auto.
    + intro Hp. now apply Hb in Hp.
    + intros _ Hp. now apply Hb in Hp.
Qed.

Lemma X_section_witness :
  exists status,
    In (ClinicalVisualizations.mkSectionItem (js "Plan") (ClinicalVisualizations.getStatusColor status) (ClinicalVisualizations.getStatusLabel status))
       (map (ClinicalVisualizations.section_item [(js "allergies", JStr (js "not_mentioned"));
                              (js "plan", JStr (js "present"));
                              (js "plan", JStr (js "partial"))]) ClinicalVisualizations.sectionLabels) /\
    (ClinicalVisualizations.reported ClinicalVisualizations.two_files (js "plan") (JStr (js "present")) -> status = JStr (js "present")) /\
    (~ ClinicalVisualizations.reported ClinicalVisualizations.two_files (js "plan") (JStr (js "present")) ->
     ClinicalVisualizations.reported ClinicalVisualizations.two_files (js "plan") (JStr (js "partial")) -> status = JStr (js "partial")) /\
    (~ ClinicalVisualizations.reported ClinicalVisualizations.two_files (js "plan") (JStr (js "present")) ->
     ~ ClinicalVisualizations.reported ClinicalVisualizations.two_files (js "plan") (JStr (js "partial")) ->
     status = JStr (js "not_mentioned")).
Proof.
  apply (X_section_shows_best_report ClinicalVisualizations.two_files _ (js "plan") (js "Plan")).
  - vm_compute. reflexivity.
  - vm_compute. tauto.
  - intros status (fn & fsec & es & Hf & He & Hs).
    vm_compute in Hf. destruct Hf as [Hf|[Hf|[]]]; injection Hf as <- <-;
      vm_compute in He; injection He as <-; vm_compute in Hs.
    + destruct Hs as [Hs|[]]. injection Hs as <-. reflexivity.
    + destruct Hs as [Hs|[Hs|[]]]; [injection Hs as <-; reflexivity | discriminate].
Defined.

Lemma entries_none (v : JSON) : ClinicalVisualizations.entries v = None <-> v = JNull.
Proof. destruct v; cbn; split; intro H; congruence. Qed.

Lemma merge_files_none (files : list (jsstring * JSON)) (acc : ClinicalVisualizations.Sections) :
  ClinicalVisualizations.merge_files files acc = None <->
  exists filename, In (filename, JNull) files.
Proof.
  revert acc. induction files as [|[fn fsec] files IH]; intro acc.
  - cbn. split; [discriminate | intros [? []]].
  - cbn [ClinicalVisualizations.merge_files].
    destruct (ClinicalVisualizations.entries fsec) as [es|] eqn:E.
    + rewrite IH. split; intros [f Hf]; exists f; cbn [In] in *; [now right|].
      destruct Hf as [Hf|Hf]; [|exact Hf]. injection Hf as -> ->. discriminate.
    + apply entries_none in E. subst fsec. split; [|reflexivity].
      intros _. exists fn. now left.
Qed.

(** X13.  One file without sections breaks the grid: rendering
    [SectionCompleteness] throws exactly when the sections of some file
    are [null]; whatever else the files hold, and whatever [sections]
    itself is, the grid is rendered with its eleven rows otherwise. *)
Theorem X_null_sections_break_grid (sections : option JSON) :
  (ClinicalVisualizations.SectionCompleteness sections = None <->
   exists filename, In (filename, JNull) (ClinicalVisualizations.files_of sections))
  /\
  (forall items,
     ClinicalVisualizations.SectionCompleteness sections = Some items ->
     map ClinicalVisualizations.section_label items =
     map snd ClinicalVisualizations.sectionLabels).
Proof.
  unfold ClinicalVisualizations.SectionCompleteness. split.
  - assert (Hc : ClinicalVisualizations.combine sections = None <->
                 exists filename,
                   In (filename, JNull) (ClinicalVisualizations.files_of sections)).
    { destruct sections as [[| | | |l|fs]|]; cbn [ClinicalVisualizations.combine
        ClinicalVisualizations.files_of];
        try apply merge_files_none; (split; [discriminate | intros [? []]]). }
    destruct (ClinicalVisualizations.combine sections); rewrite <- Hc;
      split; congruence.
  - intros items. destruct (ClinicalVisualizations.combine sections) as [acc|];
      [|discriminate].
    intro E. injection E as <-. reflexivity.
Qed.

Lemma X_null_sections_witness :
  map ClinicalVisualizations.section_label
    (map (ClinicalVisualizations.section_item []) ClinicalVisualizations.sectionLabels) =
  map snd ClinicalVisualizations.sectionLabels.
Proof.
  apply (proj2 (X_null_sections_break_grid None)). reflexivity.
Defined.

(** *** Laboratory results *)

Lemma filter_partition_length {A : Type} (f : A -> bool) (l : list A) :
  (List.length (filter f l) + List.length (filter (fun x => negb (f x)) l) =
   List.length l)%nat.
Proof.
  induction l as [|x l IH]; [reflexivity|]. cbn [filter].
  destruct (f x); cbn [negb List.length]; lia.
Qed.

(** X14.  No result is lost or shown twice: when the panel shows results, the
    labs are a non-empty array, each lab is in exactly one of the two
    sections, under the abnormal results exactly when its [is_abnormal]
    is truthy, and the two counts add up to the number of labs.  A card
    shows [N/A] for a value that is the number zero. *)
Theorem X_labs_shown_once (labs : option JSON) (abnormalLabs normalLabs : list JSON) :
  ClinicalVisualizations.AbnormalLabsPanel labs =
    Some (ClinicalVisualizations.LabResults abnormalLabs normalLabs) ->
  exists l,
    labs = Some (JArr l) /\ l <> [] /\
    (List.length abnormalLabs + List.length normalLabs = List.length l)%nat /\
    (forall lab, In lab abnormalLabs <->
                 In lab l /\ truthy_opt (prop lab (js "is_abnormal")) = true) /\
    (forall lab, In lab normalLabs <->
                 In lab l /\ truthy_opt (prop lab (js "is_abnormal")) = false) /\
    (forall lab m e,
       In lab l -> prop lab (js "value") = Some (JNum m e) -> num_is_zero m e = true ->
       ClinicalVisualizations.lab_value (ClinicalVisualizations.lab_card lab) =
       JStr (js "N/A")).
Proof.
  unfold ClinicalVisualizations.AbnormalLabsPanel.
  destruct labs as [v|]; [|discriminate].
  destruct (negb (truthy v) || _) eqn:E; [discriminate|].
  destruct v as [| | | |l|]; try discriminate.
  destruct (existsb Files.is_null l); [discriminate|].
  intro H. injection H as <- <-. exists l.
  split; [reflexivity|]. split.
  { intros ->. discriminate. }
  split; [apply filter_partition_length|].
  split; [intro lab; apply filter_In|].
  split.
  { intro lab. rewrite filter_In, negb_true_iff. reflexivity. }
  intros lab m e _ Hv Hz. unfold ClinicalVisualizations.lab_card.
  cbn [ClinicalVisualizations.lab_value]. rewrite Hv. unfold or_default, truthy.
  now rewrite Hz.
Qed.

Lemma X_labs_witness :
  exists l,
    Some (JArr [JObj [(js "value", JNum 0 0)];
                JObj [(js "is_abnormal", JBool true)]]) = Some (JArr l) /\ l <> [] /\
    (List.length [JObj [(js "is_abnormal", JBool true)]]
     + List.length [JObj [(js "value", JNum 0 0)]] = List.length l)%nat /\
    (forall lab, In lab [JObj [(js "is_abnormal", JBool true)]] <->
                 In lab l /\ truthy_opt (prop lab (js "is_abnormal")) = true) /\
    (forall lab, In lab [JObj [(js "value", JNum 0 0)]] <->
                 In lab l /\ truthy_opt (prop lab (js "is_abnormal")) = false) /\
    (forall lab m e,
       In lab l -> prop lab (js "value") = Some (JNum m e) -> num_is_zero m e = true ->
       ClinicalVisualizations.lab_value (ClinicalVisualizations.lab_card lab) =
       JStr (js "N/A")).
Proof.
  apply (X_labs_shown_once
           (Some (JArr [JObj [(js "value", JNum 0 0)];
                        JObj [(js "is_abnormal", JBool true)]]))).
  vm_compute. reflexivity.
Defined.
